(** * ManaMesh card scraper: scrape orchestration core

    A shallow embedding of the scrape orchestration engine of the ManaMesh
    card tools:

    - [card_scraper/models.py]   the scrape-state records and their methods,
    - [card_scraper/state.py]    the JSON state tracker, which loads the
                                 state file at the first use of the state,
    - [onepiece_scraper/downloader.py]  the single-image downloader,
    - [card_scraper/config.py]   the enabled sources and the validation,
    - [card_scraper/adapters.py] the adapter registry,
    - [card_scraper/manifest.py] the extension of an image URL,
    - [card_scraper/scraper.py]  adapter loading, set discovery, the card
                                 fallback chain and the pipeline [run].

    Python strings are byte strings in UTF-8 here: splitting on an ASCII
    character and comparing lexicographically give the same answers on
    bytes as on code points.  Python dicts whose iteration order cannot be
    observed through the modelled operations are [gmap]s; dicts that are
    iterated (JSON objects, the discovery table, the per-run card table)
    are insertion-ordered association lists. *)

From Stdlib Require Import Strings.String Strings.Ascii ZArith List Sorting.Sorted.
From Stdlib Require Import Structures.OrdersEx.
From stdpp Require Import gmap strings list fin_maps pretty.

Local Open Scope string_scope.
Set Warnings "-register-all,-clear-no-such-hyp".

(** ** Python outcomes *)

(** The exception classes the modelled code raises or catches. *)
Inductive exn :=
| JSONDecodeError
| UnicodeDecodeError
| KeyError (key : string)
| TypeError
| AttributeError
| OverflowError
| ValueError (msg : string)
| OtherError (msg : string).

(** A Python call either returns a value or raises. *)
Inductive result (A : Type) :=
| Return (a : A)
| Raise (e : exn).
Arguments Return {A} a.
Arguments Raise {A} e.

(** Sequencing: an exception raised by the first call ends the block.
    With this instance stdpp's [x ← r; k] reads as Python's statement
    sequencing under exceptions. *)
Global Instance result_bind : MBind result := λ A B k r,
  match r with
  | Return a => k a
  | Raise e => Raise e
  end.

(** ** card_scraper/models.py *)

Module SetInfo.
Record t := mk { id : string; name : string; category : string }.
End SetInfo.

Module CardDataBase.
Record t := mk {
  id : string;
  name : string;
  image_url : string;
  set_id : string;
  source : string;
  rarity : string
}.
End CardDataBase.

Module CardImageStatus.
Record t := mk {
  card_id : string;
  status : string;
  path : option string;
  error : option string
}.
End CardImageStatus.

Module SetScrapeState.
Record t := mk {
  set_id : string;
  last_scraped : option string;
  card_ids : list string;
  images : gmap string CardImageStatus.t
}.

(** [SetScrapeState(set_id=set_id)]: the dataclass defaults. *)
Definition fresh (set_id : string) : t := mk set_id None [] ∅.

Definition with_card_ids (ss : t) (ids : list string) : t :=
  mk (set_id ss) (last_scraped ss) ids (images ss).

Definition with_images (ss : t) (imgs : gmap string CardImageStatus.t) : t :=
  mk (set_id ss) (last_scraped ss) (card_ids ss) imgs.

Definition with_last_scraped (ss : t) (ts : option string) : t :=
  mk (set_id ss) ts (card_ids ss) (images ss).
End SetScrapeState.

Module ScrapeState.
Record t := mk { sets : gmap string SetScrapeState.t }.

(** [ScrapeState()] *)
Definition empty : t := mk ∅.

(** [self.sets.setdefault(set_id, SetScrapeState(set_id=set_id))]: the
    entry that is in the dict after the call. *)
Definition setdefault (s : t) (set_id : string) : SetScrapeState.t :=
  default (SetScrapeState.fresh set_id) (sets s !! set_id).

Definition is_card_scraped (s : t) (set_id card_id : string) : bool :=
  match sets s !! set_id with
  | None => false
  | Some ss => bool_decide (card_id ∈ SetScrapeState.card_ids ss)
  end.

Definition is_image_downloaded (s : t) (set_id card_id : string) : bool :=
  match sets s !! set_id with
  | None => false
  | Some ss =>
      match SetScrapeState.images ss !! card_id with
      | None => false
      | Some img => String.eqb (CardImageStatus.status img) "success"
      end
  end.

Definition mark_card_scraped (s : t) (set_id card_id : string) : t :=
  let ss := setdefault s set_id in
  let ss' :=
    if bool_decide (card_id ∈ SetScrapeState.card_ids ss) then ss
    else SetScrapeState.with_card_ids ss (SetScrapeState.card_ids ss ++ [card_id]) in
  mk (<[set_id := ss']> (sets s)).

Definition mark_image (s : t) (set_id card_id status : string)
    (path error : option string) : t :=
  let ss := setdefault s set_id in
  let img := CardImageStatus.mk card_id status path error in
  mk (<[set_id := SetScrapeState.with_images ss
                    (<[card_id := img]> (SetScrapeState.images ss))]> (sets s)).

(** The card-id collection recorded for a set ([[]] when the set has no
    entry). *)
Definition cards_of (s : t) (set_id : string) : list string :=
  match sets s !! set_id with
  | None => []
  | Some ss => SetScrapeState.card_ids ss
  end.

(** [n] successive calls of [mark_card_scraped] with the same arguments. *)
Fixpoint mark_card_scraped_times (n : nat) (s : t) (set_id card_id : string) : t :=
  match n with
  | 0 => s
  | S n' => mark_card_scraped_times n' (mark_card_scraped s set_id card_id) set_id card_id
  end.
End ScrapeState.

(** ** card_scraper/state.py *)

(** The Python value [json.loads] returns: [None], a bool, an int, a float
    (kept as its literal), a str, a list, or a dict in document order. *)
Inductive json :=
| JNull
| JBool (b : bool)
| JInt (z : Z)
| JFloat (literal : string)
| JStr (s : string)
| JArr (items : list json)
| JObj (members : list (string * json)).

(** The content of an existing state file, by what reading and parsing it
    does. *)
Inductive file_content :=
| NotUtf8                      (* [read_text] raises UnicodeDecodeError *)
| NotJson                      (* [json.loads] raises JSONDecodeError *)
| Document (raw : json).       (* [json.loads] returns [raw] *)

Module Loaded.
(** Dataclasses do not validate their fields: a deserialised record holds
    whatever value the document had under each key. *)
Record CardImageStatus := mkImage {
  card_id : json;
  status : json;
  path : json;
  error : json
}.

Record SetScrapeState := mkSet {
  set_id : json;
  last_scraped : json;
  card_ids : json;
  images : gmap string CardImageStatus
}.

Record ScrapeState := mkState { sets : gmap string SetScrapeState }.

Definition empty : ScrapeState := mkState ∅.

(** The Python value of a field of a well-typed record. *)
Definition of_str (s : string) : json := JStr s.

Definition of_opt (o : option string) : json :=
  match o with
  | None => JNull
  | Some s => JStr s
  end.

Definition of_image (img : CardImageStatus.t) : CardImageStatus :=
  mkImage (of_str (CardImageStatus.card_id img)) (of_str (CardImageStatus.status img))
          (of_opt (CardImageStatus.path img)) (of_opt (CardImageStatus.error img)).

Definition of_set (ss : SetScrapeState.t) : SetScrapeState :=
  mkSet (of_str (SetScrapeState.set_id ss)) (of_opt (SetScrapeState.last_scraped ss))
        (JArr (of_str <$> SetScrapeState.card_ids ss))
        (of_image <$> SetScrapeState.images ss).

(** A state built through the typed interface, seen as the records Python
    holds. *)
Definition of_state (s : ScrapeState.t) : ScrapeState :=
  mkState (of_set <$> ScrapeState.sets s).
End Loaded.

(** [d.get(key)] on a dict in document order. *)
Fixpoint dict_lookup {V} (key : string) (members : list (string * V)) : option V :=
  match members with
  | [] => None
  | (k, v) :: rest => if String.eqb k key then Some v else dict_lookup key rest
  end.

(** [obj.get(key, dflt)]: only a dict has [get]. *)
Definition py_get (obj : json) (key : string) (dflt : json) : result json :=
  match obj with
  | JObj members => Return (default dflt (dict_lookup key members))
  | _ => Raise AttributeError
  end.

(** [obj.items()]: only a dict has [items]. *)
Definition py_items (obj : json) : result (list (string * json)) :=
  match obj with
  | JObj members => Return members
  | _ => Raise AttributeError
  end.

(** [obj[key]] with a string key: KeyError on a dict without the key,
    TypeError on every other JSON value (str and list want integer
    indices, the rest is not subscriptable). *)
Definition py_getitem (obj : json) (key : string) : result json :=
  match obj with
  | JObj members =>
      match dict_lookup key members with
      | Some v => Return v
      | None => Raise (KeyError key)
      end
  | _ => Raise TypeError
  end.

(** A [for] loop whose body may raise: the first exception ends it. *)
Fixpoint for_each {A S : Type} (body : S -> A -> result S) (acc : S) (xs : list A)
    : result S :=
  match xs with
  | [] => Return acc
  | x :: rest => acc' ← body acc x; for_each body acc' rest
  end.

Definition _serialize_image (img : CardImageStatus.t) : json :=
  JObj [ ("card_id", JStr (CardImageStatus.card_id img));
         ("status", JStr (CardImageStatus.status img));
         ("path", Loaded.of_opt (CardImageStatus.path img));
         ("error", Loaded.of_opt (CardImageStatus.error img)) ].

Definition _serialize_set (ss : SetScrapeState.t) : json :=
  JObj [ ("set_id", JStr (SetScrapeState.set_id ss));
         ("last_scraped", Loaded.of_opt (SetScrapeState.last_scraped ss));
         ("card_ids", JArr (JStr <$> SetScrapeState.card_ids ss));
         ("images", JObj (prod_map id _serialize_image
                            <$> map_to_list (SetScrapeState.images ss))) ].

Definition _serialize_state (state : ScrapeState.t) : json :=
  JObj [ ("sets", JObj (prod_map id _serialize_set
                          <$> map_to_list (ScrapeState.sets state))) ].

(** The body of the inner loop: [images[cid] = CardImageStatus(...)], the
    keyword arguments evaluated left to right. *)
Definition _deserialize_image (images : gmap string Loaded.CardImageStatus)
    (item : string * json) : result (gmap string Loaded.CardImageStatus) :=
  let '(cid, img_raw) := item in
  card_id ← py_getitem img_raw "card_id";
  status ← py_getitem img_raw "status";
  path ← py_get img_raw "path" JNull;
  error ← py_get img_raw "error" JNull;
  Return (<[cid := Loaded.mkImage card_id status path error]> images).

(** The body of the outer loop. *)
Definition _deserialize_set (sets : gmap string Loaded.SetScrapeState)
    (item : string * json) : result (gmap string Loaded.SetScrapeState) :=
  let '(sid, ss_raw) := item in
  images_raw ← py_get ss_raw "images" (JObj []);
  image_items ← py_items images_raw;
  images ← for_each _deserialize_image ∅ image_items;
  set_id ← py_get ss_raw "set_id" (JStr sid);
  last_scraped ← py_get ss_raw "last_scraped" JNull;
  card_ids ← py_get ss_raw "card_ids" (JArr []);
  Return (<[sid := Loaded.mkSet set_id last_scraped card_ids images]> sets).

Definition _deserialize_state (raw : json) : result Loaded.ScrapeState :=
  sets_raw ← py_get raw "sets" (JObj []);
  set_items ← py_items sets_raw;
  sets ← for_each _deserialize_set ∅ set_items;
  Return (Loaded.mkState sets).

(** The [except (json.JSONDecodeError, KeyError, TypeError)] clause. *)
Definition caught_by_load (e : exn) : bool :=
  match e with
  | JSONDecodeError | KeyError _ | TypeError => true
  | _ => false
  end.

(** [json.loads(self._path.read_text(encoding="utf-8"))] *)
Definition read_and_parse (content : file_content) : result json :=
  match content with
  | NotUtf8 => Raise UnicodeDecodeError
  | NotJson => Raise JSONDecodeError
  | Document raw => Return raw
  end.

(** [StateTracker._load] on the file at [self._path] ([None] when the
    path does not exist); the warning it logs is not modelled. *)
Definition _load (file : option file_content) : result Loaded.ScrapeState :=
  match file with
  | None => Return Loaded.empty
  | Some content =>
      match raw ← read_and_parse content; _deserialize_state raw with
      | Return st => Return st
      | Raise e => if caught_by_load e then Return Loaded.empty else Raise e
      end
  end.

(** [StateTracker.save] followed by a parse of the written text:
    [json.loads(json.dumps(data))] gives back [data] for a dict of
    strings, lists and [None]. *)
Definition saved_file (state : ScrapeState.t) : option file_content :=
  Some (Document (_serialize_state state)).

(** The typed record behind a loaded one, when every field holds a value
    of the type its annotation names. *)
Module Typed.
Definition to_str (v : json) : option string :=
  match v with
  | JStr s => Some s
  | _ => None
  end.

Definition to_opt (v : json) : option (option string) :=
  match v with
  | JNull => Some None
  | JStr s => Some (Some s)
  | _ => None
  end.

Definition to_strs (v : json) : option (list string) :=
  match v with
  | JArr items => mapM to_str items
  | _ => None
  end.

Definition to_map {A B} (f : A → option B) (m : gmap string A) : option (gmap string B) :=
  list_to_map <$> mapM (λ item : string * A, b ← f item.2; Some (item.1, b)) (map_to_list m).

Definition to_image (img : Loaded.CardImageStatus) : option CardImageStatus.t :=
  card_id ← to_str (Loaded.card_id img);
  status ← to_str (Loaded.status img);
  path ← to_opt (Loaded.path img);
  error ← to_opt (Loaded.error img);
  Some (CardImageStatus.mk card_id status path error).

Definition to_set (ss : Loaded.SetScrapeState) : option SetScrapeState.t :=
  set_id ← to_str (Loaded.set_id ss);
  last_scraped ← to_opt (Loaded.last_scraped ss);
  card_ids ← to_strs (Loaded.card_ids ss);
  images ← to_map to_image (Loaded.images ss);
  Some (SetScrapeState.mk set_id last_scraped card_ids images).

Definition to_state (st : Loaded.ScrapeState) : option ScrapeState.t :=
  ScrapeState.mk <$> to_map to_set (Loaded.sets st).
End Typed.

(** What a use of the tracker's state comes to: a value; an exception; or
    a state file whose records hold values of other types than the ones
    the tracker writes, which Python keeps as they are.  What the run does
    with such records is not modelled. *)
Inductive step (A : Type) :=
| Done (a : A)
| Raised (e : exn)
| Untyped.
Arguments Done {A} a.
Arguments Raised {A} e.
Arguments Untyped {A}.

Module StateTracker.
(** [_state] is [None] until the state is first used or reset; [file] is
    the content of the state file, [None] when there is no file. *)
Record t := mk {
  _state : option ScrapeState.t;
  file : option file_content
}.

(** [StateTracker(state_file)] *)
Definition new (file : option file_content) : t := mk None file.

(** The [state] property: the first use loads the file. *)
Definition state (tracker : t) : step (t * ScrapeState.t) :=
  match _state tracker with
  | Some st => Done (tracker, st)
  | None =>
      match _load (file tracker) with
      | Raise e => Raised e
      | Return loaded =>
          match Typed.to_state loaded with
          | Some st => Done (mk (Some st) (file tracker), st)
          | None => Untyped
          end
      end
  end.

(** [reset] *)
Definition reset (tracker : t) : t := mk (Some ScrapeState.empty) (file tracker).

(** The tracker after a method of [self.state] changed the state in place. *)
Definition hold (st : ScrapeState.t) (tracker : t) : t := mk (Some st) (file tracker).

(** [save]: the state is read, which loads it when nothing has used it
    yet, and its document replaces the file. *)
Definition save (tracker : t) : step (t * ScrapeState.t) :=
  match state tracker with
  | Done (_, st) => Done (mk (Some st) (saved_file st), st)
  | Raised e => Raised e
  | Untyped => Untyped
  end.
End StateTracker.

(** ** onepiece_scraper/models.py *)

Module CardData.
Record t := mk {
  id : string;
  name : string;
  card_type : string;
  cost : option Z;
  power : option Z;
  counter : option Z;
  colors : list string;
  rarity : string;
  traits : list string;
  text : string;
  life : option Z;
  image_url : string;
  set_id : string;
  source : string
}.
End CardData.

(** ** onepiece_scraper/downloader.py *)

Definition MAX_RETRIES : nat := 3.

(** [BACKOFF_BASE = 1.0] seconds.  A delay is the float [1.0] times a
    power of two, which a float holds exactly, so delays are integers
    here. *)
Definition BACKOFF_BASE : Z := 1.

(** [BACKOFF_BASE * (2 ** (attempt - 1))]: the power is an int, and the
    product with the float converts it to a float.  The largest power of
    two a float holds is [2 ** 1023]; from [2 ** 1024] on the conversion
    raises OverflowError. *)
Definition backoff_delay (attempt : nat) : result Z :=
  if (Z.of_nat attempt - 1 <? 1024)%Z
  then Return (BACKOFF_BASE * 2 ^ (Z.of_nat attempt - 1))%Z
  else Raise OverflowError.

(** [c in s] for a one-character [c]. *)
Fixpoint contains (c : ascii) (s : string) : bool :=
  match s with
  | EmptyString => false
  | String a rest => if Ascii.eqb a c then true else contains c rest
  end.

(** [s.split(c)[0]] *)
Fixpoint before_first (c : ascii) (s : string) : string :=
  match s with
  | EmptyString => EmptyString
  | String a rest => if Ascii.eqb a c then EmptyString else String a (before_first c rest)
  end.

(** [s.split(c)[-1]], which is also [s.rsplit(c, 1)[-1]]. *)
Fixpoint after_last (c : ascii) (s : string) : string :=
  match s with
  | EmptyString => EmptyString
  | String a rest =>
      if contains c rest then after_last c rest
      else if Ascii.eqb a c then rest else s
  end.

Definition lower_ascii (a : ascii) : ascii :=
  let n := nat_of_ascii a in
  if (65 <=? n)%nat && (n <=? 90)%nat then ascii_of_nat (n + 32) else a.

(** [s.lower()]; a character outside ASCII never lowers to a letter of the
    whitelist below, so the bytes of the other characters are kept. *)
Fixpoint lower (s : string) : string :=
  match s with
  | EmptyString => EmptyString
  | String a rest => String (lower_ascii a) (lower rest)
  end.

Definition IMAGE_EXTENSIONS : list string := ["jpg"; "jpeg"; "png"; "webp"; "gif"].

Definition _url_extension (url : string) : string :=
  let path := before_first "#" (before_first "?" url) in
  if contains "." (after_last "/" path) then
    let ext := lower (after_last "." path) in
    if bool_decide (ext ∈ IMAGE_EXTENSIONS) then ext else "jpg"
  else "jpg".

(** A [pathlib.Path] as the segments it was built from with [/]; the disk
    maps the path of each existing file to its bytes. *)
Abbreviation Path := (list string).
Abbreviation FS := (gmap (list string) string).

(** [s.split(c)] *)
Fixpoint split_on (c : ascii) (s : string) : list string :=
  match s with
  | EmptyString => [EmptyString]
  | String a rest =>
      if Ascii.eqb a c then EmptyString :: split_on c rest
      else match split_on c rest with
           | [] => [String a EmptyString]
           | part :: parts => String a part :: parts
           end
  end.

(** Joining the segments of a path: a segment that starts with a slash
    drops the segments before it. *)
Fixpoint effective_segments (segments : list string) : list string :=
  match segments with
  | [] => []
  | segment :: rest =>
      if existsb (String.prefix "/") rest then effective_segments rest
      else segment :: rest
  end.

(** The root of the joined path: exactly two leading slashes are kept,
    any other number of them is one. *)
Definition path_root (segments : list string) : string :=
  match segments with
  | [] => ""
  | first :: _ =>
      if String.prefix "///" first then "/"
      else if String.prefix "//" first then "//"
      else if String.prefix "/" first then "/"
      else ""
  end.

(** The parts of the parsed path: empty components and [.] are dropped. *)
Definition path_parts (segments : list string) : list string :=
  List.filter (λ part, negb (String.eqb part "") && negb (String.eqb part "."))
              (concat (split_on "/" <$> segments)).

(** [str(path)]: pathlib normalises the path it prints, so
    [./output/] joined with [OP-01] prints as [output/OP-01]. *)
Definition path_str (p : Path) : string :=
  let segments := effective_segments p in
  match path_root segments, path_parts segments with
  | EmptyString, [] => "."
  | root, parts => root ++ String.concat "/" parts
  end.

Module ImageDownloader.
Record t := mk {
  _output_dir : string;
  concurrency : nat;
  _max_retries : nat
}.

(** [ImageDownloader(output_dir)] with the default arguments. *)
Definition new (output_dir : string) : t := mk output_dir 5 MAX_RETRIES.

Definition image_path (d : t) (set_id card_id ext : string) : Path :=
  [_output_dir d; set_id; "cards"; card_id ++ "." ++ ext].

Definition image_exists (d : t) (disk : FS) (set_id card_id ext : string) : bool :=
  bool_decide (is_Some (disk !! image_path d set_id card_id ext)).
End ImageDownloader.

(** What one [client.get(url)] does. *)
Inductive Response :=
| TransportError (exc : string)
| HttpResponse (status : nat) (content : string).

(** The effects of a download, in the order they happen. *)
Inductive effect :=
| Mkdir (dir : Path)
| Get (url : string)
| Sleep (seconds : Z)
| WriteBytes (dest : Path) (content : string).

Module World.
Record t := mk {
  disk : FS;
  requests : nat;          (* GETs issued so far *)
  effects : list effect
}.

Definition emit (e : effect) (w : t) : t := mk (disk w) (requests w) (effects w ++ [e]).
End World.

Section Download.
(** The network: the response to the [n]-th request of the run. *)
Variable net : nat -> string -> Response.
(** The text of the [httpx.HTTPStatusError] for a status and a URL. *)
Variable status_error : nat -> string -> string.

(** The body of the [try]: [Some exc] when it raised, with the text of the
    exception ([raise_for_status] raises unless the status is 2xx). *)
Definition try_download (w : World.t) (image_url : string) (dest : Path)
    : World.t * option string :=
  let w1 := World.mk (World.disk w) (S (World.requests w))
                     (World.effects w ++ [Get image_url]) in
  match net (World.requests w) image_url with
  | TransportError exc => (w1, Some exc)
  | HttpResponse status content =>
      if (200 <=? status)%nat && (status <? 300)%nat then
        (World.mk (<[dest := content]> (World.disk w1)) (World.requests w1)
                  (World.effects w1 ++ [WriteBytes dest content]), None)
      else (w1, Some (status_error status image_url))
  end.

(** [for attempt in range(1, self._max_retries + 1)]; the loop running
    out is the final [return False, "Unknown error"].  The delay is
    computed in the [except] clause, so its OverflowError leaves the
    function. *)
Fixpoint retry_loop (d : ImageDownloader.t) (image_url : string) (dest : Path)
    (attempts : list nat) (w : World.t) : World.t * result (bool * option string) :=
  match attempts with
  | [] => (w, Return (false, Some "Unknown error"))
  | attempt :: rest =>
      match try_download w image_url dest with
      | (w1, None) => (w1, Return (true, None))
      | (w1, Some exc) =>
          if (attempt <? ImageDownloader._max_retries d)%nat then
            match backoff_delay attempt with
            | Return delay => retry_loop d image_url dest rest (World.emit (Sleep delay) w1)
            | Raise e => (w1, Raise e)
            end
          else
            (w1, Return (false, Some ("Failed after "
                                        ++ pretty (ImageDownloader._max_retries d)
                                        ++ " attempts: " ++ exc)))
      end
  end.

Definition download_card_image (d : ImageDownloader.t) (w : World.t)
    (card : CardData.t) (image_url : string) : World.t * result (bool * option string) :=
  if String.eqb image_url "" then (w, Return (false, Some "No image URL"))
  else
    let ext := _url_extension image_url in
    let dest := ImageDownloader.image_path d (CardData.set_id card) (CardData.id card) ext in
    if bool_decide (is_Some (World.disk w !! dest)) then (w, Return (true, None))
    else
      let w1 := World.emit (Mkdir (removelast dest)) w in
      retry_loop d image_url dest (seq 1 (ImageDownloader._max_retries d)) w1.
End Download.

(** Whether a download returned [True]. *)
Definition reported_success (r : result (bool * option string)) : bool :=
  match r with
  | Return (ok, _) => ok
  | Raise _ => false
  end.

(** The text of the exception an attempt ends with, when the response
    makes the [try] body raise: a transport error, or a status that is not
    2xx. *)
Definition failure_of (status_error : nat -> string -> string) (image_url : string)
    (r : Response) : option string :=
  match r with
  | TransportError exc => Some exc
  | HttpResponse status _ =>
      if (200 <=? status)%nat && (status <? 300)%nat then None
      else Some (status_error status image_url)
  end.

(** ** card_scraper/adapters.py *)

Module Adapter.
(** The [CardSourceAdapter] protocol.  Within one run [list_sets] is
    called once and [get_cards] once per set id, so an adapter is what each
    of those calls does. *)
Record t := mk {
  name : string;
  list_sets : result (list SetInfo.t);
  get_cards : string -> result (list CardDataBase.t);
  get_image_url : CardDataBase.t -> string
}.
End Adapter.

(** ** card_scraper/scraper.py *)

Module AppConfig.
(** What the orchestrator reads of an [AppConfig] whose active game is
    configured: [game], [scrape.include_starters], [set_filter],
    [output.base_dir] and [output.manifest_version].  It also reads
    [scrape.include_promos], which [ScrapeConfig] does not have. *)
Record t := mk {
  game : string;
  include_starters : bool;
  set_filter : option (list string);
  base_dir : string;
  manifest_version : string
}.
End AppConfig.

(** The texts [console.print] shows, by their format string. *)
Inductive message :=
| MsgForce
| MsgDiscovering (game : string)
| MsgNoSets
| MsgFiltered (count : nat) (ids : list string)
| MsgFound (count : nat)
| MsgFetching
| MsgFetched (cards sets : nat)
| MsgDownloading
| MsgImages (ok failed : nat)
| MsgGenerating
| MsgComplete.

(** What a run does to the outside, in order. *)
Inductive event :=
| Print (m : message)
| ListSets (adapter : string)
| GetCards (adapter : string) (set_id : string)
| DownloadBatch (set_id : string) (jobs : list (CardDataBase.t * string))
| GenRoot (sets : list SetInfo.t)
| GenSet (set : SetInfo.t) (cards : list CardDataBase.t)
| SaveState (state : ScrapeState.t).

(** The deduplication loop of [_fetch_cards]. *)
Fixpoint unique_cards (seen : gset string) (unique : list CardDataBase.t)
    (cards : list CardDataBase.t) : list CardDataBase.t :=
  match cards with
  | [] => unique
  | card :: rest =>
      if bool_decide (CardDataBase.id card ∈ seen) then unique_cards seen unique rest
      else unique_cards ({[CardDataBase.id card]} ∪ seen) (unique ++ [card]) rest
  end.

(** [_fetch_cards]: the cards, and the adapter calls made. *)
Fixpoint _fetch_cards (adapters : list Adapter.t) (set_id : string) (force : bool)
    : list CardDataBase.t * list event :=
  match adapters with
  | [] => ([], [])
  | adapter :: rest =>
      let call := GetCards (Adapter.name adapter) set_id in
      match Adapter.get_cards adapter set_id with
      | Return ((_ :: _) as cards) => (unique_cards ∅ [] cards, [call])
      | _ =>
          let '(cards, calls) := _fetch_cards rest set_id force in
          (cards, call :: calls)
      end
  end.

(** [key in d] and [d[key] = value] on a dict in insertion order. *)
Definition dict_has {V} (key : string) (d : list (string * V)) : bool :=
  bool_decide (key ∈ d.*1).

Fixpoint dict_set {V} (key : string) (value : V) (d : list (string * V))
    : list (string * V) :=
  match d with
  | [] => [(key, value)]
  | (k, v) :: rest =>
      if String.eqb k key then (k, value) :: rest else (k, v) :: dict_set key value rest
  end.

(** [if s.id not in all_sets: all_sets[s.id] = s] *)
Definition add_if_absent (all_sets : list (string * SetInfo.t)) (s : SetInfo.t)
    : list (string * SetInfo.t) :=
  if dict_has (SetInfo.id s) all_sets then all_sets
  else dict_set (SetInfo.id s) s all_sets.

(** The adapter loop of [_discover_sets]: a raising adapter adds nothing. *)
Fixpoint merge_adapters (adapters : list Adapter.t) (all_sets : list (string * SetInfo.t))
    : list (string * SetInfo.t) * list event :=
  match adapters with
  | [] => (all_sets, [])
  | adapter :: rest =>
      let all_sets' :=
        match Adapter.list_sets adapter with
        | Return sets => foldl add_if_absent all_sets sets
        | Raise _ => all_sets
        end in
      let '(merged, calls) := merge_adapters rest all_sets' in
      (merged, ListSets (Adapter.name adapter) :: calls)
  end.

(** [f"{i:02d}"] *)
Definition two_digits (i : nat) : string :=
  if (i <? 10)%nat then "0" ++ pretty i else pretty i.

(** The starter decks [ST-01] to [ST-19]. *)
Definition starter_sets : list SetInfo.t :=
  (λ i, SetInfo.mk ("ST-" ++ two_digits i) ("Starter Deck " ++ two_digits i) "starter")
    <$> seq 1 19.

(** [scrape_cfg.include_promos]: the [ScrapeConfig] of
    card_scraper/config.py has the fields [sets], [categories],
    [include_starters] and [include_tokens] and no [include_promos], so the
    read raises AttributeError whatever the configuration is. *)
Definition read_include_promos (config : AppConfig.t) : result bool :=
  Raise AttributeError.

(** The game-specific synthetic entries: for onepiece the starter decks,
    when configured, and then the promo set, when configured. *)
Definition add_synthetic_sets (config : AppConfig.t) (all_sets : list (string * SetInfo.t))
    : result (list (string * SetInfo.t)) :=
  if String.eqb (AppConfig.game config) "onepiece" then
    let all_sets :=
      if AppConfig.include_starters config
      then foldl add_if_absent all_sets starter_sets
      else all_sets in
    include_promos ← read_include_promos config;
    Return (if include_promos : bool
            then add_if_absent all_sets (SetInfo.mk "PROMO" "Promo Cards" "promo")
            else all_sets)
  else Return all_sets.

(** Python compares strings by code point, which is the byte order of
    their UTF-8 encodings. *)
Definition str_lt (a b : string) : Prop := String_as_OT.compare a b = Lt.
Definition str_ltb (a b : string) : bool :=
  match String_as_OT.compare a b with
  | Lt => true
  | _ => false
  end.

(** [sorted(values, key=lambda s: s.id)]: a stable sort, written as the
    insertion sort that puts a record before the first one whose id is not
    smaller. *)
Fixpoint insert_by_id (s : SetInfo.t) (sorted : list SetInfo.t) : list SetInfo.t :=
  match sorted with
  | [] => [s]
  | x :: rest =>
      if str_ltb (SetInfo.id x) (SetInfo.id s) then x :: insert_by_id s rest
      else s :: sorted
  end.

Definition sorted_by_id (values : list SetInfo.t) : list SetInfo.t :=
  foldr insert_by_id [] values.

Definition _discover_sets (config : AppConfig.t) (adapters : list Adapter.t)
    : result (list SetInfo.t) * list event :=
  let '(merged, calls) := merge_adapters adapters [] in
  (all_sets ← add_synthetic_sets config merged; Return (sorted_by_id all_sets.*2), calls).

(** [_get_best_image_url] *)
Fixpoint _get_best_image_url (adapters : list Adapter.t) (card : CardDataBase.t) : string :=
  match adapters with
  | [] => CardDataBase.image_url card
  | adapter :: rest =>
      if String.eqb (Adapter.name adapter) (CardDataBase.source card)
      then Adapter.get_image_url adapter card
      else _get_best_image_url rest card
  end.

(** [_get_manifest_generators]: only two games have generators. *)
Definition _get_manifest_generators (game : string) : result unit :=
  if String.eqb game "onepiece" then Return tt
  else if String.eqb game "mtg" then Return tt
  else Raise (ValueError ("No manifest generators for game '" ++ game ++ "'")).

(** [a or b] on optional lists: [None] and [[]] are falsy. *)
Definition py_or (a b : option (list string)) : option (list string) :=
  match a with
  | Some (_ :: _) => a
  | _ => b
  end.

Section Pipeline.
(** Whatever a download batch depends on besides the disk. *)
Variable Net : Type.
(** [ImageDownloader.download_batch]: the downloads of a batch run
    concurrently, so a batch is taken as any change of the disk and any
    pair of counts. *)
Variable download_batch :
  Net -> FS -> list (CardDataBase.t * string) -> Net * FS * (nat * nat).
(** [datetime.now(timezone.utc).isoformat()] at the [n]-th reading. *)
Variable now : nat -> string.

(** What a run works on: the state tracker, the disk, the network, the
    clock readings so far and the events so far. *)
Record Pipeline := mkPipeline {
  tracker : StateTracker.t;
  disk : FS;
  network : Net;
  clock : nat;
  trace : list event
}.

Definition emit (events : list event) (w : Pipeline) : Pipeline :=
  mkPipeline (tracker w) (disk w) (network w) (clock w) (trace w ++ events).

Definition with_tracker (t : StateTracker.t) (w : Pipeline) : Pipeline :=
  mkPipeline t (disk w) (network w) (clock w) (trace w).

(** Sequencing of the steps of a run: an exception ends the run where it
    is raised. *)
Definition and_then {A B} (r : Pipeline * step A) (k : Pipeline -> A -> Pipeline * step B)
    : Pipeline * step B :=
  match r with
  | (w, Done a) => k w a
  | (w, Raised e) => (w, Raised e)
  | (w, Untyped) => (w, Untyped)
  end.

(** A [for] loop over the steps of a run. *)
Fixpoint for_each_step {A X} (body : Pipeline -> A -> X -> Pipeline * step A)
    (xs : list X) (w : Pipeline) (acc : A) : Pipeline * step A :=
  match xs with
  | [] => (w, Done acc)
  | x :: rest => and_then (body w acc x) (for_each_step body rest)
  end.

(** [self._state.state] *)
Definition read_state (w : Pipeline) : Pipeline * step ScrapeState.t :=
  match StateTracker.state (tracker w) with
  | Done (t, st) => (with_tracker t w, Done st)
  | Raised e => (w, Raised e)
  | Untyped => (w, Untyped)
  end.

(** The state after a method of [self._state.state] changed it. *)
Definition hold (st : ScrapeState.t) (w : Pipeline) : Pipeline :=
  with_tracker (StateTracker.hold st (tracker w)) w.

(** [for card in cards: self._state.state.mark_card_scraped(set_id, card.id)] *)
Definition mark_cards (st : ScrapeState.t) (set_id : string) (cards : list CardDataBase.t)
    : ScrapeState.t :=
  foldl (λ st card, ScrapeState.mark_card_scraped st set_id (CardDataBase.id card)) st cards.

(** [self._state.state.sets[set_id].last_scraped = timestamp]; the entry
    exists, the marking before it created it. *)
Definition set_last_scraped (st : ScrapeState.t) (set_id timestamp : string)
    : ScrapeState.t :=
  ScrapeState.mk
    (alter (λ ss, SetScrapeState.with_last_scraped ss (Some timestamp)) set_id
           (ScrapeState.sets st)).

(** One round of the fetch loop.  The state is used only when the chain
    gave cards. *)
Definition fetch_set (adapters : list Adapter.t) (force : bool)
    (w : Pipeline) (all_cards : list (string * list CardDataBase.t)) (set_info : SetInfo.t)
    : Pipeline * step (list (string * list CardDataBase.t)) :=
  let set_id := SetInfo.id set_info in
  let '(cards, calls) := _fetch_cards adapters set_id force in
  let w1 := emit calls w in
  match cards with
  | [] => (w1, Done all_cards)
  | _ :: _ =>
      and_then (read_state w1) (λ w2 st,
        let st := set_last_scraped (mark_cards st set_id cards) set_id (now (clock w2)) in
        (mkPipeline (StateTracker.hold st (tracker w2)) (disk w2) (network w2)
                    (S (clock w2)) (trace w2),
         Done (dict_set set_id cards all_cards)))
  end.

(** The body of the loop after the batch: the status of one card from the
    disk.  [image_exists] and [image_path] are called without an
    extension, which is their default [jpg]. *)
Definition record_image (d : ImageDownloader.t) (files : FS) (set_id : string)
    (st : ScrapeState.t) (card : CardDataBase.t) : ScrapeState.t :=
  let card_id := CardDataBase.id card in
  if ImageDownloader.image_exists d files set_id card_id "jpg" then
    ScrapeState.mark_image st set_id card_id "success"
      (Some (path_str (ImageDownloader.image_path d set_id card_id "jpg"))) None
  else ScrapeState.mark_image st set_id card_id "failed" None None.

(** The pending subset of a set's cards. *)
Definition pending (st : ScrapeState.t) (force : bool) (set_id : string)
    (cards : list CardDataBase.t) : list CardDataBase.t :=
  if force then cards
  else List.filter
         (λ c, negb (ScrapeState.is_image_downloaded st set_id (CardDataBase.id c))) cards.

(** The cards to download of one set: the state is used for each card,
    unless [force]. *)
Definition to_download (force : bool) (set_id : string) (cards : list CardDataBase.t)
    (w : Pipeline) : Pipeline * step (list CardDataBase.t) :=
  if force then (w, Done cards)
  else
    match cards with
    | [] => (w, Done [])
    | _ :: _ => and_then (read_state w) (λ w st, (w, Done (pending st force set_id cards)))
    end.

(** One round of the download loop. *)
Definition download_set (adapters : list Adapter.t) (d : ImageDownloader.t) (force : bool)
    (w : Pipeline) (totals : nat * nat) (item : string * list CardDataBase.t)
    : Pipeline * step (nat * nat) :=
  let '(total_ok, total_fail) := totals in
  let '(set_id, cards) := item in
  and_then (to_download force set_id cards w) (λ w cards,
    match cards with
    | [] => (w, Done totals)
    | _ :: _ =>
        let jobs := (λ c, (c, _get_best_image_url adapters c)) <$> cards in
        let '(network', files, (ok, fail)) := download_batch (network w) (disk w) jobs in
        let w1 := mkPipeline (tracker w) files network' (clock w)
                             (trace w ++ [DownloadBatch set_id jobs]) in
        and_then (read_state w1) (λ w2 st,
          (hold (foldl (record_image d files set_id) st cards) w2,
           Done (total_ok + ok, total_fail + fail)))
    end).

(** [self._state.save()] *)
Definition save_state (w : Pipeline) : Pipeline * step unit :=
  match StateTracker.save (tracker w) with
  | Done (t, st) => (emit [SaveState st] (with_tracker t w), Done tt)
  | Raised e => (w, Raised e)
  | Untyped => (w, Untyped)
  end.

(** The force switch at the start of a run. *)
Definition after_force (force : bool) (w0 : Pipeline) : Pipeline :=
  if force
  then emit [Print MsgForce] (with_tracker (StateTracker.reset (tracker w0)) w0)
  else w0.

(** The allowlist filter, when there is one. *)
Definition apply_filter (filter_ids : option (list string)) (discovered : list SetInfo.t)
    : list SetInfo.t :=
  match filter_ids with
  | Some ((_ :: _) as filter_ids) =>
      List.filter (λ s, bool_decide (SetInfo.id s ∈ filter_ids)) discovered
  | _ => discovered
  end.

(** The message after the filter. *)
Definition filter_message (filter_ids : option (list string)) (all_sets : list SetInfo.t)
    : message :=
  match filter_ids with
  | Some (_ :: _) => MsgFiltered (length all_sets) (SetInfo.id <$> all_sets)
  | _ => MsgFound (length all_sets)
  end.

(** The manifest stage and the save at the end of a run. *)
Definition finish (config : AppConfig.t) (all_sets : list SetInfo.t)
    (all_cards : list (string * list CardDataBase.t)) (w : Pipeline) : Pipeline * step unit :=
  match _get_manifest_generators (AppConfig.game config) with
  | Raise e => (w, Raised e)
  | Return _ =>
      let sets_with_cards :=
        List.filter (λ s, dict_has (SetInfo.id s) all_cards) all_sets in
      let w := emit [GenRoot sets_with_cards] w in
      let w :=
        emit ((λ s, GenSet s (default [] (dict_lookup (SetInfo.id s) all_cards)))
                <$> sets_with_cards) w in
      and_then (save_state w) (λ w _, (emit [Print MsgComplete] w, Done tt))
  end.

(** [Scraper.run]; the progress bars are not modelled. *)
Definition run (config : AppConfig.t) (adapters : list Adapter.t) (d : ImageDownloader.t)
    (force : bool) (set_filter : option (list string)) (w0 : Pipeline)
    : Pipeline * step unit :=
  let w := after_force force w0 in
  let w := emit [Print (MsgDiscovering (AppConfig.game config))] w in
  let '(discovered, calls) := _discover_sets config adapters in
  let w := emit calls w in
  match discovered with
  | Raise e => (w, Raised e)
  | Return [] => (emit [Print MsgNoSets] w, Done tt)
  | Return ((_ :: _) as discovered) =>
      let filter_ids := py_or set_filter (AppConfig.set_filter config) in
      let all_sets := apply_filter filter_ids discovered in
      let w := emit [Print (filter_message filter_ids all_sets); Print MsgFetching] w in
      and_then (for_each_step (fetch_set adapters force) all_sets w []) (λ w all_cards,
        let total_cards := foldr (λ item n, length item.2 + n) 0 all_cards in
        let w :=
          emit [Print (MsgFetched total_cards (length all_cards)); Print MsgDownloading] w in
        and_then (for_each_step (download_set adapters d force) all_cards w (0, 0))
          (λ w totals,
             let w := emit [Print (MsgImages totals.1 totals.2); Print MsgGenerating] w in
             finish config all_sets all_cards w))
  end.
End Pipeline.

Arguments tracker {Net} _.
Arguments disk {Net} _.
Arguments network {Net} _.
Arguments clock {Net} _.
Arguments trace {Net} _.
Arguments mkPipeline {Net} _ _ _ _ _.
Arguments emit {Net} _ _.
Arguments with_tracker {Net} _ _.
Arguments hold {Net} _ _.
Arguments read_state {Net} _.
Arguments after_force {Net} _ _.
Arguments save_state {Net} _.
Arguments and_then {Net A B} _ _.
Arguments for_each_step {Net A X} _ _ _ _.
Arguments to_download {Net} _ _ _ _.
Arguments finish {Net} _ _ _ _.

(** The state the tracker holds, once it holds one. *)
Definition held {Net} (w : Pipeline Net) : option ScrapeState.t :=
  StateTracker._state (tracker w).

(** ** First occurrences *)

(** The words of the design: of the records of a list, the ones no
    earlier record shares its key with, in the order of the list.
    [earlier] holds the records already passed. *)
Fixpoint first_occurrences_after {A} (key : A -> string) (earlier : list A) (l : list A)
    : list A :=
  match l with
  | [] => []
  | x :: rest =>
      if bool_decide (key x ∈ key <$> earlier)
      then first_occurrences_after key (earlier ++ [x]) rest
      else x :: first_occurrences_after key (earlier ++ [x]) rest
  end.

Definition first_occurrences {A} (key : A -> string) (l : list A) : list A :=
  first_occurrences_after key [] l.

(** An adapter that gives the fallback chain nothing for a set: it
    returned no cards, or it raised. *)
Definition yields_nothing (a : Adapter.t) (set_id : string) : Prop :=
  Adapter.get_cards a set_id = Return [] ∨ ∃ e, Adapter.get_cards a set_id = Raise e.

(** The sets the adapters return, in priority order; a raising adapter
    returns none. *)
Definition returned_sets (adapters : list Adapter.t) : list SetInfo.t :=
  concat ((λ a, match Adapter.list_sets a with
                | Return sets => sets
                | Raise _ => []
                end) <$> adapters).

(** The discovery table is keyed by the id of its records. *)
Definition keyed_by_id (d : list (string * SetInfo.t)) : Prop :=
  d.*1 = SetInfo.id <$> d.*2.

(** Ascending by id. *)
Definition id_lt (a b : SetInfo.t) : Prop := str_lt (SetInfo.id a) (SetInfo.id b).

(** The image status recorded for a card of a set, if any. *)
Definition image_status (s : ScrapeState.t) (set_id card_id : string)
    : option CardImageStatus.t :=
  ss ← ScrapeState.sets s !! set_id; SetScrapeState.images ss !! card_id.


(** The events of the stages after discovery and filtering: card fetch,
    image download, manifest emission and the state save. *)
Definition later_stage (e : event) : bool :=
  match e with
  | GetCards _ _ | DownloadBatch _ _ | GenRoot _ | GenSet _ _ | SaveState _ => true
  | _ => false
  end.

(** ** Invariants and views used in the properties *)

(** The invariant of the data model: in every set entry the card ids are
    pairwise distinct and the entry carries the id it is filed under. *)
Definition consistent (s : ScrapeState.t) : Prop :=
  ∀ set_id ss, ScrapeState.sets s !! set_id = Some ss →
    NoDup (SetScrapeState.card_ids ss) ∧ SetScrapeState.set_id ss = set_id.

(** ** card_scraper/manifest.py: the extension of an image URL *)

(** [guess_ext] *)
Definition guess_ext (image_url : string) : string :=
  if String.eqb image_url "" then "jpg"
  else
    let path := before_first "#" (before_first "?" image_url) in
    if contains "." (after_last "/" path) then
      let ext := lower (after_last "." path) in
      if bool_decide (ext ∈ ["jpg"; "jpeg"; "png"; "webp"; "gif"]) then ext else "jpg"
    else "jpg".

(** ** Views of a download used in the properties *)

(** The destination of a card's image for a URL. *)
Definition destination (d : ImageDownloader.t) (card : CardData.t) (image_url : string)
    : Path :=
  ImageDownloader.image_path d (CardData.set_id card) (CardData.id card)
    (_url_extension image_url).


(** The seconds slept in a list of effects. *)
Fixpoint total_sleep (effects : list effect) : Z :=
  match effects with
  | [] => 0
  | Sleep seconds :: rest => seconds + total_sleep rest
  | _ :: rest => total_sleep rest
  end.

(** ** Views of a run used in the properties *)

(** The last-scraped timestamp recorded for a set, if the set has an entry
    and a timestamp. *)
Definition last_scraped_of (s : ScrapeState.t) (set_id : string) : option string :=
  ss ← ScrapeState.sets s !! set_id; SetScrapeState.last_scraped ss.

(** The events that write manifests or the state file. *)
Definition writes_output (e : event) : bool :=
  match e with
  | GenRoot _ | GenSet _ _ | SaveState _ => true
  | _ => false
  end.

(** A later point of a run at which nothing was written since: the events
    added write neither a manifest nor the state. *)
Definition extends_quietly {Net} (w w' : Pipeline Net) : Prop :=
  ∃ events, trace w' = (trace w ++ events)%list
            ∧ Forall (λ e, writes_output e = false) events.

(** The tracker gives a state when it is used: it holds one, or the state
    file loads. *)
Definition readable {Net} (w : Pipeline Net) : Prop :=
  ∃ st, (read_state w).2 = Done st.


(** What the run keeps true of its table of fetched cards: every list in
    it is non-empty and has pairwise distinct card ids. *)
Definition fetched_ok (all_cards : list (string * list CardDataBase.t)) : Prop :=
  ∀ set_id cards, (set_id, cards) ∈ all_cards →
    cards ≠ [] ∧ NoDup (CardDataBase.id <$> cards).

(** ** A small run used to exercise the properties *)

Module Sample.
Definition mkm : SetInfo.t := SetInfo.mk "MKM" "Murders at Karlov Manor" "expansion".
Definition c1 : CardDataBase.t :=
  CardDataBase.mk "MKM-1" "Case File" "https://example.com/1.jpg" "MKM" "scryfall-api" "C".
Definition c2 : CardDataBase.t :=
  CardDataBase.mk "MKM-2" "Magnifying Glass" "https://example.com/2.jpg" "MKM" "scryfall-api" "U".

(** An adapter that lists one set and returns its first card twice. *)
Definition adapter : Adapter.t :=
  Adapter.mk "scryfall-api" (Return [mkm]) (λ _, Return [c1; c1; c2]) CardDataBase.image_url.

(** An adapter that is down. *)
Definition down : Adapter.t :=
  Adapter.mk "mtgjson" (Raise (OtherError "connection refused"))
             (λ _, Raise (OtherError "connection refused")) CardDataBase.image_url.

Definition config (game : string) : AppConfig.t := AppConfig.mk game false None "out" "1".

(** A batch that downloads nothing. *)
Definition batch (n : unit) (files : FS) (jobs : list (CardDataBase.t * string))
    : unit * FS * (nat * nat) := (n, files, (0, length jobs)).

Definition clock_text (n : nat) : string := "2026-01-01T00:00:00+00:00".

(** A first run: no state file, nothing on the disk. *)
Definition start : Pipeline unit := mkPipeline (StateTracker.new None) ∅ tt 0 [].





Definition go (game : string) (adapters : list Adapter.t) : Pipeline unit * step unit :=
  run unit batch clock_text (config game) adapters (ImageDownloader.new "out") false None start.
End Sample.

(** ** card_scraper/config.py *)

Module SourceConfig.
Record t := mk {
  name : string;
  enabled : bool;
  priority : Z;
  rate_limit_ms : Z;
  local_path : option string;
  bulk_ttl_hours : Z;
  image_size : string
}.
End SourceConfig.

Module ScrapeConfig.
Record t := mk {
  sets : string;
  categories : option (list string);
  include_starters : bool;
  include_tokens : bool
}.
End ScrapeConfig.

Module GameConfig.
Record t := mk {
  sources : list SourceConfig.t;
  scrape : ScrapeConfig.t
}.

(** [sorted(..., key=lambda s: s.priority)]: a stable sort, written as the
    insertion sort that puts a source before the first one whose priority
    is not smaller. *)
Fixpoint insert_by_priority (s : SourceConfig.t) (sorted : list SourceConfig.t)
    : list SourceConfig.t :=
  match sorted with
  | [] => [s]
  | x :: rest =>
      if (SourceConfig.priority x <? SourceConfig.priority s)%Z
      then x :: insert_by_priority s rest
      else s :: sorted
  end.

Definition sorted_by_priority (l : list SourceConfig.t) : list SourceConfig.t :=
  foldr insert_by_priority [] l.

(** The [enabled_sources] property. *)
Definition enabled_sources (gc : t) : list SourceConfig.t :=
  sorted_by_priority (List.filter SourceConfig.enabled (sources gc)).
End GameConfig.

Module OutputConfig.
Record t := mk {
  base_dir : string;
  image_format : string;
  manifest_version : string
}.
End OutputConfig.

Module StateConfig.
Record t := mk { state_file : string }.
End StateConfig.

Module Config.
(** The [AppConfig] dataclass with all its fields; [games] is a dict in
    insertion order. *)
Record t := mk {
  game : string;
  games : list (string * GameConfig.t);
  output : OutputConfig.t;
  state : StateConfig.t
}.
End Config.

(** ** card_scraper/adapters.py: the registry *)

Definition _ADAPTER_REGISTRY : list (string * list (string * string)) :=
  [ ("onepiece",
     [ ("optcg-api", "card_scraper.games.onepiece.adapters.optcg_api.OptcgApiAdapter");
       ("ryan-api", "card_scraper.games.onepiece.adapters.ryan_api.RyanApiAdapter");
       ("vegapull-records",
        "card_scraper.games.onepiece.adapters.vegapull_records.VegapullRecordsAdapter") ]);
    ("mtg",
     [ ("scryfall-bulk", "card_scraper.games.mtg.adapters.scryfall_bulk.ScryfallBulkAdapter");
       ("scryfall-api", "card_scraper.games.mtg.adapters.scryfall_api.ScryfallApiAdapter");
       ("mtgjson", "card_scraper.games.mtg.adapters.mtgjson.MtgjsonAdapter") ]) ].

(** The text of [list(d.keys())] in a message is kept as the list. *)
Inductive registry_error :=
| UnknownGame (game : string) (available : list string)
| UnknownAdapter (name game : string) (available : list string).

(** [get_adapter_class] up to the import: the qualified class name the
    registry has for a game and a source name, or the ValueError raised. *)
Definition get_adapter_class (game name : string) : registry_error + string :=
  match dict_lookup game _ADAPTER_REGISTRY with
  | None => inl (UnknownGame game (_ADAPTER_REGISTRY.*1))
  | Some game_adapters =>
      match dict_lookup name game_adapters with
      | None => inl (UnknownAdapter name game (game_adapters.*1))
      | Some qualified => inr qualified
      end
  end.

(** [known_adapters] *)
Definition known_adapters (game : string) : gset string :=
  list_to_set (default [] (dict_lookup game _ADAPTER_REGISTRY)).*1.

(** The ValueError [_validate_config] raises, by its format string and
    arguments. *)
Inductive config_error :=
| GameNotFound (game : string) (available : list string)
| NoSources (game : string)
| DuplicateSourceNames (game : string)
| UnknownSource (name game : string) (known : gset string)
| NoEnabledSources (game : string).

(** [_validate_config]: [None] when it returns, the error when it raises. *)
Definition _validate_config (config : Config.t) : option config_error :=
  let game := Config.game config in
  match dict_lookup game (Config.games config) with
  | None => Some (GameNotFound game (Config.games config).*1)
  | Some game_cfg =>
      let sources := GameConfig.sources game_cfg in
      match sources with
      | [] => Some (NoSources game)
      | _ :: _ =>
          let names := SourceConfig.name <$> sources in
          if negb (length names =? length (remove_dups names))%nat
          then Some (DuplicateSourceNames game)
          else
            let known := known_adapters game in
            match List.find (λ src, negb (bool_decide (SourceConfig.name src ∈ known)))
                            sources with
            | Some src => Some (UnknownSource (SourceConfig.name src) game known)
            | None =>
                match GameConfig.enabled_sources game_cfg with
                | [] => Some (NoEnabledSources game)
                | _ :: _ => None
                end
            end
      end
  end.

(** ** card_scraper/scraper.py: [Scraper.setup] *)

Section Setup.
(** Importing the class of a qualified name and instantiating it for a
    source: it gives an adapter or raises. *)
Variable instantiate : string -> SourceConfig.t -> result Adapter.t.

(** The [try] of [setup] for one source: the adapter, or [None] when the
    registry lookup or the instantiation raised (the error is logged). *)
Definition load_adapter (game : string) (src_cfg : SourceConfig.t) : option Adapter.t :=
  match get_adapter_class game (SourceConfig.name src_cfg) with
  | inl _ => None
  | inr qualified =>
      match instantiate qualified src_cfg with
      | Return adapter => Some adapter
      | Raise _ => None
      end
  end.

(** The loop of [setup]: a source whose adapter cannot be loaded is
    skipped. *)
Fixpoint load_adapters (game : string) (enabled : list SourceConfig.t) : list Adapter.t :=
  match enabled with
  | [] => []
  | src_cfg :: rest =>
      match load_adapter game src_cfg with
      | Some adapter => adapter :: load_adapters game rest
      | None => load_adapters game rest
      end
  end.

(** [Scraper.setup] for the active game's configuration: the adapters, or
    the RuntimeError when there is none. *)
Definition setup (game : string) (game_cfg : GameConfig.t) : result (list Adapter.t) :=
  match load_adapters game (GameConfig.enabled_sources game_cfg) with
  | [] => Raise (OtherError "No adapters could be loaded")
  | (_ :: _) as adapters => Return adapters
  end.
End Setup.

(** Ascending by priority. *)
Definition priority_le (a b : SourceConfig.t) : Prop :=
  (SourceConfig.priority a ≤ SourceConfig.priority b)%Z.

(** A configuration for the examples: three sources for "mtg", one of
    them disabled, and an instantiation that only fails for "mtgjson". *)
Module SampleConfig.
Definition source (name : string) (enabled : bool) (priority : Z) : SourceConfig.t :=
  SourceConfig.mk name enabled priority 200 None 24 "normal".

Definition mtg : GameConfig.t :=
  GameConfig.mk [source "scryfall-api" true 2; source "mtgjson" false 1;
                 source "scryfall-bulk" true 1]
                (ScrapeConfig.mk "all" None true false).

Definition config : Config.t :=
  Config.mk "mtg" [("mtg", mtg)] (OutputConfig.mk "./output/" "original" "1.0")
            (StateConfig.mk "./state/scrape-state.json").

Definition adapter_of (src_cfg : SourceConfig.t) : Adapter.t :=
  Adapter.mk (SourceConfig.name src_cfg) (Return []) (λ _, Return []) CardDataBase.image_url.

Definition instantiate (qualified : string) (src_cfg : SourceConfig.t) : result Adapter.t :=
  if String.eqb (SourceConfig.name src_cfg) "mtgjson"
  then Raise (OtherError "file not found")
  else Return (adapter_of src_cfg).
End SampleConfig.

(** ** card_scraper/state.py: [StateTracker.summary] *)

(** [d.values()].  What [summary] computes from the values are sums, so the
    order of iteration is left to the map. *)
Definition values {V} (d : gmap string V) : list V := (map_to_list d).*2.

(** [sum(1 for x in xs)] *)
Definition count {A} (xs : list A) : nat := sum_list ((λ _, 1%nat) <$> xs).

(** [img.status == status] *)
Definition has_status (status : string) (img : CardImageStatus.t) : bool :=
  String.eqb (CardImageStatus.status img) status.

(** The entry of one set in the summary. *)
Module SetSummary.
Record t := mk {
  cards : nat;
  images_ok : nat;
  images_failed : nat;
  last_scraped : option string
}.
End SetSummary.

Module Summary.
Record t := mk {
  sets_scraped : nat;
  total_cards : nat;
  images_downloaded : nat;
  images_failed : nat;
  sets : gmap string SetSummary.t
}.
End Summary.

(** [StateTracker.summary] of the current state. *)
Definition summary (st : ScrapeState.t) : Summary.t :=
  let total_cards :=
    sum_list ((λ ss, length (SetScrapeState.card_ids ss)) <$> values (ScrapeState.sets st)) in
  let total_images :=
    count (ss ← values (ScrapeState.sets st);
           List.filter (has_status "success") (values (SetScrapeState.images ss))) in
  let failed_images :=
    count (ss ← values (ScrapeState.sets st);
           List.filter (has_status "failed") (values (SetScrapeState.images ss))) in
  Summary.mk (size (ScrapeState.sets st)) total_cards total_images failed_images
    ((λ ss, SetSummary.mk
              (length (SetScrapeState.card_ids ss))
              (count (List.filter (has_status "success") (values (SetScrapeState.images ss))))
              (count (List.filter (has_status "failed") (values (SetScrapeState.images ss))))
              (SetScrapeState.last_scraped ss))
       <$> ScrapeState.sets st).

(** One when the option holds a value that passes the test, else zero. *)
Definition one_if {A} (test : A → bool) (x : option A) : nat :=
  match x with
  | Some a => if test a then 1 else 0
  | None => 0
  end.

(** * Properties *)

(** ** The scrape state *)

Lemma cards_of_mark_card_scraped (s : ScrapeState.t) (set_id card_id : string) :
  ScrapeState.cards_of (ScrapeState.mark_card_scraped s set_id card_id) set_id
  = if bool_decide (card_id ∈ ScrapeState.cards_of s set_id)
    then ScrapeState.cards_of s set_id
    else (ScrapeState.cards_of s set_id ++ [card_id])%list.
Proof.
  unfold ScrapeState.cards_of, ScrapeState.mark_card_scraped, ScrapeState.setdefault.
  cbn [ScrapeState.sets]. rewrite lookup_insert_eq.
  destruct (ScrapeState.sets s !! set_id) as [ss|]; cbn;
    case_bool_decide; reflexivity.
Qed.

Lemma mark_card_scraped_other (s : ScrapeState.t) (set_id card_id other : string) :
  other ≠ set_id →
  ScrapeState.sets (ScrapeState.mark_card_scraped s set_id card_id) !! other
  = ScrapeState.sets s !! other.
Proof.
  intros Hne. unfold ScrapeState.mark_card_scraped. cbn [ScrapeState.sets].
  by rewrite lookup_insert_ne.
Qed.

Lemma mark_card_scraped_twice (s : ScrapeState.t) (set_id card_id : string) :
  ScrapeState.mark_card_scraped (ScrapeState.mark_card_scraped s set_id card_id) set_id card_id
  = ScrapeState.mark_card_scraped s set_id card_id.
Proof.
  unfold ScrapeState.mark_card_scraped, ScrapeState.setdefault.
  cbn [ScrapeState.sets]. rewrite lookup_insert_eq. cbn [default].
  rewrite insert_insert_eq. do 2 f_equal.
  destruct (ScrapeState.sets s !! set_id) as [ss|]; cbn;
    repeat case_bool_decide; try done; set_solver.
Qed.

Lemma mark_card_scraped_times_S (n : nat) (s : ScrapeState.t) (set_id card_id : string) :
  ScrapeState.mark_card_scraped_times (S n) s set_id card_id
  = ScrapeState.mark_card_scraped s set_id card_id.
Proof.
  revert s. induction n as [|n IH]; intros s; [done|].
  change (ScrapeState.mark_card_scraped_times (S (S n)) s set_id card_id)
    with (ScrapeState.mark_card_scraped_times (S n)
            (ScrapeState.mark_card_scraped s set_id card_id) set_id card_id).
  by rewrite IH, mark_card_scraped_twice.
Qed.

Lemma count_occ_NoDup_elem (l : list string) (x : string) :
  NoDup l → x ∈ l → count_occ string_dec l x = 1.
Proof.
  intros Hnd Hin. apply NoDup_ListNoDup in Hnd.
  pose proof (proj1 (List.NoDup_count_occ string_dec l) Hnd x) as Hle.
  apply list_elem_of_In, (count_occ_In string_dec) in Hin. lia.
Qed.

Lemma count_occ_snoc_fresh (l : list string) (x : string) :
  x ∉ l → count_occ string_dec (l ++ [x])%list x = 1.
Proof.
  intros Hnin. rewrite count_occ_app.
  rewrite (proj1 (count_occ_not_In string_dec l x)).
  - cbn. by destruct (string_dec x x).
  - by rewrite <- list_elem_of_In.
Qed.

(** C9. Idempotent card marking: from a state whose card-id collection for
    set [S] has no duplicates, any positive number of calls of
    [mark_card_scraped S C] gives the state one call gives; in it the
    collection of [S] is the old one when [C] was already in it and the old
    one with [C] appended otherwise, [C] occurs in it exactly once, and the
    entries of the other sets are untouched. *)
Theorem mark_card_scraped_idempotent (s : ScrapeState.t) (S C : string) (n : nat) :
  NoDup (ScrapeState.cards_of s S) →
  let s' := ScrapeState.mark_card_scraped_times (Datatypes.S n) s S C in
  s' = ScrapeState.mark_card_scraped s S C
  ∧ ScrapeState.cards_of s' S
    = (if bool_decide (C ∈ ScrapeState.cards_of s S)
       then ScrapeState.cards_of s S
       else (ScrapeState.cards_of s S ++ [C])%list)
  ∧ count_occ string_dec (ScrapeState.cards_of s' S) C = 1
  ∧ ∀ other, other ≠ S → ScrapeState.sets s' !! other = ScrapeState.sets s !! other.
Proof.
  intros Hnd s'. subst s'. rewrite mark_card_scraped_times_S.
  split; [done|]. rewrite cards_of_mark_card_scraped.
  split; [done|]. split.
  - case_bool_decide as Hin.
    + by apply count_occ_NoDup_elem.
    + by apply count_occ_snoc_fresh.
  - intros other Hne. by apply mark_card_scraped_other.
Qed.

Lemma mark_card_scraped_idempotent_witness :
  let s := ScrapeState.mark_card_scraped ScrapeState.empty "OP-01" "OP01-001" in
  NoDup (ScrapeState.cards_of s "OP-01")
  ∧ ScrapeState.cards_of
      (ScrapeState.mark_card_scraped_times 3 s "OP-01" "OP01-002") "OP-01"
    = ["OP01-001"; "OP01-002"].
Proof.
  split.
  - vm_compute. apply NoDup_cons. split; [set_solver|apply NoDup_nil_2].
  - pose proof (mark_card_scraped_idempotent
                  (ScrapeState.mark_card_scraped ScrapeState.empty "OP-01" "OP01-001")
                  "OP-01" "OP01-002" 2) as H.
    cbv zeta in H. destruct H as (_ & -> & _).
    + vm_compute. apply NoDup_cons. split; [set_solver|apply NoDup_nil_2].
    + vm_compute. reflexivity.
Defined.

(** C10. Implicit set-entry creation: when set [S] has no entry,
    [mark_image S C ...] creates one with [last_scraped] absent, no card
    ids and the one image status, and [mark_card_scraped S C] creates one
    with [last_scraped] absent and [C] as its only card id; after
    [mark_image] with status success the card is not scraped while its
    image is downloaded. *)
Theorem mark_creates_set_entry (s : ScrapeState.t) (S C status : string)
    (path error : option string) :
  ScrapeState.sets s !! S = None →
  ScrapeState.sets (ScrapeState.mark_image s S C status path error) !! S
    = Some (SetScrapeState.mk S None [] {[C := CardImageStatus.mk C status path error]})
  ∧ ScrapeState.sets (ScrapeState.mark_card_scraped s S C) !! S
    = Some (SetScrapeState.mk S None [C] ∅)
  ∧ ScrapeState.is_card_scraped (ScrapeState.mark_image s S C status path error) S C = false
  ∧ ScrapeState.is_image_downloaded (ScrapeState.mark_image s S C "success" path error) S C
    = true.
Proof.
  intros Habsent.
  unfold ScrapeState.is_card_scraped, ScrapeState.is_image_downloaded,
    ScrapeState.mark_image, ScrapeState.mark_card_scraped, ScrapeState.setdefault.
  cbn [ScrapeState.sets]. rewrite !lookup_insert_eq, Habsent. cbn.
  rewrite lookup_insert_eq. cbn. repeat split; done.
Qed.

Lemma mark_creates_set_entry_witness :
  ScrapeState.sets ScrapeState.empty !! "OP-01" = None
  ∧ ScrapeState.is_card_scraped
      (ScrapeState.mark_image ScrapeState.empty "OP-01" "OP01-001" "success" None None)
      "OP-01" "OP01-001" = false
  ∧ ScrapeState.is_image_downloaded
      (ScrapeState.mark_image ScrapeState.empty "OP-01" "OP01-001" "success" None None)
      "OP-01" "OP01-001" = true.
Proof.
  split; [reflexivity|].
  pose proof (mark_creates_set_entry ScrapeState.empty "OP-01" "OP01-001" "success"
                None None) as H.
  destruct H as (_ & _ & Hcard & Himg); [reflexivity|].
  split; [exact Hcard|exact Himg].
Defined.

(** ** The state tracker *)

(** C3. Corrupt-state resilience, at a state file holding the JSON
    document [[]]: [raw.get] raises AttributeError, which the [except]
    clause of [_load] does not list, so the load raises instead of giving
    the empty state. A missing file and a file that is not JSON do give the
    empty state. *)
Theorem load_raises_on_array_document :
  _load (Some (Document (JArr []))) = Raise AttributeError
  ∧ _load (Some NotJson) = Return Loaded.empty
  ∧ _load None = Return Loaded.empty.
Proof. repeat split. Qed.

(** Other documents the [except] clause misses: a [sets] member or a set
    entry that is not an object. *)
Lemma load_raises_on_bad_sets_member :
  _load (Some (Document (JObj [("sets", JArr [])]))) = Raise AttributeError
  ∧ _load (Some (Document (JObj [("sets", JObj [("OP-01", JInt 1)])]))) = Raise AttributeError.
Proof. split; reflexivity. Qed.

(** An image entry without its keys raises KeyError, which is caught. *)
Lemma load_recovers_from_missing_key :
  _load (Some (Document
           (JObj [("sets", JObj [("OP-01", JObj [("images", JObj [("c", JObj [])])])])])))
  = Return Loaded.empty.
Proof. reflexivity. Qed.

Lemma fst_prod_map_id {A B} (f : A → B) (l : list (string * A)) :
  (prod_map id f <$> l).*1 = l.*1.
Proof. induction l as [|[k v] l IH]; cbn; [done|]. by rewrite IH. Qed.

(** Assigning the members of a list to a dict one after the other, when
    the keys are distinct. *)
Lemma foldl_insert_distinct {A B} (f : A → B) (l : list (string * A)) (acc : gmap string B) :
  NoDup l.*1 →
  foldl (λ m kv, <[kv.1 := f kv.2]> m) acc l
  = list_to_map (prod_map id f <$> l) ∪ acc.
Proof.
  revert acc. induction l as [|[k v] l IH]; intros acc Hnd.
  - cbn. by rewrite (left_id_L ∅ (∪)).
  - apply NoDup_cons in Hnd as [Hk Hnd]. cbn. rewrite IH by done.
    rewrite <- insert_union_l. symmetry. apply insert_union_r.
    apply not_elem_of_list_to_map_1. by rewrite fst_prod_map_id.
Qed.

Lemma foldl_insert_map_to_list {A B} (f : A → B) (m : gmap string A) :
  foldl (λ acc kv, <[kv.1 := f kv.2]> acc) ∅ (map_to_list m) = f <$> m.
Proof.
  rewrite foldl_insert_distinct by apply NoDup_fst_map_to_list.
  rewrite (right_id_L ∅ (∪)), list_to_map_fmap. by rewrite list_to_map_to_list.
Qed.

Lemma for_each_images (l : list (string * CardImageStatus.t))
    (acc : gmap string Loaded.CardImageStatus) :
  for_each _deserialize_image acc (prod_map id _serialize_image <$> l)
  = Return (foldl (λ m kv, <[kv.1 := Loaded.of_image kv.2]> m) acc l).
Proof.
  revert acc. induction l as [|[cid img] l IH]; intros acc; [done|].
  cbn [fmap list_fmap for_each foldl]. rewrite <- IH. clear IH.
  destruct img as [c st p e]; destruct p, e; reflexivity.
Qed.

Lemma deserialize_serialized_set (sets : gmap string Loaded.SetScrapeState)
    (sid : string) (ss : SetScrapeState.t) :
  _deserialize_set sets (sid, _serialize_set ss)
  = Return (<[sid := Loaded.of_set ss]> sets).
Proof.
  unfold _deserialize_set, _serialize_set.
  cbn [py_get dict_lookup String.eqb Ascii.eqb Bool.eqb default from_option id mbind
       result_bind py_items].
  rewrite for_each_images, foldl_insert_map_to_list.
  destruct ss as [i ls cs imgs]; destruct ls; reflexivity.
Qed.

Lemma for_each_sets (l : list (string * SetScrapeState.t))
    (acc : gmap string Loaded.SetScrapeState) :
  for_each _deserialize_set acc (prod_map id _serialize_set <$> l)
  = Return (foldl (λ m kv, <[kv.1 := Loaded.of_set kv.2]> m) acc l).
Proof.
  revert acc. induction l as [|[sid ss] l IH]; intros acc; [done|].
  cbn [fmap list_fmap for_each foldl prod_map fst snd id].
  rewrite deserialize_serialized_set. cbn [mbind result_bind]. apply IH.
Qed.

Lemma deserialize_serialized_state (state : ScrapeState.t) :
  _deserialize_state (_serialize_state state) = Return (Loaded.of_state state).
Proof.
  unfold _deserialize_state, _serialize_state.
  cbn [py_get dict_lookup String.eqb Ascii.eqb Bool.eqb default from_option id mbind
       result_bind py_items].
  rewrite for_each_sets, foldl_insert_map_to_list. reflexivity.
Qed.

Lemma of_opt_inj (a b : option string) : Loaded.of_opt a = Loaded.of_opt b → a = b.
Proof. destruct a, b; cbn; congruence. Qed.

Lemma of_image_inj (a b : CardImageStatus.t) : Loaded.of_image a = Loaded.of_image b → a = b.
Proof.
  destruct a, b. unfold Loaded.of_image, Loaded.of_str. cbn. intros H.
  injection H as -> -> Hp He. apply of_opt_inj in Hp, He. by subst.
Qed.

Lemma fmap_gmap_inj {A B} (f : A → B) (m1 m2 : gmap string A) :
  (∀ a b, f a = f b → a = b) → f <$> m1 = f <$> m2 → m1 = m2.
Proof.
  intros Hf Heq. apply map_eq. intros k.
  assert ((f <$> m1) !! k = (f <$> m2) !! k) as H by by rewrite Heq.
  rewrite !lookup_fmap in H.
  destruct (m1 !! k), (m2 !! k); cbn in H; try congruence.
  f_equal. apply Hf. congruence.
Qed.

Lemma of_set_inj (a b : SetScrapeState.t) : Loaded.of_set a = Loaded.of_set b → a = b.
Proof.
  destruct a as [i1 l1 c1 m1], b as [i2 l2 c2 m2].
  unfold Loaded.of_set, Loaded.of_str. cbn. intros H.
  injection H as -> Hl Hc Hm. apply of_opt_inj in Hl.
  assert (c1 = c2) as ->.
  { revert c2 Hc. induction c1 as [|x c1 IH]; intros [|y c2] Hc; cbn in Hc;
      try congruence. injection Hc as -> Hc. f_equal. by apply IH. }
  apply (fmap_gmap_inj _ _ _ of_image_inj) in Hm. by subst.
Qed.

(** Two typed states that Python holds as the same records are equal. *)
Lemma of_state_inj (a b : ScrapeState.t) : Loaded.of_state a = Loaded.of_state b → a = b.
Proof.
  destruct a as [m1], b as [m2]. unfold Loaded.of_state. cbn. intros H.
  injection H as H. apply (fmap_gmap_inj _ _ _ of_set_inj) in H. by subst.
Qed.

Lemma load_saved_file (state : ScrapeState.t) :
  _load (saved_file state) = Return (Loaded.of_state state).
Proof.
  unfold _load, saved_file. cbn [read_and_parse mbind result_bind].
  by rewrite deserialize_serialized_state.
Qed.

(** The round trip on the state of the test suite. *)
Example save_load_example :
  let st := ScrapeState.mark_image
              (ScrapeState.mark_card_scraped ScrapeState.empty "OP-01" "OP01-001")
              "OP-01" "OP01-001" "success" (Some "/img/OP01-001.jpg") None in
  _load (saved_file st) = Return (Loaded.of_state st).
Proof. apply load_saved_file. Qed.

(** C5. Serialization round-trip: loading, on a fresh tracker, the
    document [save] wrote for a state gives that state back, record for
    record: every set's id, last-scraped timestamp, card-id list and image
    statuses; and no other state is loaded from that document. *)
Theorem save_load_roundtrip (state : ScrapeState.t) :
  _load (saved_file state) = Return (Loaded.of_state state)
  ∧ ∀ other, _load (saved_file state) = Return (Loaded.of_state other) → other = state.
Proof.
  split; [apply load_saved_file|]. intros other Hother.
  rewrite load_saved_file in Hother.
  apply of_state_inj. congruence.
Qed.

(** ** The image downloader *)

Example url_extension_examples :
  _url_extension "https://optcgapi.com/media/static/Card_Images/OP01-001.jpg" = "jpg"
  ∧ _url_extension "https://example.com/a/b.PNG?size=large#top" = "png"
  ∧ _url_extension "https://example.com/v1.2/card" = "jpg"
  ∧ _url_extension "https://example.com/card.svg" = "jpg"
  ∧ _url_extension "https://example.com/card.tar.webp" = "webp".
Proof. repeat split; vm_compute; reflexivity. Qed.

Lemma try_download_failure net status_error (w : World.t) (image_url : string) (dest : Path)
    (exc : string) :
  failure_of status_error image_url (net (World.requests w) image_url) = Some exc →
  try_download net status_error w image_url dest
  = (World.mk (World.disk w) (S (World.requests w)) (World.effects w ++ [Get image_url]),
     Some exc).
Proof.
  unfold failure_of, try_download. intros H.
  destruct (net (World.requests w) image_url) as [e|status content].
  - by injection H as ->.
  - destruct ((200 <=? status)%nat && (status <? 300)%nat); [done|]. by injection H as ->.
Qed.

(** C6. Existence-based skip: for a non-empty URL, when the destination
    derived from the card's set id, its id and the extension guessed from
    the URL is on the disk, the download returns success and leaves the
    world as it was: no request, no effect, the same files. *)
Theorem download_skips_existing net status_error (d : ImageDownloader.t) (w : World.t)
    (card : CardData.t) (image_url content : string) :
  image_url ≠ "" →
  World.disk w !! ImageDownloader.image_path d (CardData.set_id card) (CardData.id card)
                    (_url_extension image_url) = Some content →
  download_card_image net status_error d w card image_url = (w, Return (true, None)).
Proof.
  intros Hurl Hdest. unfold download_card_image.
  apply String.eqb_neq in Hurl. rewrite Hurl, Hdest.
  rewrite bool_decide_eq_true_2; [done|]. by eexists.
Qed.

Lemma download_skips_existing_witness :
  let d := ImageDownloader.new "out" in
  let card := CardData.mk "OP01-001" "Zoro" "character" None None None [] "R" [] ""
                          None "https://example.com/OP01-001.png" "OP-01" "optcg-api" in
  let w := World.mk {[ ["out"; "OP-01"; "cards"; "OP01-001.png"] := "bytes" ]} 0 [] in
  download_card_image (λ _ _, HttpResponse 200 "new") (λ _ _, "HTTP error") d w card
    "https://example.com/OP01-001.png" = (w, Return (true, None)).
Proof.
  cbv zeta.
  apply (download_skips_existing _ _ _ _ _ _ "bytes"); [discriminate|].
  vm_compute. reflexivity.
Defined.

(** C4. Retry exhaustion: for a downloader with the default retry count,
    a non-empty URL and a destination that is not on the disk, when the
    three attempts fail (transport error or a status that is not 2xx) the
    download makes exactly three requests, sleeps
    [BACKOFF_BASE * 2 ^ (attempt - 1)] seconds after the first and after the
    second (1 and 2 seconds) and not after the third, writes nothing, and
    returns failure with a message that names the three attempts. *)
Theorem download_retry_exhaustion net status_error (output_dir : string) (w : World.t)
    (card : CardData.t) (image_url e1 e2 e3 : string) :
  let d := ImageDownloader.new output_dir in
  let dest := ImageDownloader.image_path d (CardData.set_id card) (CardData.id card)
                (_url_extension image_url) in
  let r := World.requests w in
  image_url ≠ "" →
  World.disk w !! dest = None →
  failure_of status_error image_url (net r image_url) = Some e1 →
  failure_of status_error image_url (net (S r) image_url) = Some e2 →
  failure_of status_error image_url (net (S (S r)) image_url) = Some e3 →
  download_card_image net status_error d w card image_url
  = (World.mk (World.disk w) (r + 3)
       (World.effects w
          ++ [Mkdir (removelast dest);
              Get image_url; Sleep (BACKOFF_BASE * 2 ^ (1 - 1));
              Get image_url; Sleep (BACKOFF_BASE * 2 ^ (2 - 1));
              Get image_url]),
     Return (false, Some ("Failed after 3 attempts: " ++ e3)))
  ∧ (BACKOFF_BASE * 2 ^ (1 - 1) = 1)%Z ∧ (BACKOFF_BASE * 2 ^ (2 - 1) = 2)%Z.
Proof.
  intros d dest r Hurl Hdest H1 H2 H3. split; [|split; reflexivity].
  unfold download_card_image. apply String.eqb_neq in Hurl. rewrite Hurl.
  fold dest. rewrite Hdest. rewrite bool_decide_eq_false_2.
  2:{ intros [x Hx]. discriminate. }
  cbn [ImageDownloader._max_retries d ImageDownloader.new MAX_RETRIES seq retry_loop].
  rewrite (try_download_failure _ _ _ _ _ e1) by exact H1.
  change (backoff_delay 1) with (Return (BACKOFF_BASE * 2 ^ (1 - 1))%Z : result Z).
  cbn [Nat.ltb Nat.leb World.emit World.disk World.requests World.effects].
  rewrite (try_download_failure _ _ _ _ _ e2) by exact H2.
  change (backoff_delay 2) with (Return (BACKOFF_BASE * 2 ^ (2 - 1))%Z : result Z).
  cbn [Nat.ltb Nat.leb World.emit World.disk World.requests World.effects].
  rewrite (try_download_failure _ _ _ _ _ e3) by exact H3.
  cbn [Nat.ltb Nat.leb World.emit World.disk World.requests World.effects].
  repeat rewrite <- app_assoc. cbn [app].
  replace (r + 3) with (S (S (S r))) by lia. reflexivity.
Qed.

Lemma download_retry_exhaustion_witness :
  let net := λ (_ : nat) (_ : string), HttpResponse 500 "" in
  let status_error := λ (_ : nat) (_ : string), "Server error '500 Internal Server Error'" in
  let card := CardData.mk "OP01-001" "Zoro" "character" None None None [] "R" [] ""
                          None "https://example.com/OP01-001.png" "OP-01" "optcg-api" in
  download_card_image net status_error (ImageDownloader.new "out") (World.mk ∅ 0 []) card
    "https://example.com/OP01-001.png"
  = (World.mk ∅ 3
       [Mkdir ["out"; "OP-01"; "cards"];
        Get "https://example.com/OP01-001.png"; Sleep 1;
        Get "https://example.com/OP01-001.png"; Sleep 2;
        Get "https://example.com/OP01-001.png"],
     Return (false, Some "Failed after 3 attempts: Server error '500 Internal Server Error'")).
Proof.
  cbv zeta.
  pose proof (download_retry_exhaustion
                (λ _ _, HttpResponse 500 "")
                (λ _ _, "Server error '500 Internal Server Error'")
                "out" (World.mk ∅ 0 [])
                (CardData.mk "OP01-001" "Zoro" "character" None None None [] "R" [] ""
                             None "https://example.com/OP01-001.png" "OP-01" "optcg-api")
                "https://example.com/OP01-001.png"
                "Server error '500 Internal Server Error'"
                "Server error '500 Internal Server Error'"
                "Server error '500 Internal Server Error'") as H.
  cbv zeta in H.
  destruct H as [H _]; [discriminate | reflexivity | reflexivity | reflexivity
                       | reflexivity |].
  rewrite H. vm_compute. reflexivity.
Defined.

(** ** First occurrences *)

Section FirstOccurrences.
Context {A : Type} (key : A → string).

Lemma first_occurrences_after_sublist (earlier l : list A) :
  sublist (first_occurrences_after key earlier l) l.
Proof.
  revert earlier. induction l as [|x l IH]; intros earlier; cbn; [constructor|].
  case_bool_decide; [apply sublist_cons | apply sublist_skip]; apply IH.
Qed.

Lemma first_occurrences_after_keys (earlier l : list A) (x : A) :
  x ∈ first_occurrences_after key earlier l → key x ∉ key <$> earlier.
Proof.
  revert earlier. induction l as [|y l IH]; intros earlier; cbn; [set_solver|].
  case_bool_decide as Hy.
  - intros Hx. apply IH in Hx. rewrite fmap_app in Hx. set_solver.
  - intros [->|Hx]%elem_of_cons; [done|].
    apply IH in Hx. rewrite fmap_app in Hx. set_solver.
Qed.

Lemma first_occurrences_after_NoDup (earlier l : list A) :
  NoDup (key <$> first_occurrences_after key earlier l).
Proof.
  revert earlier. induction l as [|x l IH]; intros earlier; cbn; [constructor|].
  case_bool_decide as Hx; [apply IH|].
  cbn. apply NoDup_cons. split; [|apply IH].
  intros (y & Hk & Hy)%list_elem_of_fmap.
  apply first_occurrences_after_keys in Hy. rewrite fmap_app in Hy.
  cbn in Hy. rewrite Hk in Hy. set_solver.
Qed.

(** A record no earlier record shares its key with is kept. *)
Lemma first_occurrences_after_keeps (earlier l1 l2 : list A) (x : A) :
  key x ∉ key <$> earlier → key x ∉ key <$> l1 →
  x ∈ first_occurrences_after key earlier (l1 ++ x :: l2).
Proof.
  revert earlier. induction l1 as [|y l1 IH]; intros earlier Hearlier Hl1; cbn.
  - rewrite bool_decide_eq_false_2 by done. set_solver.
  - assert (x ∈ first_occurrences_after key (earlier ++ [y]) (l1 ++ x :: l2)) as H.
    { apply IH; [rewrite fmap_app|]; set_solver. }
    case_bool_decide; set_solver.
Qed.

Lemma first_occurrences_NoDup (l : list A) : NoDup (key <$> first_occurrences key l).
Proof. apply first_occurrences_after_NoDup. Qed.

Lemma first_occurrences_sublist (l : list A) : sublist (first_occurrences key l) l.
Proof. apply first_occurrences_after_sublist. Qed.

Lemma first_occurrences_keeps (l1 l2 : list A) (x : A) :
  key x ∉ key <$> l1 → x ∈ first_occurrences key (l1 ++ x :: l2).
Proof. intros H. apply first_occurrences_after_keeps; [set_solver|done]. Qed.
End FirstOccurrences.

(** ** The card fallback chain *)

Lemma unique_cards_first_occurrences (seen : gset string)
    (unique earlier cards : list CardDataBase.t) :
  (∀ k, k ∈ seen ↔ k ∈ CardDataBase.id <$> earlier) →
  unique_cards seen unique cards
  = (unique ++ first_occurrences_after CardDataBase.id earlier cards)%list.
Proof.
  revert seen unique earlier.
  induction cards as [|card rest IH]; intros seen unique earlier Hseen; cbn.
  - by rewrite app_nil_r.
  - rewrite (bool_decide_ext _ (CardDataBase.id card ∈ CardDataBase.id <$> earlier))
      by apply Hseen.
    case_bool_decide as Hin.
    + apply IH. intros k. rewrite fmap_app, elem_of_app, Hseen. set_solver.
    + rewrite (IH _ _ (earlier ++ [card])%list).
      * by rewrite <- app_assoc.
      * intros k. rewrite fmap_app, elem_of_app, elem_of_union, Hseen. set_solver.
Qed.

Lemma unique_cards_spec (cards : list CardDataBase.t) :
  unique_cards ∅ [] cards = first_occurrences CardDataBase.id cards.
Proof. rewrite (unique_cards_first_occurrences ∅ [] []); [done|]. set_solver. Qed.

(** The acceptance example of the design: the first adapter returns
    X, X, Y and the second Z. *)
Example fetch_cards_acceptance :
  let card i := CardDataBase.mk i i "" "OP-01" "a1" "" in
  let a1 := Adapter.mk "a1" (Return []) (λ _, Return [card "X"; card "X"; card "Y"])
                       CardDataBase.image_url in
  let a2 := Adapter.mk "a2" (Return []) (λ _, Return [card "Z"]) CardDataBase.image_url in
  _fetch_cards [a1; a2] "OP-01" false = ([card "X"; card "Y"], [GetCards "a1" "OP-01"])
  ∧ _fetch_cards [Adapter.mk "a0" (Return []) (λ _, Raise (OtherError "down"))
                             CardDataBase.image_url; a2] "OP-01" false
    = ([card "Z"], [GetCards "a0" "OP-01"; GetCards "a2" "OP-01"]).
Proof. split; vm_compute; reflexivity. Qed.

(** C1. Card resolver fallback: either some adapter is the first, in
    priority order, to return a non-empty list, and then the result is that
    list with only the first occurrence of each card id kept, in order, and
    the adapters called are exactly those up to and including it; or every
    adapter returns an empty list or raises, and then all are called and the
    result is the empty list. *)
Theorem fetch_cards_fallback (adapters : list Adapter.t) (set_id : string) (force : bool) :
  (∃ before winner after cards,
      adapters = (before ++ winner :: after)%list
      ∧ Forall (λ a, yields_nothing a set_id) before
      ∧ Adapter.get_cards winner set_id = Return cards
      ∧ cards ≠ []
      ∧ _fetch_cards adapters set_id force
        = (first_occurrences CardDataBase.id cards,
           (λ a, GetCards (Adapter.name a) set_id) <$> (before ++ [winner])%list)
      ∧ NoDup (CardDataBase.id <$> (_fetch_cards adapters set_id force).1))
  ∨ (Forall (λ a, yields_nothing a set_id) adapters
     ∧ _fetch_cards adapters set_id force
       = ([], (λ a, GetCards (Adapter.name a) set_id) <$> adapters)).
Proof.
  induction adapters as [|a rest IH].
  - right. split; [constructor|done].
  - cbn [_fetch_cards].
    destruct (Adapter.get_cards a set_id) as [[|c cs]|e] eqn:Hget.
    + assert (yields_nothing a set_id) as Ha by (by left).
      destruct IH as [(before & winner & after & cards & -> & Hb & Hw & Hne & Hres & Hnd)
                     |[Hall Hres]].
      * left. exists (a :: before), winner, after, cards.
        rewrite Hres in *. cbn in *. repeat split; try done. by constructor.
      * right. rewrite Hres. split; [by constructor|done].
    + left. exists [], a, rest, (c :: cs).
      rewrite unique_cards_spec. cbn. repeat split; try done.
      apply (first_occurrences_NoDup CardDataBase.id (c :: cs)).
    + assert (yields_nothing a set_id) as Ha by (right; by eexists).
      destruct IH as [(before & winner & after & cards & -> & Hb & Hw & Hne & Hres & Hnd)
                     |[Hall Hres]].
      * left. exists (a :: before), winner, after, cards.
        rewrite Hres in *. cbn in *. repeat split; try done. by constructor.
      * right. rewrite Hres. split; [by constructor|done].
Qed.

(** ** Set discovery *)

Lemma first_occurrences_after_ext {A} (key : A → string) (e1 e2 l : list A) :
  (∀ k, k ∈ key <$> e1 ↔ k ∈ key <$> e2) →
  first_occurrences_after key e1 l = first_occurrences_after key e2 l.
Proof.
  revert e1 e2. induction l as [|x l IH]; intros e1 e2 Hext; cbn; [done|].
  rewrite (bool_decide_ext _ (key x ∈ key <$> e2)) by apply Hext.
  rewrite (IH (e1 ++ [x])%list (e2 ++ [x])%list); [done|].
  intros k. rewrite !fmap_app, !elem_of_app, Hext. done.
Qed.

Lemma first_occurrences_after_app {A} (key : A → string) (earlier l1 l2 : list A) :
  first_occurrences_after key earlier (l1 ++ l2)
  = (first_occurrences_after key earlier l1
     ++ first_occurrences_after key (earlier ++ l1) l2)%list.
Proof.
  revert earlier. induction l1 as [|x l1 IH]; intros earlier; cbn.
  - by rewrite app_nil_r.
  - rewrite IH, <- app_assoc. cbn. by case_bool_decide.
Qed.

Lemma dict_set_absent {V} (key : string) (value : V) (d : list (string * V)) :
  key ∉ d.*1 → dict_set key value d = (d ++ [(key, value)])%list.
Proof.
  induction d as [|[k v] d IH]; cbn; [done|]. intros Hnot.
  destruct (String.eqb_spec k key) as [->|Hne]; [set_solver|].
  rewrite IH; [done|set_solver].
Qed.

Lemma add_if_absent_values (d : list (string * SetInfo.t)) (s : SetInfo.t) :
  keyed_by_id d →
  keyed_by_id (add_if_absent d s)
  ∧ (add_if_absent d s).*2
    = (d.*2 ++ first_occurrences_after SetInfo.id d.*2 [s])%list.
Proof.
  unfold keyed_by_id, add_if_absent, dict_has. intros Hd. cbn.
  rewrite <- Hd. case_bool_decide as Hin.
  - rewrite app_nil_r. done.
  - rewrite dict_set_absent by done. rewrite !fmap_app, Hd. done.
Qed.

Lemma foldl_add_if_absent_values (l : list SetInfo.t) (d : list (string * SetInfo.t)) :
  keyed_by_id d →
  keyed_by_id (foldl add_if_absent d l)
  ∧ (foldl add_if_absent d l).*2
    = (d.*2 ++ first_occurrences_after SetInfo.id d.*2 l)%list.
Proof.
  revert d. induction l as [|s l IH]; intros d Hd; cbn [foldl].
  - cbn. by rewrite app_nil_r.
  - destruct (add_if_absent_values d s Hd) as [Hk Hv].
    destruct (IH _ Hk) as [Hk' Hv']. split; [done|].
    rewrite Hv', Hv. cbn. case_bool_decide as Hin.
    + rewrite app_nil_r. f_equal. apply first_occurrences_after_ext.
      intros k. rewrite fmap_app, elem_of_app. set_solver.
    + by rewrite <- app_assoc.
Qed.

Lemma merge_adapters_spec (adapters : list Adapter.t) (d : list (string * SetInfo.t)) :
  merge_adapters adapters d
  = (foldl add_if_absent d (returned_sets adapters),
     (λ a, ListSets (Adapter.name a)) <$> adapters).
Proof.
  revert d. induction adapters as [|a rest IH]; intros d; [done|].
  cbn [merge_adapters]. rewrite IH. unfold returned_sets. cbn [fmap list_fmap concat].
  rewrite foldl_app. by destruct (Adapter.list_sets a).
Qed.

Lemma str_ltb_lt (a b : string) : str_ltb a b = true ↔ str_lt a b.
Proof. unfold str_ltb, str_lt. destruct (String_as_OT.compare a b); split; congruence. Qed.

Lemma str_lt_trans (a b c : string) : str_lt a b → str_lt b c → str_lt a c.
Proof. apply String_as_OT.lt_strorder. Qed.

Lemma str_lt_trichotomy (a b : string) : str_lt a b ∨ a = b ∨ str_lt b a.
Proof.
  unfold str_lt. destruct (String_as_OT.compare_spec a b) as [H|H|H]; auto.
Qed.

Lemma insert_by_id_perm (s : SetInfo.t) (l : list SetInfo.t) : insert_by_id s l ≡ₚ s :: l.
Proof.
  induction l as [|x l IH]; cbn; [done|].
  destruct (str_ltb (SetInfo.id x) (SetInfo.id s)); [|done].
  rewrite IH. apply Permutation_swap.
Qed.

Lemma sorted_by_id_perm (l : list SetInfo.t) : sorted_by_id l ≡ₚ l.
Proof.
  induction l as [|x l IH]; cbn; [done|].
  fold (sorted_by_id l). by rewrite insert_by_id_perm, IH.
Qed.

Lemma insert_by_id_sorted (s : SetInfo.t) (l : list SetInfo.t) :
  StronglySorted id_lt l → SetInfo.id s ∉ SetInfo.id <$> l →
  StronglySorted id_lt (insert_by_id s l).
Proof.
  induction l as [|x l IH]; intros Hs Hfresh; cbn.
  - repeat constructor.
  - apply StronglySorted_inv in Hs as [Hl Hx].
    destruct (str_ltb (SetInfo.id x) (SetInfo.id s)) eqn:Hlt.
    + constructor; [apply IH; [done|set_solver]|].
      rewrite insert_by_id_perm. constructor; [by apply str_ltb_lt|done].
    + assert (id_lt s x) as Hsx.
      { destruct (str_lt_trichotomy (SetInfo.id s) (SetInfo.id x)) as [H|[H|H]]; [done|..].
        - set_solver.
        - apply str_ltb_lt in H. congruence. }
      constructor; [by constructor|]. constructor; [done|].
      eapply Forall_impl; [exact Hx|]. intros z Hz. by eapply str_lt_trans.
Qed.

Lemma sorted_by_id_sorted (l : list SetInfo.t) :
  NoDup (SetInfo.id <$> l) → StronglySorted id_lt (sorted_by_id l).
Proof.
  induction l as [|x l IH]; cbn; [constructor|].
  intros [Hx Hl]%NoDup_cons. fold (sorted_by_id l).
  apply insert_by_id_sorted; [by apply IH|]. by rewrite sorted_by_id_perm.
Qed.

(** For every game but onepiece discovery returns the merge. *)
Lemma discover_sets_spec (config : AppConfig.t) (adapters : list Adapter.t) :
  AppConfig.game config ≠ "onepiece" →
  _discover_sets config adapters
  = (Return (sorted_by_id (first_occurrences SetInfo.id (returned_sets adapters))),
     (λ a, ListSets (Adapter.name a)) <$> adapters).
Proof.
  intros Hgame. unfold _discover_sets, add_synthetic_sets.
  rewrite merge_adapters_spec. apply String.eqb_neq in Hgame. rewrite Hgame. cbn.
  by destruct (foldl_add_if_absent_values (returned_sets adapters) []) as [_ ->].
Qed.

(** For onepiece every adapter is asked, and then the read of
    [include_promos] raises. *)
Lemma discover_sets_onepiece (config : AppConfig.t) (adapters : list Adapter.t) :
  AppConfig.game config = "onepiece" →
  _discover_sets config adapters
  = (Raise AttributeError, (λ a, ListSets (Adapter.name a)) <$> adapters).
Proof.
  intros Hgame. unfold _discover_sets, add_synthetic_sets, read_include_promos.
  rewrite merge_adapters_spec, Hgame. reflexivity.
Qed.

(** What discovery asks of the adapters does not depend on the game. *)
Lemma discover_sets_calls (config : AppConfig.t) (adapters : list Adapter.t) :
  (_discover_sets config adapters).2 = (λ a, ListSets (Adapter.name a)) <$> adapters.
Proof.
  destruct (decide (AppConfig.game config = "onepiece")) as [Hgame|Hgame].
  - by rewrite discover_sets_onepiece.
  - by rewrite discover_sets_spec.
Qed.

(** Three adapters, the second one down: for mtg the first record of OP-01
    wins; for onepiece, with or without starter decks, discovery raises. *)
Example discover_sets_example :
  let a1 := Adapter.mk "a1" (Return [SetInfo.mk "OP-02" "Paramount War" "booster";
                                     SetInfo.mk "OP-01" "Romance Dawn" "booster"])
                       (λ _, Return []) CardDataBase.image_url in
  let a2 := Adapter.mk "a2" (Raise (OtherError "timeout")) (λ _, Return [])
                       CardDataBase.image_url in
  let a3 := Adapter.mk "a3" (Return [SetInfo.mk "OP-01" "romance dawn (alt)" "extra";
                                     SetInfo.mk "EB-01" "Memorial" "extra"])
                       (λ _, Return []) CardDataBase.image_url in
  _discover_sets (AppConfig.mk "mtg" true None "out" "1") [a1; a2; a3]
  = (Return [SetInfo.mk "EB-01" "Memorial" "extra";
             SetInfo.mk "OP-01" "Romance Dawn" "booster";
             SetInfo.mk "OP-02" "Paramount War" "booster"],
     [ListSets "a1"; ListSets "a2"; ListSets "a3"])
  ∧ _discover_sets (AppConfig.mk "onepiece" false None "out" "1") [a1; a2; a3]
    = (Raise AttributeError, [ListSets "a1"; ListSets "a2"; ListSets "a3"])
  ∧ _discover_sets (AppConfig.mk "onepiece" true None "out" "1") [a1; a2; a3]
    = (Raise AttributeError, [ListSets "a1"; ListSets "a2"; ListSets "a3"]).
Proof. repeat split; vm_compute; reflexivity. Qed.

(** The merge of the set resolver, for the games where discovery returns:
    the set listing of every adapter is called, in priority order, whether
    or not an earlier one raised; the sets returned are, up to order, the
    first occurrences by id among the sets the adapters returned (a raising
    adapter returning none); so the first record of every returned id is in
    the result and no id is there twice; and the result is in strictly
    ascending order of id. *)
Lemma discover_sets_merges_for_other_games (config : AppConfig.t)
    (adapters : list Adapter.t) :
  AppConfig.game config ≠ "onepiece" →
  ∃ sets,
    _discover_sets config adapters
    = (Return sets, (λ a, ListSets (Adapter.name a)) <$> adapters)
    ∧ sets ≡ₚ first_occurrences SetInfo.id (returned_sets adapters)
    ∧ (∀ l1 s l2, returned_sets adapters = (l1 ++ s :: l2)%list →
                  SetInfo.id s ∉ SetInfo.id <$> l1 → s ∈ sets)
    ∧ NoDup (SetInfo.id <$> sets)
    ∧ StronglySorted id_lt sets.
Proof.
  intros Hgame. eexists. split; [by apply discover_sets_spec|].
  pose proof (first_occurrences_NoDup SetInfo.id (returned_sets adapters)) as Hnd.
  split; [apply sorted_by_id_perm|]. split; [|split].
  - intros l1 s l2 Hret Hfresh. rewrite sorted_by_id_perm, Hret.
    by apply first_occurrences_keeps.
  - by rewrite sorted_by_id_perm.
  - by apply sorted_by_id_sorted.
Qed.

(** C7, where the code departs from it. For the game onepiece discovery
    returns no merged list: after the set listing of every adapter was
    called, in priority order, the read of [scrape_cfg.include_promos]
    raises AttributeError, whatever the adapters returned and whatever the
    configuration says about starter decks. *)
Theorem discover_sets_raises_for_onepiece (config : AppConfig.t)
    (adapters : list Adapter.t) :
  AppConfig.game config = "onepiece" →
  _discover_sets config adapters
  = (Raise AttributeError, (λ a, ListSets (Adapter.name a)) <$> adapters).
Proof.
  intros Hgame. unfold _discover_sets.
  destruct (merge_adapters adapters []) as [merged calls] eqn:Hmerge.
  rewrite merge_adapters_spec in Hmerge. injection Hmerge as _ <-.
  unfold add_synthetic_sets. rewrite Hgame.
  replace ("onepiece" =? "onepiece") with true by reflexivity.
  unfold read_include_promos. reflexivity.
Qed.

Lemma discover_sets_raises_for_onepiece_witness :
  _discover_sets (AppConfig.mk "onepiece" true None "./output/" "1.0")
    [Adapter.mk "optcg-api" (Return [SetInfo.mk "OP-01" "Romance Dawn" "booster"])
                (λ _, Return []) CardDataBase.image_url]
  = (Raise AttributeError, [ListSets "optcg-api"]).
Proof.
  by rewrite discover_sets_raises_for_onepiece.
Defined.

(** ** The download stage *)

Lemma image_status_mark_image (s : ScrapeState.t) (set_id card_id status : string)
    (path error : option string) (other : string) :
  image_status (ScrapeState.mark_image s set_id card_id status path error) set_id other
  = if decide (card_id = other) then Some (CardImageStatus.mk card_id status path error)
    else image_status s set_id other.
Proof.
  unfold image_status, ScrapeState.mark_image, ScrapeState.setdefault.
  cbn [ScrapeState.sets]. rewrite lookup_insert_eq. cbn.
  case_decide as Heq.
  - subst. by rewrite lookup_insert_eq.
  - rewrite lookup_insert_ne by done.
    by destruct (ScrapeState.sets s !! set_id).
Qed.



Lemma is_image_downloaded_status (s : ScrapeState.t) (set_id card_id : string) :
  ScrapeState.is_image_downloaded s set_id card_id
  = match image_status s set_id card_id with
    | Some img => String.eqb (CardImageStatus.status img) "success"
    | None => false
    end.
Proof.
  unfold ScrapeState.is_image_downloaded, image_status.
  by destruct (ScrapeState.sets s !! set_id).
Qed.

(** *** Reading the tracker's state *)

Lemma with_tracker_same {Net} (w : Pipeline Net) : with_tracker (tracker w) w = w.
Proof. by destruct w. Qed.

Lemma emit_emit {Net} (l1 l2 : list event) (w : Pipeline Net) :
  emit l2 (emit l1 w) = emit (l1 ++ l2) w.
Proof. unfold emit. cbn [tracker disk network clock trace]. by rewrite app_assoc. Qed.

Lemma emit_nil {Net} (w : Pipeline Net) : emit [] w = w.
Proof. unfold emit. rewrite app_nil_r. by destruct w. Qed.

Lemma with_tracker_emit {Net} (t : StateTracker.t) (l : list event) (w : Pipeline Net) :
  with_tracker t (emit l w) = emit l (with_tracker t w).
Proof. reflexivity. Qed.

Lemma tracker_emit {Net} (l : list event) (w : Pipeline Net) : tracker (emit l w) = tracker w.
Proof. reflexivity. Qed.

(** A state the tracker holds is read as it is. *)
Lemma read_state_held {Net} (w : Pipeline Net) (st : ScrapeState.t) :
  held w = Some st → read_state w = (w, Done st).
Proof.
  unfold held, read_state, StateTracker.state. intros ->. by rewrite with_tracker_same.
Qed.

(** A read that gives a state leaves the tracker holding it, and changes
    nothing else. *)
Lemma read_state_done {Net} (w w' : Pipeline Net) (st : ScrapeState.t) :
  read_state w = (w', Done st) →
  held w' = Some st ∧ w' = with_tracker (StateTracker.hold st (tracker w)) w.
Proof.
  unfold read_state, StateTracker.state, held, StateTracker.hold.
  destruct (StateTracker._state (tracker w)) as [st0|] eqn:Hheld.
  - intros [= <- <-]. rewrite with_tracker_same. split; [done|].
    destruct w as [[]]; cbn in *. by subst.
  - destruct (_load _) as [loaded|e]; [|done].
    destruct (Typed.to_state loaded) as [st0|]; [|done].
    by intros [= <- <-].
Qed.

(** A read that does not give a state changes nothing. *)
Lemma read_state_fails {Net} (w : Pipeline Net) :
  (read_state w).2 = Untyped ∨ (∃ e, (read_state w).2 = Raised e) → (read_state w).1 = w.
Proof.
  unfold read_state. destruct (StateTracker.state (tracker w)) as [[t st]|e|]; cbn; [|done..].
  intros [?|[? ?]]; done.
Qed.

Lemma read_state_cases {Net} (w : Pipeline Net) :
  (∃ st, read_state w = (with_tracker (StateTracker.hold st (tracker w)) w, Done st))
  ∨ (∃ e, read_state w = (w, Raised e))
  ∨ read_state w = (w, Untyped).
Proof.
  destruct (read_state w) as [w' [st|e|]] eqn:Hread.
  - left. exists st. by destruct (read_state_done _ _ _ Hread) as [_ ->].
  - right. left. exists e. f_equal.
    rewrite <- (read_state_fails w); rewrite Hread; [done|right; by eexists].
  - right. right. f_equal.
    rewrite <- (read_state_fails w); rewrite Hread; [done|by left].
Qed.

(** The first read of a tracker without a state file gives the empty
    state. *)
Lemma read_state_no_file {Net} (w : Pipeline Net) :
  tracker w = StateTracker.new None →
  read_state w = (hold ScrapeState.empty w, Done ScrapeState.empty).
Proof.
  unfold read_state, hold. intros ->. vm_compute StateTracker.state. reflexivity.
Qed.

(** *** One round of the download loop *)

(** The round on a state the tracker holds. *)
Lemma download_set_held (Net : Type)
    (download_batch : Net → FS → list (CardDataBase.t * string) → Net * FS * (nat * nat))
    (adapters : list Adapter.t) (d : ImageDownloader.t) (force : bool)
    (w : Pipeline Net) (totals : nat * nat) (set_id : string)
    (cards : list CardDataBase.t) (st : ScrapeState.t) :
  held w = Some st →
  download_set Net download_batch adapters d force w totals (set_id, cards)
  = match pending st force set_id cards with
    | [] => (w, Done totals)
    | (_ :: _) as to_download =>
        let jobs := (λ c, (c, _get_best_image_url adapters c)) <$> to_download in
        let out := download_batch (network w) (disk w) jobs in
        (mkPipeline
           (StateTracker.hold (foldl (record_image d out.1.2 set_id) st to_download)
                              (tracker w))
           out.1.2 out.1.1 (clock w) (trace w ++ [DownloadBatch set_id jobs]),
         Done (totals.1 + out.2.1, totals.2 + out.2.2))
    end.
Proof.
  intros Hheld. unfold download_set, to_download. destruct totals as [total_ok total_fail].
  assert (and_then
            (if force then (w, Done cards)
             else match cards with
                  | [] => (w, Done [])
                  | _ :: _ =>
                      and_then (read_state w)
                        (λ w st, (w, Done (pending st force set_id cards)))
                  end)
          = and_then (w, Done (pending st force set_id cards))) as ->.
  { destruct force; [done|]. destruct cards as [|c cards]; [done|].
    by rewrite (read_state_held w st Hheld). }
  cbn [and_then].
  destruct (pending st force set_id cards) as [|c rest]; [done|].
  destruct (download_batch _ _ _) as [[network' files] [ok fail]]. cbn [fst snd].
  rewrite (read_state_held _ st) by exact Hheld. reflexivity.
Qed.



(** ** The pipeline *)

Lemma filter_none {A} (f : A → bool) (l : list A) :
  (∀ x, x ∈ l → f x = false) → List.filter f l = [].
Proof.
  induction l as [|x l IH]; intros Hf; cbn; [done|].
  rewrite Hf by apply list_elem_of_here.
  apply IH. intros y Hy. apply Hf. by apply list_elem_of_further.
Qed.

(** When discovery finds no set at all the run stops there, without a use
    of the tracker's state. *)
Lemma run_no_sets_returns_early (Net : Type)
    (download_batch : Net → FS → list (CardDataBase.t * string) → Net * FS * (nat * nat))
    (now : nat → string) (config : AppConfig.t) (adapters : list Adapter.t)
    (d : ImageDownloader.t) (force : bool) (set_filter : option (list string))
    (w0 : Pipeline Net) :
  (_discover_sets config adapters).1 = Return [] →
  run Net download_batch now config adapters d force set_filter w0
  = (emit ([Print (MsgDiscovering (AppConfig.game config))]
             ++ (_discover_sets config adapters).2 ++ [Print MsgNoSets])
          (after_force force w0),
     Done tt).
Proof.
  unfold run, emit.
  destruct (_discover_sets config adapters) as [discovered calls]. cbn [fst snd].
  intros ->. cbn. by rewrite <- !app_assoc.
Qed.

(** When discovery raises, so does the run, right after the adapters were
    asked. *)
Lemma run_discovery_raises (Net : Type)
    (download_batch : Net → FS → list (CardDataBase.t * string) → Net * FS * (nat * nat))
    (now : nat → string) (config : AppConfig.t) (adapters : list Adapter.t)
    (d : ImageDownloader.t) (force : bool) (set_filter : option (list string))
    (w0 : Pipeline Net) (e : exn) :
  (_discover_sets config adapters).1 = Raise e →
  run Net download_batch now config adapters d force set_filter w0
  = (emit ([Print (MsgDiscovering (AppConfig.game config))]
             ++ (_discover_sets config adapters).2)
          (after_force force w0),
     Raised e).
Proof.
  unfold run, emit.
  destruct (_discover_sets config adapters) as [discovered calls]. cbn [fst snd].
  intros ->. cbn. by rewrite <- !app_assoc.
Qed.

(** The run when the allowlist filter leaves none of the discovered sets:
    for every game with manifest generators and every state the tracker
    gives, the run reports the empty filtered list, fetches and downloads
    nothing, emits the root manifest with no sets, saves the state and
    reports completion. *)
Lemma run_empty_filter_continues (Net : Type)
    (download_batch : Net → FS → list (CardDataBase.t * string) → Net * FS * (nat * nat))
    (now : nat → string) (config : AppConfig.t) (adapters : list Adapter.t)
    (d : ImageDownloader.t) (force : bool) (set_filter : option (list string))
    (w0 : Pipeline Net) (discovered : list SetInfo.t) (filter_ids : list string)
    (t : StateTracker.t) (st : ScrapeState.t) :
  let w := after_force force w0 in
  (_discover_sets config adapters).1 = Return discovered →
  discovered ≠ [] →
  py_or set_filter (AppConfig.set_filter config) = Some filter_ids →
  filter_ids ≠ [] →
  (∀ s, s ∈ discovered → SetInfo.id s ∉ filter_ids) →
  _get_manifest_generators (AppConfig.game config) = Return tt →
  StateTracker.state (tracker w) = Done (t, st) →
  run Net download_batch now config adapters d force set_filter w0
  = (emit ([Print (MsgDiscovering (AppConfig.game config))]
             ++ (_discover_sets config adapters).2
             ++ [Print (MsgFiltered 0 []); Print MsgFetching; Print (MsgFetched 0 0);
                 Print MsgDownloading; Print (MsgImages 0 0); Print MsgGenerating;
                 GenRoot []; SaveState st; Print MsgComplete])
          (with_tracker (StateTracker.mk (Some st) (saved_file st)) w),
     Done tt).
Proof.
  intros w. subst w. unfold run.
  destruct (_discover_sets config adapters) as [found calls]. cbn [fst snd].
  intros -> Hsome Hor Hids Hnone Hgen Hstate.
  destruct discovered as [|s0 rest]; [done|].
  rewrite Hor. destruct filter_ids as [|f0 fs]; [done|].
  unfold apply_filter, filter_message. rewrite filter_none.
  2:{ intros x Hx. apply bool_decide_eq_false_2. by apply Hnone. }
  cbn [for_each_step and_then foldr length fmap list_fmap fst snd].
  unfold finish. rewrite Hgen. cbn [List.filter fmap list_fmap].
  unfold save_state, StateTracker.save. rewrite !emit_emit, tracker_emit, Hstate.
  cbn [and_then]. rewrite with_tracker_emit, !emit_emit.
  do 2 f_equal. by rewrite <- !app_assoc.
Qed.

(** C2, where the code departs from it. One set is discovered and the
    allowlist names another one, so the filter is applied and leaves no
    set. The run does not stop there: it reports "Filtered to 0 sets",
    goes through the fetch and the download stage with nothing to do,
    emits the root manifest with an empty list of sets, saves the state,
    which loads it first, and reports completion. *)
Theorem run_empty_filter_runs_later_stages :
  let config := AppConfig.mk "mtg" false None "out" "1" in
  let a := Adapter.mk "scryfall-api"
             (Return [SetInfo.mk "MKM" "Murders at Karlov Manor" "expansion"])
             (λ _, Return []) CardDataBase.image_url in
  let out := run unit Sample.batch Sample.clock_text config [a] (ImageDownloader.new "out")
                 false (Some ["XYZ"]) Sample.start in
  (_discover_sets config [a]).1
  = Return [SetInfo.mk "MKM" "Murders at Karlov Manor" "expansion"]
  ∧ apply_filter (py_or (Some ["XYZ"]) (AppConfig.set_filter config))
                 [SetInfo.mk "MKM" "Murders at Karlov Manor" "expansion"] = []
  ∧ out
    = (mkPipeline (StateTracker.mk (Some ScrapeState.empty) (saved_file ScrapeState.empty))
                  ∅ tt 0
         [Print (MsgDiscovering "mtg"); ListSets "scryfall-api";
          Print (MsgFiltered 0 []); Print MsgFetching; Print (MsgFetched 0 0);
          Print MsgDownloading; Print (MsgImages 0 0); Print MsgGenerating;
          GenRoot []; SaveState ScrapeState.empty; Print MsgComplete],
       Done tt)
  ∧ List.filter later_stage (trace out.1) = [GenRoot []; SaveState ScrapeState.empty].
Proof. cbv zeta. repeat split; vm_compute; reflexivity. Qed.

(** * Further properties of the code *)

(** ** models.py: the marking operations *)

Lemma image_status_mark_image_other_set (s : ScrapeState.t)
    (set_id card_id status : string) (path error : option string) (set_id' card_id' : string) :
  set_id' ≠ set_id →
  image_status (ScrapeState.mark_image s set_id card_id status path error) set_id' card_id'
  = image_status s set_id' card_id'.
Proof.
  intros Hne. unfold image_status, ScrapeState.mark_image. cbn [ScrapeState.sets].
  by rewrite lookup_insert_ne.
Qed.

Lemma cards_of_mark_image (s : ScrapeState.t) (set_id card_id status : string)
    (path error : option string) (set_id' : string) :
  ScrapeState.cards_of (ScrapeState.mark_image s set_id card_id status path error) set_id'
  = ScrapeState.cards_of s set_id'.
Proof.
  unfold ScrapeState.cards_of, ScrapeState.mark_image, ScrapeState.setdefault.
  cbn [ScrapeState.sets]. destruct (decide (set_id = set_id')) as [->|Hne].
  - rewrite lookup_insert_eq. by destruct (ScrapeState.sets s !! set_id').
  - by rewrite lookup_insert_ne.
Qed.

Lemma is_card_scraped_cards_of (s : ScrapeState.t) (set_id card_id : string) :
  ScrapeState.is_card_scraped s set_id card_id
  = bool_decide (card_id ∈ ScrapeState.cards_of s set_id).
Proof.
  unfold ScrapeState.is_card_scraped, ScrapeState.cards_of.
  destruct (ScrapeState.sets s !! set_id); [done|].
  symmetry. apply bool_decide_eq_false_2. apply not_elem_of_nil.
Qed.

(** X1. The image status of a card is the last one written: whatever was
    recorded before, after two [mark_image] calls for the same card the
    status, path and error are those of the second call, and the image
    counts as downloaded exactly when the second status is "success". *)
Theorem mark_image_last_write_wins (s : ScrapeState.t) (S C : string)
    (status1 status2 : string) (path1 error1 path2 error2 : option string) :
  let s' := ScrapeState.mark_image (ScrapeState.mark_image s S C status1 path1 error1)
                                   S C status2 path2 error2 in
  image_status s' S C = Some (CardImageStatus.mk C status2 path2 error2)
  ∧ ScrapeState.is_image_downloaded s' S C = String.eqb status2 "success".
Proof.
  intros s'. subst s'.
  assert (image_status
            (ScrapeState.mark_image (ScrapeState.mark_image s S C status1 path1 error1)
                                    S C status2 path2 error2) S C
          = Some (CardImageStatus.mk C status2 path2 error2)) as H.
  { rewrite image_status_mark_image. by rewrite decide_True. }
  split; [done|]. by rewrite is_image_downloaded_status, H.
Qed.

(** X2. [mark_image] touches one image entry only: the scraped card ids of
    every set are as before, and so is the image status of every other card
    and of every card of another set. *)
Theorem mark_image_frame (s : ScrapeState.t) (S C status : string)
    (path error : option string) (S' C' : string) :
  let s' := ScrapeState.mark_image s S C status path error in
  ScrapeState.cards_of s' S' = ScrapeState.cards_of s S'
  ∧ ScrapeState.is_card_scraped s' S' C' = ScrapeState.is_card_scraped s S' C'
  ∧ ((S', C') ≠ (S, C) → image_status s' S' C' = image_status s S' C').
Proof.
  intros s'. subst s'. split; [apply cards_of_mark_image|]. split.
  - by rewrite !is_card_scraped_cards_of, cards_of_mark_image.
  - intros Hne. destruct (decide (S' = S)) as [->|HS].
    + rewrite image_status_mark_image. rewrite decide_False; [done|]. congruence.
    + by apply image_status_mark_image_other_set.
Qed.

Lemma image_status_mark_card_scraped (s : ScrapeState.t) (S C S' C' : string) :
  image_status (ScrapeState.mark_card_scraped s S C) S' C' = image_status s S' C'.
Proof.
  unfold image_status, ScrapeState.mark_card_scraped, ScrapeState.setdefault.
  cbn [ScrapeState.sets]. destruct (decide (S = S')) as [->|Hne].
  - rewrite lookup_insert_eq.
    destruct (ScrapeState.sets s !! S') as [ss|]; cbn; by case_bool_decide.
  - by rewrite lookup_insert_ne.
Qed.

Lemma cards_of_mark_card_scraped_other (s : ScrapeState.t) (S C S' : string) :
  S' ≠ S →
  ScrapeState.cards_of (ScrapeState.mark_card_scraped s S C) S' = ScrapeState.cards_of s S'.
Proof.
  intros Hne. unfold ScrapeState.cards_of. by rewrite mark_card_scraped_other.
Qed.

(** X3. [mark_card_scraped] changes nothing but the membership of its own
    card: afterwards a card counts as scraped exactly when it did before or
    it is the marked card of the marked set, and no image status changes. *)
Theorem mark_card_scraped_frame (s : ScrapeState.t) (S C S' C' : string) :
  let s' := ScrapeState.mark_card_scraped s S C in
  ScrapeState.is_card_scraped s' S' C'
  = ScrapeState.is_card_scraped s S' C' || (String.eqb S S' && String.eqb C C')
  ∧ image_status s' S' C' = image_status s S' C'
  ∧ ScrapeState.is_image_downloaded s' S' C' = ScrapeState.is_image_downloaded s S' C'.
Proof.
  intros s'. subst s'. split; [|split].
  - rewrite !is_card_scraped_cards_of.
    destruct (String.eqb_spec S S') as [->|HS]; cbn.
    + rewrite cards_of_mark_card_scraped.
      destruct (String.eqb_spec C C') as [->|HC].
      * rewrite orb_true_r. apply bool_decide_eq_true_2. case_bool_decide; set_solver.
      * rewrite orb_false_r. apply bool_decide_ext. case_bool_decide; set_solver.
    + rewrite orb_false_r. rewrite cards_of_mark_card_scraped_other; [done|congruence].
  - apply image_status_mark_card_scraped.
  - by rewrite !is_image_downloaded_status, image_status_mark_card_scraped.
Qed.

Lemma consistent_empty : consistent ScrapeState.empty.
Proof. intros set_id ss H. cbn in H. by rewrite lookup_empty in H. Qed.

Lemma consistent_mark_card_scraped (s : ScrapeState.t) (S C : string) :
  consistent s → consistent (ScrapeState.mark_card_scraped s S C).
Proof.
  intros Hs set_id ss. unfold ScrapeState.mark_card_scraped, ScrapeState.setdefault.
  cbn [ScrapeState.sets]. destruct (decide (S = set_id)) as [->|Hne].
  - rewrite lookup_insert_eq. intros [= <-].
    destruct (ScrapeState.sets s !! set_id) as [ss0|] eqn:Hl; cbn.
    + destruct (Hs _ _ Hl) as [Hnd Hid]. case_bool_decide; cbn; [done|].
      split; [|done]. apply NoDup_app. repeat split; [done|set_solver|].
      apply NoDup_singleton.
    + rewrite bool_decide_eq_false_2 by apply not_elem_of_nil. cbn.
      split; [apply NoDup_singleton|done].
  - rewrite lookup_insert_ne by done. apply Hs.
Qed.

Lemma consistent_mark_image (s : ScrapeState.t) (S C status : string)
    (path error : option string) :
  consistent s → consistent (ScrapeState.mark_image s S C status path error).
Proof.
  intros Hs set_id ss. unfold ScrapeState.mark_image, ScrapeState.setdefault.
  cbn [ScrapeState.sets]. destruct (decide (S = set_id)) as [->|Hne].
  - rewrite lookup_insert_eq. intros [= <-].
    destruct (ScrapeState.sets s !! set_id) as [ss0|] eqn:Hl; cbn.
    + apply (Hs _ _ Hl).
    + split; [apply NoDup_nil_2|done].
  - rewrite lookup_insert_ne by done. apply Hs.
Qed.

(** X4. The marking operations keep the invariant of the data model: from
    a state in which every set entry has pairwise distinct card ids and
    carries the id it is filed under, [mark_card_scraped] and [mark_image]
    lead to such a state again; the empty state is one. *)
Theorem marks_keep_consistent (s : ScrapeState.t) (S C status : string)
    (path error : option string) :
  consistent s →
  consistent (ScrapeState.mark_card_scraped s S C)
  ∧ consistent (ScrapeState.mark_image s S C status path error).
Proof.
  intros Hs. split; [by apply consistent_mark_card_scraped|by apply consistent_mark_image].
Qed.

Lemma marks_keep_consistent_witness :
  consistent ScrapeState.empty
  ∧ consistent (ScrapeState.mark_card_scraped ScrapeState.empty "OP-01" "OP01-001")
  ∧ consistent (ScrapeState.mark_image ScrapeState.empty "OP-01" "OP01-001" "failed"
                                       None (Some "404")).
Proof.
  split; [apply consistent_empty|].
  apply (marks_keep_consistent ScrapeState.empty "OP-01" "OP01-001" "failed" None (Some "404")).
  apply consistent_empty.
Defined.

Lemma cards_of_mark_cards (cards : list CardDataBase.t) (st : ScrapeState.t) (S : string) :
  ScrapeState.cards_of (mark_cards st S cards) S
  = (ScrapeState.cards_of st S
     ++ first_occurrences_after (λ i : string, i) (ScrapeState.cards_of st S)
          (CardDataBase.id <$> cards))%list.
Proof.
  revert st. induction cards as [|c cards IH]; intros st.
  - cbn. by rewrite app_nil_r.
  - unfold mark_cards in *. cbn [foldl fmap list_fmap first_occurrences_after].
    rewrite IH, cards_of_mark_card_scraped, list_fmap_id.
    case_bool_decide as Hin.
    + f_equal. apply first_occurrences_after_ext. intros k.
      rewrite !list_fmap_id, elem_of_app. set_solver.
    + by rewrite <- app_assoc.
Qed.

Lemma first_occurrences_after_NoDup_id (earlier l : list string) :
  NoDup l → (∀ x, x ∈ l → x ∉ earlier) →
  first_occurrences_after (λ i : string, i) earlier l = l.
Proof.
  revert earlier. induction l as [|x l IH]; intros earlier Hnd Hfresh; [done|].
  apply NoDup_cons in Hnd as [Hx Hnd]. cbn. rewrite list_fmap_id.
  rewrite bool_decide_eq_false_2 by (apply Hfresh; set_solver).
  f_equal. apply IH; [done|]. intros y Hy. rewrite not_elem_of_app. split.
  - apply Hfresh. set_solver.
  - set_solver.
Qed.

(** X5. The marking loop of the fetch stage appends to the card ids of the
    set, in fetch order, the ids that are not there yet, each once; other
    sets keep their card ids, and no image status changes. So for cards with
    pairwise distinct ids, none of them recorded before, the recorded list
    grows by exactly their ids in order. *)
Theorem mark_cards_appends_new_ids (st : ScrapeState.t) (S : string)
    (cards : list CardDataBase.t) :
  ScrapeState.cards_of (mark_cards st S cards) S
  = (ScrapeState.cards_of st S
     ++ first_occurrences_after (λ i : string, i) (ScrapeState.cards_of st S)
          (CardDataBase.id <$> cards))%list
  ∧ (∀ S', S' ≠ S →
       ScrapeState.cards_of (mark_cards st S cards) S' = ScrapeState.cards_of st S')
  ∧ (∀ S' C', image_status (mark_cards st S cards) S' C' = image_status st S' C')
  ∧ (NoDup (CardDataBase.id <$> cards) →
     (∀ c, c ∈ cards → CardDataBase.id c ∉ ScrapeState.cards_of st S) →
     ScrapeState.cards_of (mark_cards st S cards) S
     = (ScrapeState.cards_of st S ++ (CardDataBase.id <$> cards))%list).
Proof.
  split; [apply cards_of_mark_cards|]. split; [|split].
  - intros S' Hne. revert st. induction cards as [|c cards IH]; intros st; [done|].
    unfold mark_cards in *. cbn [foldl]. rewrite IH.
    by apply cards_of_mark_card_scraped_other.
  - intros S' C'. revert st. induction cards as [|c cards IH]; intros st; [done|].
    unfold mark_cards in *. cbn [foldl]. rewrite IH.
    apply image_status_mark_card_scraped.
  - intros Hnd Hfresh. rewrite cards_of_mark_cards. f_equal.
    apply first_occurrences_after_NoDup_id; [done|].
    intros x (c & -> & Hc)%list_elem_of_fmap. by apply Hfresh.
Qed.

(** ** downloader.py and manifest.py: the extension of an image URL *)

Lemma before_first_no_occurrence (c : ascii) (s : string) :
  contains c s = false → before_first c s = s.
Proof.
  induction s as [|a s IH]; cbn; [done|].
  destruct (Ascii.eqb a c); [done|]. intros H. by rewrite IH.
Qed.

Lemma before_first_app (c : ascii) (s rest : string) :
  contains c s = false → before_first c (s ++ String c rest) = s.
Proof.
  induction s as [|a s IH]; simpl.
  - intros _. by rewrite Ascii.eqb_refl.
  - destruct (Ascii.eqb a c); [done|]. intros H. by rewrite IH.
Qed.

Lemma contains_before_first (c c' : ascii) (s : string) :
  contains c s = false → contains c (before_first c' s) = false.
Proof.
  induction s as [|a s IH]; cbn; [done|].
  destruct (Ascii.eqb a c) eqn:Hac; [done|]. intros H.
  destruct (Ascii.eqb a c'); cbn; [done|]. rewrite Hac. by apply IH.
Qed.

Lemma before_first_twice_app (c c' : ascii) (u extra : string) :
  contains c u = false → contains c' u = false →
  before_first c' (before_first c (u ++ String c' extra)) = u.
Proof.
  induction u as [|a u IH]; simpl.
  - intros _ _. destruct (Ascii.eqb c' c); simpl; [done|]. by rewrite Ascii.eqb_refl.
  - destruct (Ascii.eqb a c) eqn:H1; [done|].
    destruct (Ascii.eqb a c') eqn:H2; [done|]. simpl. rewrite H2.
    intros ??. by rewrite IH.
Qed.

(** X6. The extension guessed from a URL is always one of the five
    whitelisted ones, whatever the URL. *)
Theorem url_extension_whitelisted (url : string) : _url_extension url ∈ IMAGE_EXTENSIONS.
Proof.
  unfold _url_extension.
  destruct (contains "." _); [|unfold IMAGE_EXTENSIONS; set_solver].
  case_bool_decide; [done|unfold IMAGE_EXTENSIONS; set_solver].
Qed.

(** X7. A query string and a fragment do not change the guessed
    extension: for a URL without "?", appending "?" and any query gives the
    same extension, and for a URL with neither "?" nor "#", so does
    appending "#" and any fragment. *)
Theorem url_extension_ignores_query_and_fragment (url extra : string) :
  contains "?" url = false →
  _url_extension (url ++ String "?" extra) = _url_extension url
  ∧ (contains "#" url = false →
     _url_extension (url ++ String "#" extra) = _url_extension url).
Proof.
  intros Hq. unfold _url_extension. split.
  - rewrite before_first_app by done.
    by rewrite (before_first_no_occurrence "?" url).
  - intros Hf.
    rewrite before_first_twice_app by done.
    by rewrite (before_first_no_occurrence "?" url), (before_first_no_occurrence "#" url).
Qed.

Lemma url_extension_ignores_query_and_fragment_witness :
  _url_extension "https://example.com/img/OP01-001.PNG?size=large" = "png"
  ∧ _url_extension "https://example.com/img/OP01-001.PNG#top?x" = "png".
Proof.
  pose proof (url_extension_ignores_query_and_fragment
                "https://example.com/img/OP01-001.PNG" "size=large") as [H1 _];
    [reflexivity|].
  pose proof (url_extension_ignores_query_and_fragment
                "https://example.com/img/OP01-001.PNG" "top?x") as [_ H2];
    [reflexivity|].
  split.
  - etransitivity; [exact H1|]. vm_compute. reflexivity.
  - etransitivity; [apply H2; reflexivity|]. vm_compute. reflexivity.
Defined.

(** X8. The manifest and the downloader agree on the extension: for every
    URL [guess_ext], which names the image in a set manifest, returns what
    [_url_extension], which names the downloaded file, returns. *)
Theorem guess_ext_agrees_with_downloader (image_url : string) :
  guess_ext image_url = _url_extension image_url.
Proof.
  unfold guess_ext, _url_extension, IMAGE_EXTENSIONS.
  destruct (String.eqb_spec image_url "") as [->|Hne]; [reflexivity|done].
Qed.

(** ** downloader.py: the retry loop *)

Section DownloadFacts.
Context (net : nat → string → Response) (status_error : nat → string → string).


(** What one pass through the [try] body can do. *)
Lemma try_download_cases (w : World.t) (image_url : string) (dest : Path) :
  (∃ exc, try_download net status_error w image_url dest
          = (World.mk (World.disk w) (S (World.requests w))
                      (World.effects w ++ [Get image_url]), Some exc))
  ∨ (∃ content, try_download net status_error w image_url dest
                = (World.mk (<[dest := content]> (World.disk w)) (S (World.requests w))
                            (World.effects w ++ [Get image_url; WriteBytes dest content]),
                   None)).
Proof.
  unfold try_download.
  destruct (net (World.requests w) image_url) as [exc|status content]; [left; by eexists|].
  destruct ((200 <=? status)%nat && (status <? 300)%nat).
  - right. exists content. cbn. by rewrite <- app_assoc.
  - left. by eexists.
Qed.

(** What the retry loop keeps, whatever the network does. *)
Lemma retry_loop_keeps (d : ImageDownloader.t) (image_url : string) (dest : Path)
    (attempts : list nat) (w : World.t) :
  let out := retry_loop net status_error d image_url dest attempts w in
  (World.requests w ≤ World.requests out.1 ≤ World.requests w + length attempts)%nat
  ∧ (∀ p, p ≠ dest → World.disk out.1 !! p = World.disk w !! p)
  ∧ (reported_success out.2 = true → is_Some (World.disk out.1 !! dest))
  ∧ (reported_success out.2 = false → World.disk out.1 = World.disk w)
  ∧ (reported_success out.2 = true ↔ out.2 = Return (true, None))
  ∧ World.effects w `prefix_of` World.effects out.1.
Proof.
  revert w. induction attempts as [|attempt rest IH]; intros w; cbn [retry_loop].
  - cbn. repeat split; try done; try lia.
  - destruct (try_download_cases w image_url dest) as [[exc ->]|[content ->]].
    + destruct (attempt <? ImageDownloader._max_retries d)%nat.
      * destruct (backoff_delay attempt) as [delay|e].
        -- specialize (IH (World.emit (Sleep delay)
                             (World.mk (World.disk w) (S (World.requests w))
                                       (World.effects w ++ [Get image_url])))).
           cbn zeta in IH. cbn [World.emit World.disk World.requests World.effects] in IH.
           destruct IH as (Hreq & Hframe & Hok & Hfail & Herr & Hpre).
           cbn [length]. repeat split; try done; try lia; try apply Herr.
           etransitivity; [|exact Hpre]. rewrite <- app_assoc. by apply prefix_app_r.
        -- cbn. repeat split; try done; try lia. by apply prefix_app_r.
      * cbn. repeat split; try done; try lia. by apply prefix_app_r.
    + cbn. repeat split; try done; try lia.
      * intros p Hp. by rewrite lookup_insert_ne.
      * intros _. rewrite lookup_insert_eq. by eexists.
      * by apply prefix_app_r.
Qed.

(** The same for a whole download. *)
Lemma download_keeps (d : ImageDownloader.t) (w : World.t) (card : CardData.t)
    (image_url : string) :
  let out := download_card_image net status_error d w card image_url in
  let dest := destination d card image_url in
  (World.requests w ≤ World.requests out.1
   ≤ World.requests w + ImageDownloader._max_retries d)%nat
  ∧ (∀ p, p ≠ dest → World.disk out.1 !! p = World.disk w !! p)
  ∧ (reported_success out.2 = true → image_url ≠ "" ∧ is_Some (World.disk out.1 !! dest))
  ∧ (reported_success out.2 = false → World.disk out.1 = World.disk w)
  ∧ (reported_success out.2 = true ↔ out.2 = Return (true, None))
  ∧ World.effects w `prefix_of` World.effects out.1.
Proof.
  intros out dest. subst out dest. unfold download_card_image, destination.
  destruct (String.eqb_spec image_url "") as [->|Hne].
  { cbn. repeat split; try done; try lia. }
  case_bool_decide as Hex.
  { cbn. repeat split; try done; try lia. }
  pose proof (retry_loop_keeps d image_url
                (ImageDownloader.image_path d (CardData.set_id card) (CardData.id card)
                   (_url_extension image_url))
                (seq 1 (ImageDownloader._max_retries d))
                (World.emit (Mkdir (removelast
                   (ImageDownloader.image_path d (CardData.set_id card) (CardData.id card)
                      (_url_extension image_url)))) w)) as H.
  cbn zeta in H. rewrite length_seq in H.
  cbn [World.emit World.disk World.requests World.effects] in H.
  destruct H as (Hreq & Hframe & Hok & Hfail & Herr & Hpre).
  repeat split; try done; try lia; try apply Herr; try (by apply Hok).
  etransitivity; [|exact Hpre]. by apply prefix_app_r.
Qed.

(** A result without an error message is a success. *)
Lemma retry_loop_message (d : ImageDownloader.t) (image_url : string) (dest : Path)
    (attempts : list nat) (w : World.t) (ok : bool) :
  (retry_loop net status_error d image_url dest attempts w).2 = Return (ok, None) →
  ok = true.
Proof.
  revert w. induction attempts as [|attempt rest IH]; intros w; cbn [retry_loop]; [done|].
  destruct (try_download_cases w image_url dest) as [[exc ->]|[content ->]].
  - destruct (attempt <? ImageDownloader._max_retries d)%nat; [|done].
    destruct (backoff_delay attempt) as [delay|e]; [apply IH|done].
  - cbn. congruence.
Qed.

Lemma download_message (d : ImageDownloader.t) (w : World.t) (card : CardData.t)
    (image_url : string) (ok : bool) :
  (download_card_image net status_error d w card image_url).2 = Return (ok, None) →
  ok = true.
Proof.
  unfold download_card_image. destruct (String.eqb image_url ""); [done|].
  case_bool_decide; [cbn; congruence|]. apply retry_loop_message.
Qed.
End DownloadFacts.

Section DownloadProperties.
Context (net : nat → string → Response) (status_error : nat → string → string).

Lemma download_existing (d : ImageDownloader.t) (w : World.t) (card : CardData.t)
    (image_url : string) :
  image_url ≠ "" → is_Some (World.disk w !! destination d card image_url) →
  download_card_image net status_error d w card image_url = (w, Return (true, None)).
Proof.
  intros Hurl Hdest. unfold download_card_image. fold (destination d card image_url).
  apply String.eqb_neq in Hurl. rewrite Hurl. by rewrite bool_decide_eq_true_2.
Qed.

(** X9. A download never makes more requests than the retry count of the
    downloader, whatever the network answers and whatever is on the disk. *)
Theorem download_attempt_bound (d : ImageDownloader.t) (w : World.t) (card : CardData.t)
    (image_url : string) :
  let out := download_card_image net status_error d w card image_url in
  (World.requests w ≤ World.requests out.1
   ≤ World.requests w + ImageDownloader._max_retries d)%nat.
Proof. apply download_keeps. Qed.

(** X10. A download touches no file but its destination, it leaves the
    disk as it was when it does not return success, and it only adds to the
    effects that happened before. *)
Theorem download_touches_only_destination (d : ImageDownloader.t) (w : World.t)
    (card : CardData.t) (image_url : string) :
  let out := download_card_image net status_error d w card image_url in
  (∀ p, p ≠ destination d card image_url → World.disk out.1 !! p = World.disk w !! p)
  ∧ (reported_success out.2 = false → World.disk out.1 = World.disk w)
  ∧ World.effects w `prefix_of` World.effects out.1.
Proof.
  intros out.
  destruct (download_keeps net status_error d w card image_url)
    as (_ & Hframe & _ & Hfail & _ & Hpre).
  done.
Qed.

(** X11. For a non-empty URL a download returns success exactly when the
    destination file is on the disk afterwards, and it returns success
    exactly when it returns without an error message. *)
Theorem download_success_iff_file (d : ImageDownloader.t) (w : World.t)
    (card : CardData.t) (image_url : string) :
  let out := download_card_image net status_error d w card image_url in
  image_url ≠ "" →
  (reported_success out.2 = true
   ↔ is_Some (World.disk out.1 !! destination d card image_url))
  ∧ (reported_success out.2 = true ↔ ∃ ok, out.2 = Return (ok, None)).
Proof.
  intros out Hurl.
  destruct (download_keeps net status_error d w card image_url)
    as (_ & _ & Hok & Hfail & Herr & _).
  fold out in Hok, Hfail, Herr. split.
  - split; [by apply Hok|].
    intros Hfile. destruct (reported_success out.2) eqn:Hres; [done|].
    rewrite Hfail in Hfile by done.
    subst out. rewrite (download_existing d w card image_url Hurl Hfile) in Hres. done.
  - split; [intros Hres%Herr; by exists true|].
    intros [ok Hret]. rewrite Hret. cbn.
    by apply (download_message net status_error d w card image_url).
Qed.

(** X12. Downloading again after a success is free: when a download
    returns success, the same download in the world it left returns
    success with no request, no effect and no change of the disk. *)
Theorem download_again_is_skipped (d : ImageDownloader.t) (w : World.t)
    (card : CardData.t) (image_url : string) :
  let out := download_card_image net status_error d w card image_url in
  reported_success out.2 = true →
  download_card_image net status_error d out.1 card image_url
  = (out.1, Return (true, None)).
Proof.
  intros out Hres.
  destruct (download_keeps net status_error d w card image_url)
    as (_ & _ & Hok & _).
  destruct (Hok Hres) as [Hurl Hfile]. by apply download_existing.
Qed.
End DownloadProperties.

Lemma download_success_iff_file_witness :
  let net := λ (_ : nat) (_ : string), HttpResponse 200 "img" in
  let card := CardData.mk "OP01-001" "Zoro" "character" None None None [] "R" [] ""
                          None "https://example.com/OP01-001.png" "OP-01" "optcg-api" in
  let out := download_card_image net (λ _ _, "error") (ImageDownloader.new "out")
               (World.mk ∅ 0 []) card "https://example.com/OP01-001.png" in
  reported_success out.2 = true
  ∧ World.disk out.1 !! ["out"; "OP-01"; "cards"; "OP01-001.png"] = Some "img".
Proof.
  cbv zeta. split.
  - apply (download_success_iff_file (λ _ _, HttpResponse 200 "img") (λ _ _, "error"));
      [discriminate|]. vm_compute. by eexists.
  - vm_compute. reflexivity.
Defined.

Lemma download_again_is_skipped_witness :
  let net := λ (_ : nat) (_ : string), HttpResponse 200 "img" in
  let card := CardData.mk "OP01-001" "Zoro" "character" None None None [] "R" [] ""
                          None "https://example.com/OP01-001.png" "OP-01" "optcg-api" in
  let out := download_card_image net (λ _ _, "error") (ImageDownloader.new "out")
               (World.mk ∅ 0 []) card "https://example.com/OP01-001.png" in
  World.requests out.1 = 1
  ∧ download_card_image net (λ _ _, "error") (ImageDownloader.new "out") out.1 card
      "https://example.com/OP01-001.png" = (out.1, Return (true, None)).
Proof.
  cbv zeta. split; [vm_compute; reflexivity|].
  apply (download_again_is_skipped (λ _ _, HttpResponse 200 "img") (λ _ _, "error")).
  vm_compute. reflexivity.
Defined.

Section Backoff.
Context (net : nat → string → Response) (status_error : nat → string → string).



Lemma total_sleep_app (l1 l2 : list effect) :
  total_sleep (l1 ++ l2) = (total_sleep l1 + total_sleep l2)%Z.
Proof.
  induction l1 as [|e l1 IH]; [done|]. cbn. destruct e; rewrite IH; lia.
Qed.



End Backoff.



(** ** scraper.py: the fetch stage *)

Lemma dict_lookup_dict_set {V} (key : string) (value : V) (d : list (string * V)) :
  dict_lookup key (dict_set key value d) = Some value.
Proof.
  induction d as [|[k v] d IH]; cbn.
  - by rewrite String.eqb_refl.
  - destruct (String.eqb k key) eqn:Hk; cbn; by rewrite Hk.
Qed.

Lemma dict_lookup_dict_set_ne {V} (key other : string) (value : V) (d : list (string * V)) :
  other ≠ key → dict_lookup other (dict_set key value d) = dict_lookup other d.
Proof.
  intros Hne. induction d as [|[k v] d IH]; cbn.
  - destruct (String.eqb_spec key other); [congruence|done].
  - destruct (String.eqb_spec k key) as [->|Hk]; cbn.
    + destruct (String.eqb_spec key other); [congruence|done].
    + destruct (String.eqb k other); [done|apply IH].
Qed.

Lemma fetch_cards_calls (adapters : list Adapter.t) (set_id : string) (force : bool) :
  Forall (λ e, ∃ a, e = GetCards a set_id) (_fetch_cards adapters set_id force).2.
Proof.
  induction adapters as [|a rest IH]; cbn [_fetch_cards]; [constructor|].
  destruct (Adapter.get_cards a set_id) as [[|c cs]|e].
  - destruct (_fetch_cards rest set_id force) as [cards calls]. cbn in *.
    constructor; [by eexists|done].
  - cbn. constructor; [by eexists|constructor].
  - destruct (_fetch_cards rest set_id force) as [cards calls]. cbn in *.
    constructor; [by eexists|done].
Qed.

Lemma fetch_cards_NoDup (adapters : list Adapter.t) (set_id : string) (force : bool) :
  NoDup (CardDataBase.id <$> (_fetch_cards adapters set_id force).1).
Proof.
  induction adapters as [|a rest IH]; cbn [_fetch_cards]; [constructor|].
  destruct (Adapter.get_cards a set_id) as [[|c cs]|e].
  - destruct (_fetch_cards rest set_id force) as [cards calls]. exact IH.
  - cbn [fst]. rewrite unique_cards_spec. apply first_occurrences_NoDup.
  - destruct (_fetch_cards rest set_id force) as [cards calls]. exact IH.
Qed.

Lemma cards_of_mark_cards_mono (cards : list CardDataBase.t) (st : ScrapeState.t)
    (S x : string) :
  x ∈ ScrapeState.cards_of st S → x ∈ ScrapeState.cards_of (mark_cards st S cards) S.
Proof.
  revert st. induction cards as [|y cards IH]; intros st Hx; [done|].
  unfold mark_cards in *. cbn [foldl]. apply IH.
  rewrite cards_of_mark_card_scraped. case_bool_decide; set_solver.
Qed.

Lemma is_card_scraped_mark_cards (cards : list CardDataBase.t) (st : ScrapeState.t)
    (S : string) (c : CardDataBase.t) :
  c ∈ cards → ScrapeState.is_card_scraped (mark_cards st S cards) S (CardDataBase.id c) = true.
Proof.
  intros Hc. rewrite is_card_scraped_cards_of. apply bool_decide_eq_true_2.
  revert st. induction cards as [|x cards IH]; intros st; [by apply elem_of_nil in Hc|].
  apply elem_of_cons in Hc as [->|Hc].
  - change (mark_cards st S (x :: cards))
      with (mark_cards (ScrapeState.mark_card_scraped st S (CardDataBase.id x)) S cards).
    apply cards_of_mark_cards_mono.
    rewrite cards_of_mark_card_scraped. case_bool_decide; set_solver.
  - change (mark_cards st S (x :: cards))
      with (mark_cards (ScrapeState.mark_card_scraped st S (CardDataBase.id x)) S cards).
    by apply IH.
Qed.

Lemma set_last_scraped_views (st : ScrapeState.t) (S ts : string) (S' C' : string) :
  ScrapeState.cards_of (set_last_scraped st S ts) S' = ScrapeState.cards_of st S'
  ∧ image_status (set_last_scraped st S ts) S' C' = image_status st S' C'
  ∧ (S' ≠ S → last_scraped_of (set_last_scraped st S ts) S' = last_scraped_of st S')
  ∧ (is_Some (ScrapeState.sets st !! S) → last_scraped_of (set_last_scraped st S ts) S = Some ts).
Proof.
  unfold ScrapeState.cards_of, image_status, last_scraped_of, set_last_scraped.
  cbn [ScrapeState.sets]. repeat split.
  - destruct (decide (S = S')) as [->|Hne].
    + rewrite lookup_alter_eq. by destruct (ScrapeState.sets st !! S').
    + by rewrite lookup_alter_ne.
  - destruct (decide (S = S')) as [->|Hne].
    + rewrite lookup_alter_eq. by destruct (ScrapeState.sets st !! S').
    + by rewrite lookup_alter_ne.
  - intros Hne. by rewrite lookup_alter_ne.
  - intros [ss Hss]. rewrite lookup_alter_eq, Hss. done.
Qed.

Lemma mark_cards_other (cards : list CardDataBase.t) (st : ScrapeState.t) (S S' : string) :
  S' ≠ S → ScrapeState.sets (mark_cards st S cards) !! S' = ScrapeState.sets st !! S'.
Proof.
  intros Hne. revert st. induction cards as [|c cards IH]; intros st; [done|].
  unfold mark_cards in *. cbn [foldl]. rewrite IH. by apply mark_card_scraped_other.
Qed.

Lemma mark_cards_entry (cards : list CardDataBase.t) (st : ScrapeState.t) (S : string) :
  cards ≠ [] → is_Some (ScrapeState.sets (mark_cards st S cards) !! S).
Proof.
  destruct cards as [|c cards _] using rev_ind; [done|]. intros _.
  unfold mark_cards. rewrite foldl_app. cbn [foldl].
  unfold ScrapeState.mark_card_scraped at 1. cbn [ScrapeState.sets].
  rewrite lookup_insert_eq. by eexists.
Qed.

Lemma mark_cards_appends_new_ids_images (cards : list CardDataBase.t) (st : ScrapeState.t)
    (S S' C' : string) :
  image_status (mark_cards st S cards) S' C' = image_status st S' C'.
Proof.
  revert st. induction cards as [|c cards IH]; intros st; [done|].
  unfold mark_cards in *. cbn [foldl]. rewrite IH. apply image_status_mark_card_scraped.
Qed.

(** *** The tracker's state in a run *)

(** The typed state behind the records of a state built through the typed
    interface is that state. *)
Lemma to_map_fmap {A B} (f : A → option B) (g : B → A) (m : gmap string B) :
  (∀ x, f (g x) = Some x) → Typed.to_map f (g <$> m) = Some m.
Proof.
  intros Hfg. unfold Typed.to_map.
  assert (∀ l : list (string * A),
            Forall (λ item, ∃ y, item = prod_map id g y) l →
            ∃ l', mapM (λ item : string * A, b ← f item.2; Some (item.1, b)) l = Some l'
                  ∧ prod_map id g <$> l' = l) as Hl.
  { induction 1 as [|item l [[k y] ->] _ (l' & IH & Hl')].
    - by exists [].
    - exists ((k, y) :: l'). cbn. rewrite Hfg. cbn. rewrite IH. cbn.
      split; [done|]. by rewrite Hl'. }
  destruct (Hl (map_to_list (g <$> m))) as (l' & -> & Hl').
  { apply Forall_forall. intros [k a] Hin%elem_of_map_to_list.
    rewrite lookup_fmap in Hin. destruct (m !! k) as [y|]; [|done].
    injection Hin as <-. by exists (k, y). }
  cbn. f_equal. apply (fmap_gmap_inj g).
  { intros a b Hab. assert (Some a = Some b) as [= ->]; [|done].
    by rewrite <- !Hfg, Hab. }
  rewrite <- list_to_map_fmap, Hl'. apply list_to_map_to_list.
Qed.

Lemma to_image_of_image (img : CardImageStatus.t) :
  Typed.to_image (Loaded.of_image img) = Some img.
Proof. destruct img as [c s p e]. by destruct p, e. Qed.

Lemma to_set_of_set (ss : SetScrapeState.t) : Typed.to_set (Loaded.of_set ss) = Some ss.
Proof.
  destruct ss as [i ls cs imgs]. unfold Typed.to_set, Loaded.of_set.
  cbn [Loaded.set_id Loaded.last_scraped Loaded.card_ids Loaded.images
       SetScrapeState.set_id SetScrapeState.last_scraped SetScrapeState.card_ids
       SetScrapeState.images].
  rewrite (to_map_fmap _ _ _ to_image_of_image).
  assert (Typed.to_strs (JArr (Loaded.of_str <$> cs)) = Some cs) as ->.
  { cbn. by apply mapM_fmap_Some. }
  by destruct ls.
Qed.

Lemma to_state_of_state (st : ScrapeState.t) :
  Typed.to_state (Loaded.of_state st) = Some st.
Proof.
  destruct st as [sets]. unfold Typed.to_state, Loaded.of_state.
  cbn [Loaded.sets ScrapeState.sets]. by rewrite (to_map_fmap _ _ _ to_set_of_set).
Qed.

(** A tracker on a state file the tool saved gives the saved state. *)
Lemma tracker_reads_saved_file (st : ScrapeState.t) :
  StateTracker.state (StateTracker.new (saved_file st))
  = Done (StateTracker.mk (Some st) (saved_file st), st).
Proof.
  unfold StateTracker.state, StateTracker.new.
  cbn [StateTracker._state StateTracker.file].
  by rewrite load_saved_file, to_state_of_state.
Qed.

Lemma tracker_state_done (t t' : StateTracker.t) (st : ScrapeState.t) :
  StateTracker.state t = Done (t', st) →
  t' = StateTracker.hold st t ∧ StateTracker.state t' = Done (t', st).
Proof.
  unfold StateTracker.state, StateTracker.hold.
  destruct (StateTracker._state t) as [st0|] eqn:Hheld.
  - intros [= <- <-]. rewrite Hheld. split; [|done]. destruct t; cbn in *. by subst.
  - destruct (_load _) as [loaded|e]; [|done].
    destruct (Typed.to_state loaded) as [st0|]; [|done]. by intros [= <- <-].
Qed.

(** What a use of the state gives depends on the tracker alone. *)
Lemma read_state_result {Net} (w : Pipeline Net) :
  (read_state w).2
  = match StateTracker.state (tracker w) with
    | Done (_, st) => Done st
    | Raised e => Raised e
    | Untyped => Untyped
    end.
Proof. unfold read_state. by destruct (StateTracker.state (tracker w)) as [[t st]|e|]. Qed.

Lemma read_state_same_tracker {Net} (w1 w2 : Pipeline Net) :
  tracker w1 = tracker w2 → (read_state w1).2 = (read_state w2).2.
Proof. intros H. by rewrite !read_state_result, H. Qed.

(** After a use that gave a state, and after a change of the state, the
    tracker holds the state. *)
Lemma read_state_after {Net} (w w' : Pipeline Net) (st : ScrapeState.t) :
  read_state w = (w', Done st) → read_state w' = (w', Done st).
Proof. intros [Hheld _]%read_state_done. by apply read_state_held. Qed.

Lemma read_state_split {Net} (w : Pipeline Net) (st : ScrapeState.t) :
  (read_state w).2 = Done st →
  read_state w = (with_tracker (StateTracker.hold st (tracker w)) w, Done st).
Proof.
  intros Hst. destruct (read_state_cases w) as [[st' H]|[[e H]|H]]; rewrite H in Hst; [|done..].
  cbn in Hst. injection Hst as ->. exact H.
Qed.

(** X15. One round of the fetch loop. Its events are the adapter calls of
    the fallback chain, and it never touches the disk. When the chain
    yields no card, the round does not use the state: the tracker, the
    clock and the table of fetched cards are as before, so an earlier
    timestamp of the set stays. When it yields cards the round uses the
    state, which loads it if nothing has yet; if that raises, the round ends
    with the exception after the adapter calls; if it gives a state, then
    afterwards each of the cards counts as scraped, the set's timestamp is
    the clock reading taken in this round, the table holds the cards under
    the set id, and the image statuses and the timestamps and card ids of
    the other sets are as before. *)
Theorem fetch_set_records (Net : Type) (now : nat → string) (adapters : list Adapter.t)
    (force : bool) (w : Pipeline Net) (all_cards : list (string * list CardDataBase.t))
    (set_info : SetInfo.t) :
  let S := SetInfo.id set_info in
  let cards := (_fetch_cards adapters S force).1 in
  let calls := (_fetch_cards adapters S force).2 in
  let out := fetch_set Net now adapters force w all_cards set_info in
  trace out.1 = (trace w ++ calls)%list
  ∧ disk out.1 = disk w
  ∧ (cards = [] → out = (emit calls w, Done all_cards))
  ∧ (cards ≠ [] →
     match (read_state w).2 with
     | Done st =>
         ∃ st' table,
           held out.1 = Some st' ∧ out.2 = Done table
           ∧ (∀ S' C', image_status st' S' C' = image_status st S' C')
           ∧ (∀ c, c ∈ cards → ScrapeState.is_card_scraped st' S (CardDataBase.id c) = true)
           ∧ last_scraped_of st' S = Some (now (clock w))
           ∧ clock out.1 = Datatypes.S (clock w)
           ∧ dict_lookup S table = Some cards
           ∧ ∀ S', S' ≠ S →
               last_scraped_of st' S' = last_scraped_of st S'
               ∧ ScrapeState.cards_of st' S' = ScrapeState.cards_of st S'
     | Raised e => out = (emit calls w, Raised e)
     | Untyped => out = (emit calls w, Untyped)
     end).
Proof.
  intros S cards calls out. subst out cards calls. unfold fetch_set. fold S.
  destruct (_fetch_cards adapters S force) as [cards calls] eqn:Hfetch. cbn [fst snd].
  destruct cards as [|c cards].
  - cbn [fst snd emit trace disk]. repeat split; done.
  - set (fetched := c :: cards).
    rewrite (read_state_same_tracker w (emit calls w)) by done.
    destruct (read_state_cases (emit calls w)) as [[st ->] | [[e ->] | ->]];
      cbn [and_then fst snd emit with_tracker trace disk clock tracker]; repeat split; try done.
    intros _.
    pose proof (set_last_scraped_views (mark_cards st S fetched) S (now (clock w))) as Hviews.
    eexists _, _. split; [reflexivity|]. split; [reflexivity|]. repeat split.
    + intros S' C'. destruct (Hviews S' C') as (_ & -> & _).
      apply mark_cards_appends_new_ids_images.
    + intros x Hx. rewrite is_card_scraped_cards_of.
      destruct (Hviews S x.(CardDataBase.id)) as (-> & _).
      rewrite <- is_card_scraped_cards_of. by apply is_card_scraped_mark_cards.
    + destruct (Hviews S "") as (_ & _ & _ & Hts). apply Hts. by apply mark_cards_entry.
    + apply dict_lookup_dict_set.
    + destruct (Hviews S' "") as (_ & _ & Hts & _). rewrite Hts by done.
      unfold last_scraped_of. by rewrite mark_cards_other.
    + destruct (Hviews S' "") as (-> & _).
      unfold ScrapeState.cards_of. by rewrite mark_cards_other.
Qed.

(** ** scraper.py: the download stage *)

Lemma last_scraped_of_mark_image (s : ScrapeState.t) (S C status : string)
    (path error : option string) (S' : string) :
  last_scraped_of (ScrapeState.mark_image s S C status path error) S' = last_scraped_of s S'.
Proof.
  unfold last_scraped_of, ScrapeState.mark_image, ScrapeState.setdefault.
  cbn [ScrapeState.sets]. destruct (decide (S = S')) as [->|Hne].
  - rewrite lookup_insert_eq. by destruct (ScrapeState.sets s !! S').
  - by rewrite lookup_insert_ne.
Qed.

Lemma record_image_frame (d : ImageDownloader.t) (files : FS) (S : string)
    (st : ScrapeState.t) (card : CardDataBase.t) (S' C' : string) :
  ScrapeState.cards_of (record_image d files S st card) S' = ScrapeState.cards_of st S'
  ∧ last_scraped_of (record_image d files S st card) S' = last_scraped_of st S'
  ∧ ((S', C') ≠ (S, CardDataBase.id card) →
     image_status (record_image d files S st card) S' C' = image_status st S' C').
Proof.
  unfold record_image.
  destruct (ImageDownloader.image_exists d files S (CardDataBase.id card) "jpg");
    (split; [apply cards_of_mark_image|split; [apply last_scraped_of_mark_image|]]);
    intros Hne; (destruct (decide (S' = S)) as [->|HS];
      [rewrite image_status_mark_image; rewrite decide_False; [done|congruence]
      |by apply image_status_mark_image_other_set]).
Qed.

Lemma record_images_frame (d : ImageDownloader.t) (files : FS) (S : string)
    (l : list CardDataBase.t) (st : ScrapeState.t) (S' C' : string) :
  ScrapeState.cards_of (foldl (record_image d files S) st l) S' = ScrapeState.cards_of st S'
  ∧ last_scraped_of (foldl (record_image d files S) st l) S' = last_scraped_of st S'
  ∧ (S' ≠ S ∨ C' ∉ CardDataBase.id <$> l →
     image_status (foldl (record_image d files S) st l) S' C' = image_status st S' C').
Proof.
  revert st. induction l as [|c l IH]; intros st; [done|]. cbn [foldl].
  destruct (IH (record_image d files S st c)) as (-> & -> & Himg).
  destruct (record_image_frame d files S st c S' C') as (-> & -> & Himg1).
  repeat split. intros Hor. rewrite Himg.
  - apply Himg1. destruct Hor as [?|Hnot]; [congruence|]. set_solver.
  - destruct Hor as [?|Hnot]; [by left|right]. set_solver.
Qed.

(** The round on a tracker whose state can be used: it goes as on the
    tracker that holds the state, except that with nothing to download and
    [force] the tracker is not used at all. *)
Lemma download_set_readable (Net : Type)
    (download_batch : Net → FS → list (CardDataBase.t * string) → Net * FS * (nat * nat))
    (adapters : list Adapter.t) (d : ImageDownloader.t) (force : bool)
    (w : Pipeline Net) (totals : nat * nat) (S : string) (cards : list CardDataBase.t)
    (st : ScrapeState.t) :
  (read_state w).2 = Done st →
  cards ≠ [] →
  download_set Net download_batch adapters d force w totals (S, cards)
  = download_set Net download_batch adapters d force
      (with_tracker (StateTracker.hold st (tracker w)) w) totals (S, cards).
Proof.
  intros Hst Hcards. pose proof (read_state_split w st Hst) as Hread.
  set (w1 := with_tracker (StateTracker.hold st (tracker w)) w) in *.
  assert (held w1 = Some st) as Hheld by done.
  rewrite (download_set_held _ _ _ _ _ w1 _ _ _ st Hheld).
  unfold download_set, to_download. destruct totals as [total_ok total_fail].
  destruct cards as [|c0 cards0]; [done|]. set (cards := c0 :: cards0).
  destruct force.
  - cbn [and_then pending]. subst cards.
    destruct (download_batch (network w) (disk w) _) as [[network' files] [ok fail]] eqn:Hb.
    cbn [network disk with_tracker w1] in *. rewrite Hb. cbn [fst snd].
    unfold read_state at 1. cbn [tracker].
    rewrite read_state_result in Hst.
    destruct (StateTracker.state (tracker w)) as [[t st0]|e|] eqn:Hstate; [|done..].
    injection Hst as ->. apply tracker_state_done in Hstate as [-> _].
    reflexivity.
  - rewrite Hread. cbn [and_then].
    destruct (pending st false S cards) as [|c rest]; [done|].
    destruct (download_batch (network w1) (disk w1) _) as [[network' files] [ok fail]].
    cbn [fst snd]. rewrite (read_state_held _ st) by done. reflexivity.
Qed.

(** X16. One round of the download loop. With no cards it does nothing.
    With cards it uses the state, which loads it if nothing has yet, and
    ends with the exception if that raises, the clock and the tracker as
    before, and without [force] everything as before. When the use gives a
    state, the round changes nothing in it but the image statuses of the
    pending cards of its set: the card ids and the timestamp of every set,
    the image statuses of the other sets and of the cards of this set that
    are not pending, and the clock are as before. When no card is pending,
    no batch is started and the disk, the network and the events are as
    before; otherwise the round adds one batch event for the pending
    cards. *)
Theorem download_set_frame (Net : Type)
    (download_batch : Net → FS → list (CardDataBase.t * string) → Net * FS * (nat * nat))
    (adapters : list Adapter.t) (d : ImageDownloader.t) (force : bool)
    (w : Pipeline Net) (totals : nat * nat) (S : string) (cards : list CardDataBase.t) :
  let out := download_set Net download_batch adapters d force w totals (S, cards) in
  (cards = [] → out = (w, Done totals))
  ∧ (cards ≠ [] →
     match (read_state w).2 with
     | Done st =>
         let to_download := pending st force S cards in
         ∃ st',
           held out.1 = Some st'
           ∧ clock out.1 = clock w
           ∧ (∀ S', ScrapeState.cards_of st' S' = ScrapeState.cards_of st S'
                    ∧ last_scraped_of st' S' = last_scraped_of st S')
           ∧ (∀ S' C', S' ≠ S ∨ C' ∉ CardDataBase.id <$> to_download →
                       image_status st' S' C' = image_status st S' C')
           ∧ (to_download = [] →
              out.2 = Done totals ∧ st' = st ∧ trace out.1 = trace w
              ∧ disk out.1 = disk w ∧ network out.1 = network w)
           ∧ (to_download ≠ [] →
              trace out.1
              = (trace w
                 ++ [DownloadBatch S
                       ((λ c, (c, _get_best_image_url adapters c)) <$> to_download)])%list)
     | Raised e =>
         out.2 = Raised e ∧ clock out.1 = clock w ∧ tracker out.1 = tracker w
         ∧ (force = false → out.1 = w)
     | Untyped =>
         out.2 = Untyped ∧ clock out.1 = clock w ∧ tracker out.1 = tracker w
         ∧ (force = false → out.1 = w)
     end).
Proof.
  intros out. subst out. split.
  { intros ->. unfold download_set, to_download. destruct totals. by destruct force. }
  intros Hcards.
  destruct ((read_state w).2) as [st|e|] eqn:Hst.
  - rewrite (download_set_readable _ _ _ _ _ _ _ _ _ st Hst Hcards).
    rewrite (download_set_held _ _ _ _ _ _ _ _ _ st) by done.
    destruct (pending st force S cards) as [|c rest] eqn:Hp.
    + exists st. cbn. repeat split; done.
    + set (to_download := c :: rest).
      cbn zeta. cbn [fst snd held tracker clock trace network disk with_tracker
                     StateTracker.hold StateTracker._state].
      eexists. split; [reflexivity|]. split; [done|]. split; [|split; [|split; done]].
      * intros S'.
        destruct (record_images_frame d
                    (download_batch (network w) (disk w)
                       ((λ c0, (c0, _get_best_image_url adapters c0)) <$> to_download)).1.2
                    S to_download st S' "") as (-> & -> & _). done.
      * intros S' C' Hor. by apply record_images_frame.
  - unfold download_set, to_download. destruct totals as [total_ok total_fail].
    destruct cards as [|c0 cards0]; [done|].
    rewrite read_state_result in Hst.
    destruct force.
    + cbn [and_then].
      destruct (download_batch _ _ _) as [[network' files] [ok fail]].
      unfold read_state. cbn [tracker].
      by destruct (StateTracker.state (tracker w)) as [[t st0]|e0|]; simplify_eq.
    + unfold read_state.
      by destruct (StateTracker.state (tracker w)) as [[t st0]|e0|]; simplify_eq.
  - unfold download_set, to_download. destruct totals as [total_ok total_fail].
    destruct cards as [|c0 cards0]; [done|].
    rewrite read_state_result in Hst.
    destruct force.
    + cbn [and_then].
      destruct (download_batch _ _ _) as [[network' files] [ok fail]].
      unfold read_state. cbn [tracker].
      by destruct (StateTracker.state (tracker w)) as [[t st0]|e0|]; simplify_eq.
    + unfold read_state.
      by destruct (StateTracker.state (tracker w)) as [[t st0]|e0|]; simplify_eq.
Qed.



(** ** scraper.py: the run as a whole *)

Lemma elem_of_dict_set {V} (key : string) (value : V) (d : list (string * V))
    (k : string) (v : V) :
  (k, v) ∈ dict_set key value d → (k, v) = (key, value) ∨ (k, v) ∈ d.
Proof.
  induction d as [|[k0 v0] d IH]; cbn.
  - intros ?%list_elem_of_singleton. by left.
  - destruct (String.eqb_spec k0 key) as [->|Hne].
    + intros [?|?]%elem_of_cons; [by left|right; by apply list_elem_of_further].
    + intros [->|Hin]%elem_of_cons; [right; apply list_elem_of_here|].
      destruct (IH Hin); [by left|right; by apply list_elem_of_further].
Qed.

Lemma dict_lookup_elem_of {V} (key : string) (d : list (string * V)) (v : V) :
  dict_lookup key d = Some v → (key, v) ∈ d.
Proof.
  induction d as [|[k0 v0] d IH]; cbn; [done|].
  destruct (String.eqb_spec k0 key) as [->|Hne].
  - intros [= ->]. apply list_elem_of_here.
  - intros H. apply list_elem_of_further. by apply IH.
Qed.

Lemma dict_lookup_is_Some {V} (key : string) (d : list (string * V)) :
  is_Some (dict_lookup key d) ↔ key ∈ d.*1.
Proof.
  induction d as [|[k v] d IH]; cbn.
  - split; [by intros [? ?]|by intros ?%elem_of_nil].
  - destruct (String.eqb_spec k key) as [->|Hne].
    + split; [intros _; apply list_elem_of_here|by eexists].
    + rewrite IH, elem_of_cons. naive_solver.
Qed.

Lemma extends_quietly_refl {Net} (w : Pipeline Net) : extends_quietly w w.
Proof. exists []. by rewrite app_nil_r. Qed.

Lemma extends_quietly_trans {Net} (w1 w2 w3 : Pipeline Net) :
  extends_quietly w1 w2 → extends_quietly w2 w3 → extends_quietly w1 w3.
Proof.
  intros (e1 & H1 & Hq1) (e2 & H2 & Hq2). exists (e1 ++ e2)%list.
  rewrite H2, H1, <- app_assoc. split; [done|]. by apply Forall_app.
Qed.

Lemma extends_quietly_emit {Net} (events : list event) (w : Pipeline Net) :
  Forall (λ e, writes_output e = false) events → extends_quietly w (emit events w).
Proof. intros H. by exists events. Qed.

Lemma extends_quietly_same_trace {Net} (w w' : Pipeline Net) :
  trace w' = trace w → extends_quietly w w'.
Proof. intros H. exists []. by rewrite app_nil_r. Qed.

Lemma readable_held {Net} (w : Pipeline Net) (st : ScrapeState.t) :
  held w = Some st → readable w.
Proof. intros H. exists st. by rewrite (read_state_held w st H). Qed.

Lemma readable_same_tracker {Net} (w w' : Pipeline Net) :
  tracker w' = tracker w → readable w → readable w'.
Proof. intros H [st Hst]. exists st. by rewrite (read_state_same_tracker w' w H). Qed.

Section RunFacts.
Context (Net : Type)
  (download_batch : Net → FS → list (CardDataBase.t * string) → Net * FS * (nat * nat))
  (now : nat → string).

(** One round of the fetch loop writes nothing, keeps the table of fetched
    cards in order, and goes through when the tracker gives a state. *)
Lemma fetch_set_keeps (adapters : list Adapter.t) (force : bool) (w : Pipeline Net)
    (all_cards : list (string * list CardDataBase.t)) (set_info : SetInfo.t) :
  let out := fetch_set Net now adapters force w all_cards set_info in
  fetched_ok all_cards →
  extends_quietly w out.1
  ∧ (∀ table, out.2 = Done table → fetched_ok table)
  ∧ (readable w → readable out.1 ∧ ∃ table, out.2 = Done table).
Proof.
  intros out Hok. subst out. unfold fetch_set.
  pose proof (fetch_cards_NoDup adapters (SetInfo.id set_info) force) as Hnd.
  pose proof (fetch_cards_calls adapters (SetInfo.id set_info) force) as Hcalls.
  destruct (_fetch_cards adapters (SetInfo.id set_info) force) as [cards calls].
  cbn [fst snd] in *.
  assert (Forall (λ e, writes_output e = false) calls) as Hquiet.
  { eapply Forall_impl; [exact Hcalls|]. by intros e [a ->]. }
  destruct cards as [|c cards].
  - cbn [fst snd]. split; [by apply extends_quietly_emit|]. split.
    + by intros table [= <-].
    + intros Hread. split; [by apply (readable_same_tracker w)|by eexists].
  - destruct (read_state_cases (emit calls w)) as [[st Hst] | [[e Hst] | Hst]];
      rewrite Hst; cbn [and_then fst snd].
    + split; [by exists calls|]. split.
      * intros table [= <-]. intros k v [[= -> ->]|Hin]%elem_of_dict_set; [done|].
        by apply (Hok k v).
      * intros _. split; [by eapply readable_held|by eexists].
    + split; [by apply extends_quietly_emit|]. split; [done|].
      intros [st Hread]. rewrite (read_state_same_tracker w (emit calls w)) in Hread by done.
      by rewrite Hst in Hread.
    + split; [by apply extends_quietly_emit|]. split; [done|].
      intros [st Hread]. rewrite (read_state_same_tracker w (emit calls w)) in Hread by done.
      by rewrite Hst in Hread.
Qed.

Lemma fetch_stage_keeps (adapters : list Adapter.t) (force : bool) (sets : list SetInfo.t)
    (w : Pipeline Net) (all_cards : list (string * list CardDataBase.t)) :
  let out := for_each_step (fetch_set Net now adapters force) sets w all_cards in
  fetched_ok all_cards →
  extends_quietly w out.1
  ∧ (∀ table, out.2 = Done table → fetched_ok table)
  ∧ (readable w → readable out.1 ∧ ∃ table, out.2 = Done table).
Proof.
  revert w all_cards. induction sets as [|s sets IH]; intros w all_cards out Hok; subst out.
  - cbn. split; [apply extends_quietly_refl|]. split; [by intros ? [= <-]|].
    intros ?. split; [done|by eexists].
  - cbn [for_each_step].
    destruct (fetch_set_keeps adapters force w all_cards s Hok) as (Hext & Hok' & Hread).
    destruct (fetch_set Net now adapters force w all_cards s) as [w1 [table1|e|]] eqn:Hround;
      cbn [and_then fst snd] in *.
    + destruct (IH w1 table1 (Hok' _ eq_refl)) as (Hext2 & Hok2 & Hread2).
      split; [by eapply extends_quietly_trans|]. split; [done|].
      intros Hr. apply Hread2. by apply Hread.
    + split; [done|]. split; [done|].
      intros Hr. destruct (Hread Hr) as [_ [? ?]]. done.
    + split; [done|]. split; [done|].
      intros Hr. destruct (Hread Hr) as [_ [? ?]]. done.
Qed.

(** One round of the download loop writes nothing, and goes through when
    the tracker gives a state. *)
Lemma download_set_keeps (adapters : list Adapter.t) (d : ImageDownloader.t) (force : bool)
    (w : Pipeline Net) (totals : nat * nat) (item : string * list CardDataBase.t) :
  let out := download_set Net download_batch adapters d force w totals item in
  extends_quietly w out.1
  ∧ (readable w → readable out.1 ∧ ∃ totals', out.2 = Done totals').
Proof.
  intros out. subst out. destruct item as [S cards].
  destruct (decide (cards = [])) as [->|Hcards].
  { unfold download_set, to_download. destruct totals.
    assert (∀ f : bool, (if f then (w, Done (@nil CardDataBase.t)) else (w, Done [])) = (w, Done []))
      as -> by (by intros []).
    cbn. split; [apply extends_quietly_refl|]. intros ?. split; [done|by eexists]. }
  assert (extends_quietly w
            (download_set Net download_batch adapters d force w totals (S, cards)).1) as Hext.
  { unfold download_set, to_download. destruct totals as [total_ok total_fail].
    destruct cards as [|c0 cards0]; [done|].
    assert (∀ (w1 : Pipeline Net) (l : list CardDataBase.t), extends_quietly w w1 →
              extends_quietly w
                (match l with
                 | [] => (w1, Done (total_ok, total_fail))
                 | _ :: _ =>
                     let jobs := (λ c, (c, _get_best_image_url adapters c)) <$> l in
                     let '(network', files, (ok, fail)) :=
                       download_batch (network w1) (disk w1) jobs in
                     and_then
                       (read_state (mkPipeline (tracker w1) files network' (clock w1)
                                      (trace w1 ++ [DownloadBatch S jobs])))
                       (λ w2 st, (hold (foldl (record_image d files S) st l) w2,
                                  Done (total_ok + ok, total_fail + fail)))
                 end).1) as Hbody.
    { intros w1 l Hw1. destruct l as [|c rest]; [done|]. cbn zeta.
      destruct (download_batch _ _ _) as [[network' files] [ok fail]].
      eapply extends_quietly_trans; [exact Hw1|].
      match goal with |- context [read_state ?x] =>
        destruct (read_state_cases x) as [[st Hst] | [[e Hst] | Hst]]; rewrite Hst end;
        cbn [and_then fst]; eexists; (split; [reflexivity|by repeat constructor]). }
    destruct force.
    - cbn [and_then]. apply (Hbody w (c0 :: cards0)). apply extends_quietly_refl.
    - destruct (read_state_cases w) as [[st Hst] | [[e Hst] | Hst]]; rewrite Hst;
        cbn [and_then fst]; try apply extends_quietly_refl.
      apply Hbody. by apply extends_quietly_same_trace. }
  split; [exact Hext|].
  intros [st Hst]. rewrite (download_set_readable _ _ _ _ _ _ _ _ _ st Hst Hcards).
  rewrite (download_set_held _ _ _ _ _ _ _ _ _ st) by done.
  destruct (pending st force S cards) as [|c rest].
  - split; [by eapply readable_held|by eexists].
  - cbn zeta. split; [by eapply readable_held|by eexists].
Qed.

Lemma download_stage_keeps (adapters : list Adapter.t) (d : ImageDownloader.t) (force : bool)
    (items : list (string * list CardDataBase.t)) (w : Pipeline Net) (totals : nat * nat) :
  let out := for_each_step (download_set Net download_batch adapters d force) items w totals in
  extends_quietly w out.1
  ∧ (readable w → readable out.1 ∧ ∃ totals', out.2 = Done totals').
Proof.
  revert w totals. induction items as [|item items IH]; intros w totals out; subst out.
  - cbn. split; [apply extends_quietly_refl|]. intros ?. split; [done|by eexists].
  - cbn [for_each_step].
    destruct (download_set_keeps adapters d force w totals item) as (Hext & Hread).
    destruct (download_set Net download_batch adapters d force w totals item)
      as [w1 [totals1|e|]] eqn:Hround; cbn [and_then fst snd] in *.
    + destruct (IH w1 totals1) as (Hext2 & Hread2).
      split; [by eapply extends_quietly_trans|].
      intros Hr. apply Hread2. by apply Hread.
    + split; [done|]. intros Hr. destruct (Hread Hr) as [_ [? ?]]. done.
    + split; [done|]. intros Hr. destruct (Hread Hr) as [_ [? ?]]. done.
Qed.



(** The stages of a run that found sets, up to the manifest stage: they
    write neither a manifest nor the state; either one of them ends the run
    with an exception, or the run goes on to the manifest stage with a
    table of fetched cards that holds non-empty lists of cards with
    distinct ids, which it does whenever the tracker gives a state. *)
Lemma run_stages (config : AppConfig.t) (adapters : list Adapter.t) (d : ImageDownloader.t)
    (force : bool) (set_filter : option (list string)) (w0 : Pipeline Net)
    (discovered : list SetInfo.t) :
  (_discover_sets config adapters).1 = Return discovered →
  discovered ≠ [] →
  let out := run Net download_batch now config adapters d force set_filter w0 in
  ∃ wmid,
    extends_quietly w0 wmid
    ∧ (out = (wmid, Untyped) ∨ (∃ e, out = (wmid, Raised e))
       ∨ ∃ all_sets all_cards,
           fetched_ok all_cards ∧ out = finish config all_sets all_cards wmid)
    ∧ (readable (after_force force w0) →
       readable wmid
       ∧ ∃ all_sets all_cards,
           fetched_ok all_cards ∧ out = finish config all_sets all_cards wmid).
Proof.
  intros Hdisc Hsome out. subst out. unfold run.
  destruct (_discover_sets config adapters) as [found calls] eqn:Hd. cbn [fst] in Hdisc.
  subst found. destruct discovered as [|s0 rest]; [done|].
  set (discovered := s0 :: rest).
  set (filter_ids := py_or set_filter (AppConfig.set_filter config)).
  set (all_sets := apply_filter filter_ids discovered).
  set (w1 := emit [Print (filter_message filter_ids all_sets); Print MsgFetching]
               (emit calls (emit [Print (MsgDiscovering (AppConfig.game config))]
                              (after_force force w0)))).
  assert (Forall (λ e, writes_output e = false) calls) as Hcalls.
  { pose proof (discover_sets_calls config adapters) as Hc. rewrite Hd in Hc.
    cbn [snd] in Hc. subst calls. apply Forall_fmap, Forall_forall. done. }
  assert (extends_quietly w0 w1) as Hext1.
  { eapply extends_quietly_trans; [|apply extends_quietly_emit; by repeat constructor].
    eapply extends_quietly_trans; [|by apply extends_quietly_emit].
    eapply extends_quietly_trans; [|apply extends_quietly_emit; by repeat constructor].
    unfold after_force. destruct force; [|apply extends_quietly_refl].
    eexists. split; [reflexivity|]. by repeat constructor. }
  assert (readable (after_force force w0) → readable w1) as Hread1.
  { by apply readable_same_tracker. }
  destruct (fetch_stage_keeps adapters force all_sets w1 [])
    as (Hext2 & Hok2 & Hread2); [by intros ?? ?%elem_of_nil|].
  destruct (for_each_step (fetch_set Net now adapters force) all_sets w1 [])
    as [w2 [all_cards|e|]] eqn:Hfetch; cbn [and_then fst snd] in *.
  2:{ exists w2. split; [by apply (extends_quietly_trans w0 w1)|].
      split; [right; left; by eexists|].
      intros Hr. destruct (Hread2 (Hread1 Hr)) as [_ [? ?]]. done. }
  2:{ exists w2. split; [by apply (extends_quietly_trans w0 w1)|]. split; [by left|].
      intros Hr. destruct (Hread2 (Hread1 Hr)) as [_ [? ?]]. done. }
  set (w3 := emit _ w2).
  assert (extends_quietly w0 w3) as Hext3.
  { apply (extends_quietly_trans w0 w2); [by apply (extends_quietly_trans w0 w1)|].
    apply extends_quietly_emit; by repeat constructor. }
  destruct (download_stage_keeps adapters d force all_cards w3 (0, 0)) as (Hext4 & Hread4).
  destruct (for_each_step (download_set Net download_batch adapters d force) all_cards w3 (0, 0))
    as [w4 [totals|e|]] eqn:Hdl; cbn [and_then fst snd] in *.
  2:{ exists w4. split; [by apply (extends_quietly_trans w0 w3)|].
      split; [right; left; by eexists|].
      intros Hr. destruct Hread4 as [_ [? ?]]; [|done].
      apply (readable_same_tracker w2); [done|]. by apply Hread2, Hread1. }
  2:{ exists w4. split; [by apply (extends_quietly_trans w0 w3)|].
      split; [by left|].
      intros Hr. destruct Hread4 as [_ [? ?]]; [|done].
      apply (readable_same_tracker w2); [done|]. by apply Hread2, Hread1. }
  exists (emit [Print (MsgImages totals.1 totals.2); Print MsgGenerating] w4).
  assert (fetched_ok all_cards) as Hok by (by apply Hok2).
  split; [|split].
  - apply (extends_quietly_trans w0 w4); [by apply (extends_quietly_trans w0 w3)|].
    apply extends_quietly_emit; by repeat constructor.
  - right. right. by exists all_sets, all_cards.
  - intros Hr. split; [|by exists all_sets, all_cards].
    apply (readable_same_tracker w4); [done|]. apply Hread4.
    apply (readable_same_tracker w2); [done|]. by apply Hread2, Hread1.
Qed.

(** The manifest stage and the save: without generators for the game the
    run raises before it writes anything; with them it emits the root
    manifest and a manifest for every set with cards, and then saves the
    state the tracker gives, or ends with the exception of its load. *)
Lemma finish_cases (config : AppConfig.t) (all_sets : list SetInfo.t)
    (all_cards : list (string * list CardDataBase.t)) (w : Pipeline Net) :
  let out := finish config all_sets all_cards w in
  let sets_with_cards := List.filter (λ s, dict_has (SetInfo.id s) all_cards) all_sets in
  let manifests :=
    (GenRoot sets_with_cards
       :: ((λ s, GenSet s (default [] (dict_lookup (SetInfo.id s) all_cards)))
             <$> sets_with_cards))%list in
  (∃ e, _get_manifest_generators (AppConfig.game config) = Raise e ∧ out = (w, Raised e))
  ∨ (_get_manifest_generators (AppConfig.game config) = Return tt
     ∧ ((∃ st, (read_state w).2 = Done st
               ∧ out = (emit (manifests ++ [SaveState st; Print MsgComplete])
                          (with_tracker (StateTracker.mk (Some st) (saved_file st)) w),
                        Done tt))
        ∨ (∃ e, (read_state w).2 = Raised e ∧ out = (emit manifests w, Raised e))
        ∨ ((read_state w).2 = Untyped ∧ out = (emit manifests w, Untyped)))).
Proof.
  intros out sets_with_cards manifests. subst out. unfold finish.
  destruct (_get_manifest_generators (AppConfig.game config)) as [[]|e];
    [right; split; [done|]|left; by eexists].
  fold sets_with_cards. rewrite emit_emit. change ([GenRoot sets_with_cards] ++ _)%list
    with manifests.
  unfold save_state, StateTracker.save. rewrite tracker_emit, read_state_result.
  destruct (StateTracker.state (tracker w)) as [[t st]|e|]; cbn [and_then].
  - left. exists st. split; [done|]. by rewrite with_tracker_emit, !emit_emit.
  - right. left. by exists e.
  - right. right. done.
Qed.
End RunFacts.

Section RunProperties.
Context (Net : Type)
  (download_batch : Net → FS → list (CardDataBase.t * string) → Net * FS * (nat * nat))
  (now : nat → string).

Lemma after_force_quiet (force : bool) (w0 : Pipeline Net) :
  extends_quietly w0 (after_force force w0).
Proof.
  unfold after_force. destruct force; [|apply extends_quietly_refl].
  eexists. split; [reflexivity|]. by repeat constructor.
Qed.

(** Where nothing was written since, every manifest and every save in the
    events was there before. *)
Lemma extends_quietly_output (w w' : Pipeline Net) (e : event) :
  extends_quietly w w' → writes_output e = true → e ∈ trace w' → e ∈ trace w.
Proof.
  intros (events & -> & Hquiet) He [Hin|Hin]%elem_of_app; [done|].
  apply (proj1 (Forall_forall _ _) Hquiet) in Hin. congruence.
Qed.

Lemma extends_quietly_saves (w w' : Pipeline Net) :
  extends_quietly w w' →
  ∃ events, trace w' = (trace w ++ events)%list ∧ Forall (λ e, ∀ st, e ≠ SaveState st) events.
Proof.
  intros (events & -> & Hquiet). exists events. split; [done|].
  eapply Forall_impl; [exact Hquiet|]. intros e He st ->. done.
Qed.


(** X19. One save, at the very end: for the game mtg, when discovery found
    sets and the tracker gives a state when it is used (it holds one, or
    force has reset it, or the state file loads), the run returns normally;
    the events it adds end with the save of the state the run ends in,
    followed only by the completion message, and there is no other save
    among them; and the state file then holds the document of that state,
    from which a new tracker reads that state. *)
Theorem run_saves_once_at_the_end (config : AppConfig.t) (adapters : list Adapter.t)
    (d : ImageDownloader.t) (force : bool) (set_filter : option (list string))
    (w0 : Pipeline Net) :
  let out := run Net download_batch now config adapters d force set_filter w0 in
  (_discover_sets config adapters).1 ≠ Return [] →
  AppConfig.game config = "mtg" →
  readable (after_force force w0) →
  out.2 = Done tt
  ∧ ∃ before st,
      held out.1 = Some st
      ∧ StateTracker.file (tracker out.1) = saved_file st
      ∧ StateTracker.state (StateTracker.new (StateTracker.file (tracker out.1)))
        = Done (tracker out.1, st)
      ∧ trace out.1 = (trace w0 ++ before ++ [SaveState st; Print MsgComplete])%list
      ∧ Forall (λ e, ∀ st, e ≠ SaveState st) before.
Proof.
  intros out Hsome Hgame Hread. subst out.
  assert (AppConfig.game config ≠ "onepiece") as Hother by (by rewrite Hgame).
  pose proof (discover_sets_spec config adapters Hother) as Hdisc.
  rewrite Hdisc in Hsome. cbn [fst] in Hsome.
  destruct (run_stages Net download_batch now config adapters d force set_filter w0
              (sorted_by_id (first_occurrences SetInfo.id (returned_sets adapters))))
    as (wmid & Hext & _ & Hgo); [by rewrite Hdisc|congruence|].
  destruct (Hgo Hread) as ([st Hst] & all_sets & all_cards & _ & ->).
  destruct (finish_cases Net config all_sets all_cards wmid)
    as [(e & Hgen & _)|(_ & [(st' & Hst' & ->)|[(e & He & _)|(Hu & _)]])].
  - rewrite Hgame in Hgen. done.
  - cbn [fst snd]. split; [done|].
    destruct (extends_quietly_saves _ _ Hext) as (before & Htr & Hnone).
    match goal with
    | |- context [emit (?manifests ++ [SaveState _; _])%list _] =>
        exists (before ++ manifests)%list, st'
    end.
    split; [done|]. split; [done|]. split; [apply tracker_reads_saved_file|]. split.
    + unfold emit. cbn [trace with_tracker]. by rewrite Htr, <- !app_assoc.
    + apply Forall_app. split; [done|]. constructor; [done|].
      apply Forall_fmap, Forall_forall. by intros s _ st0.
  - rewrite Hst in He. done.
  - rewrite Hst in Hu. done.
Qed.

(** X20. Every set manifest a run generates is for a non-empty list of
    cards with pairwise distinct ids, and the set it is generated for is
    listed in the root manifest of that run; this holds of every run,
    however it ends. *)
Theorem run_set_manifests_have_distinct_cards (config : AppConfig.t)
    (adapters : list Adapter.t) (d : ImageDownloader.t) (force : bool)
    (set_filter : option (list string)) (w0 : Pipeline Net)
    (set_info : SetInfo.t) (cards : list CardDataBase.t) :
  let out := run Net download_batch now config adapters d force set_filter w0 in
  GenSet set_info cards ∈ trace out.1 →
  GenSet set_info cards ∈ trace w0
  ∨ (cards ≠ [] ∧ NoDup (CardDataBase.id <$> cards)
     ∧ ∃ sets, GenRoot sets ∈ trace out.1 ∧ set_info ∈ sets).
Proof.
  intros out Hin. subst out.
  assert (∀ w, extends_quietly w0 w → GenSet set_info cards ∈ trace w →
               GenSet set_info cards ∈ trace w0) as Hold.
  { intros w Hext. by apply extends_quietly_output. }
  assert (Forall (λ e, writes_output e = false) (_discover_sets config adapters).2) as Hcalls.
  { rewrite discover_sets_calls. apply Forall_fmap, Forall_forall. done. }
  destruct ((_discover_sets config adapters).1) as [[|s0 rest]|e] eqn:Hdisc.
  - left. rewrite (run_no_sets_returns_early _ _ _ _ _ _ _ _ _ Hdisc) in Hin.
    cbn [fst] in Hin. revert Hin. apply Hold.
    eapply extends_quietly_trans; [apply after_force_quiet|].
    apply extends_quietly_emit. apply Forall_app. split; [by repeat constructor|].
    apply Forall_app. split; [done|by repeat constructor].
  - destruct (run_stages Net download_batch now config adapters d force set_filter w0
                (s0 :: rest) Hdisc) as (wmid & Hext & Hcases & _); [done|].
    destruct Hcases as [Hrun|[[e Hrun]|(all_sets & all_cards & Hok & Hrun)]];
      rewrite Hrun in Hin; [left; by apply (Hold wmid)..|].
    rewrite Hrun.
    set (sets_with_cards := List.filter (λ s, dict_has (SetInfo.id s) all_cards) all_sets).
    assert (GenSet set_info cards
              ∈ (GenRoot sets_with_cards
                   :: ((λ s, GenSet s (default [] (dict_lookup (SetInfo.id s) all_cards)))
                         <$> sets_with_cards))%list →
            cards ≠ [] ∧ NoDup (CardDataBase.id <$> cards) ∧ set_info ∈ sets_with_cards)
      as Hnew.
    { intros [?|Hs]%elem_of_cons; [done|].
      apply list_elem_of_fmap in Hs as (s & [= -> ->] & Hs).
      split; [|split; [|done]];
        apply list_elem_of_In, filter_In in Hs as [Hs Hhas];
        unfold dict_has in Hhas; apply bool_decide_eq_true_1 in Hhas;
        apply dict_lookup_is_Some in Hhas as [v Hv]; rewrite Hv; cbn;
        by destruct (Hok _ _ (dict_lookup_elem_of _ _ _ Hv)). }
    destruct (finish_cases Net config all_sets all_cards wmid)
      as [(e & _ & Hfin)|(_ & [(st & _ & Hfin)|[(e & _ & Hfin)|(_ & Hfin)]])];
      rewrite Hfin in Hin |- *; cbn [fst] in *; fold sets_with_cards in Hin |- *.
    + left. by apply (Hold wmid).
    + unfold emit in Hin |- *. cbn [trace with_tracker] in Hin |- *.
      rewrite !elem_of_app in Hin. destruct Hin as [Hin|[Hin|Hin]].
      * left. by apply (Hold wmid).
      * right. destruct (Hnew Hin) as (? & ? & ?). split; [done|]. split; [done|].
        exists sets_with_cards. split; [|done].
        rewrite !elem_of_app. right. left. apply list_elem_of_here.
      * apply elem_of_cons in Hin as [?|Hin]; [done|].
        by apply list_elem_of_singleton in Hin.
    + unfold emit in Hin |- *. cbn [trace] in Hin |- *.
      rewrite elem_of_app in Hin. destruct Hin as [Hin|Hin].
      * left. by apply (Hold wmid).
      * right. destruct (Hnew Hin) as (? & ? & ?). split; [done|]. split; [done|].
        exists sets_with_cards. split; [|done].
        rewrite elem_of_app. right. apply list_elem_of_here.
    + unfold emit in Hin |- *. cbn [trace] in Hin |- *.
      rewrite elem_of_app in Hin. destruct Hin as [Hin|Hin].
      * left. by apply (Hold wmid).
      * right. destruct (Hnew Hin) as (? & ? & ?). split; [done|]. split; [done|].
        exists sets_with_cards. split; [|done].
        rewrite elem_of_app. right. apply list_elem_of_here.
  - left. rewrite (run_discovery_raises _ _ _ _ _ _ _ _ _ _ Hdisc) in Hin.
    cbn [fst] in Hin. revert Hin. apply Hold.
    eapply extends_quietly_trans; [apply after_force_quiet|].
    apply extends_quietly_emit. apply Forall_app. split; [by repeat constructor|done].
Qed.

(** X21. All sources down at discovery: for a game other than onepiece,
    when every adapter raises or returns no set, the run calls each
    adapter's set listing, prints that no sets were found and returns
    normally; it fetches, downloads, writes and saves nothing, and the
    tracker is as the force switch left it: its state is not even
    loaded. *)
Theorem run_without_sets_does_nothing (config : AppConfig.t) (adapters : list Adapter.t)
    (d : ImageDownloader.t) (force : bool) (set_filter : option (list string))
    (w0 : Pipeline Net) :
  Forall (λ a, Adapter.list_sets a = Return [] ∨ ∃ e, Adapter.list_sets a = Raise e)
         adapters →
  AppConfig.game config ≠ "onepiece" →
  run Net download_batch now config adapters d force set_filter w0
  = (emit ([Print (MsgDiscovering (AppConfig.game config))]
             ++ ((λ a, ListSets (Adapter.name a)) <$> adapters)
             ++ [Print MsgNoSets])
          (after_force force w0),
     Done tt).
Proof.
  intros Hdown Hgame.
  assert (returned_sets adapters = []) as Hret.
  { unfold returned_sets. induction Hdown as [|a rest Ha _ IH]; [done|].
    cbn. rewrite IH. by destruct Ha as [->|[e ->]]. }
  rewrite run_no_sets_returns_early.
  - by rewrite discover_sets_calls.
  - by rewrite discover_sets_spec, Hret.
Qed.
End RunProperties.


Lemma run_saves_once_at_the_end_witness :
  (Sample.go "mtg" [Sample.adapter]).2 = Done tt
  ∧ List.filter writes_output (trace (Sample.go "mtg" [Sample.adapter]).1)
    = [GenRoot [Sample.mkm]; GenSet Sample.mkm [Sample.c1; Sample.c2];
       SaveState (default ScrapeState.empty (held (Sample.go "mtg" [Sample.adapter]).1))]
  ∧ StateTracker.file (tracker (Sample.go "mtg" [Sample.adapter]).1)
    = saved_file (default ScrapeState.empty (held (Sample.go "mtg" [Sample.adapter]).1)).
Proof.
  destruct (run_saves_once_at_the_end unit Sample.batch Sample.clock_text
              (Sample.config "mtg") [Sample.adapter] (ImageDownloader.new "out")
              false None Sample.start) as [H1 _].
  - vm_compute. discriminate.
  - reflexivity.
  - exists ScrapeState.empty. vm_compute. reflexivity.
  - split; [exact H1|]. split; vm_compute; reflexivity.
Defined.

Lemma run_set_manifests_have_distinct_cards_witness :
  GenSet Sample.mkm [Sample.c1; Sample.c2] ∈ trace (Sample.go "mtg" [Sample.adapter]).1
  ∧ NoDup (CardDataBase.id <$> [Sample.c1; Sample.c2]).
Proof.
  assert (GenSet Sample.mkm [Sample.c1; Sample.c2]
          ∈ trace (Sample.go "mtg" [Sample.adapter]).1) as Hin.
  { apply list_elem_of_In. vm_compute.
    repeat (first [left; reflexivity | right]). }
  split; [exact Hin|].
  destruct (run_set_manifests_have_distinct_cards unit Sample.batch Sample.clock_text
              (Sample.config "mtg") [Sample.adapter] (ImageDownloader.new "out")
              false None Sample.start Sample.mkm [Sample.c1; Sample.c2] Hin)
    as [Hold|(_ & Hnd & _)].
  - by apply elem_of_nil in Hold.
  - exact Hnd.
Defined.

Lemma run_without_sets_does_nothing_witness :
  Sample.go "mtg" [Sample.down]
  = (mkPipeline (StateTracker.new None) ∅ tt 0
       [Print (MsgDiscovering "mtg"); ListSets "mtgjson"; Print MsgNoSets],
     Done tt).
Proof.
  unfold Sample.go. rewrite run_without_sets_does_nothing.
  - reflexivity.
  - constructor; [right; by eexists|constructor].
  - discriminate.
Defined.

(** ** config.py: the enabled sources *)

Lemma insert_by_priority_perm (s : SourceConfig.t) (l : list SourceConfig.t) :
  GameConfig.insert_by_priority s l ≡ₚ s :: l.
Proof.
  induction l as [|x l IH]; cbn; [done|].
  destruct (SourceConfig.priority x <? SourceConfig.priority s)%Z; [|done].
  rewrite IH. apply Permutation_swap.
Qed.

Lemma sorted_by_priority_perm (l : list SourceConfig.t) : GameConfig.sorted_by_priority l ≡ₚ l.
Proof.
  induction l as [|x l IH]; cbn; [done|].
  fold (GameConfig.sorted_by_priority l). by rewrite insert_by_priority_perm, IH.
Qed.

Lemma insert_by_priority_sorted (s : SourceConfig.t) (l : list SourceConfig.t) :
  StronglySorted priority_le l → StronglySorted priority_le (GameConfig.insert_by_priority s l).
Proof.
  induction l as [|x l IH]; intros Hs; cbn.
  - repeat constructor.
  - apply StronglySorted_inv in Hs as [Hl Hx].
    destruct (SourceConfig.priority x <? SourceConfig.priority s)%Z eqn:Hlt.
    + constructor; [by apply IH|]. rewrite insert_by_priority_perm.
      constructor; [|done]. apply Z.ltb_lt in Hlt. unfold priority_le. lia.
    + apply Z.ltb_ge in Hlt. constructor; [by constructor|].
      constructor; [done|]. eapply Forall_impl; [exact Hx|].
      unfold priority_le. intros z Hz. lia.
Qed.

Lemma sorted_by_priority_sorted (l : list SourceConfig.t) :
  StronglySorted priority_le (GameConfig.sorted_by_priority l).
Proof.
  induction l as [|x l IH]; cbn; [constructor|].
  fold (GameConfig.sorted_by_priority l). by apply insert_by_priority_sorted.
Qed.

Lemma insert_by_priority_filter (p : Z) (s : SourceConfig.t) (l : list SourceConfig.t) :
  List.filter (λ x, SourceConfig.priority x =? p)%Z (GameConfig.insert_by_priority s l)
  = List.filter (λ x, SourceConfig.priority x =? p)%Z (s :: l).
Proof.
  induction l as [|x l IH]; [done|]. cbn [GameConfig.insert_by_priority].
  destruct (SourceConfig.priority x <? SourceConfig.priority s)%Z eqn:Hlt; [|done].
  apply Z.ltb_lt in Hlt. cbn [List.filter] in *. rewrite IH.
  destruct (Z.eqb_spec (SourceConfig.priority s) p) as [Hs|Hs];
    destruct (Z.eqb_spec (SourceConfig.priority x) p) as [Hx|Hx]; try done. lia.
Qed.

Lemma sorted_by_priority_filter (p : Z) (l : list SourceConfig.t) :
  List.filter (λ x, SourceConfig.priority x =? p)%Z (GameConfig.sorted_by_priority l)
  = List.filter (λ x, SourceConfig.priority x =? p)%Z l.
Proof.
  induction l as [|x l IH]; [done|]. cbn [GameConfig.sorted_by_priority foldr].
  fold (GameConfig.sorted_by_priority l). rewrite insert_by_priority_filter.
  cbn [List.filter]. by rewrite IH.
Qed.

Lemma filter_filter_andb {A} (f g : A → bool) (l : list A) :
  List.filter g (List.filter f l) = List.filter (λ x, f x && g x) l.
Proof.
  induction l as [|x l IH]; [done|]. cbn. destruct (f x); cbn; [|done].
  destruct (g x); by rewrite IH.
Qed.

(** X22. The enabled sources of a game are the sources that are enabled,
    each as often as it is declared, in ascending order of priority; sources
    of equal priority keep their declaration order. *)
Theorem enabled_sources_sorted_and_stable (gc : GameConfig.t) :
  GameConfig.enabled_sources gc ≡ₚ List.filter SourceConfig.enabled (GameConfig.sources gc)
  ∧ StronglySorted priority_le (GameConfig.enabled_sources gc)
  ∧ ∀ p : Z,
      List.filter (λ s, SourceConfig.priority s =? p)%Z (GameConfig.enabled_sources gc)
      = List.filter (λ s, SourceConfig.enabled s && (SourceConfig.priority s =? p)%Z)
                    (GameConfig.sources gc).
Proof.
  unfold GameConfig.enabled_sources. split; [apply sorted_by_priority_perm|].
  split; [apply sorted_by_priority_sorted|].
  intros p. by rewrite sorted_by_priority_filter, filter_filter_andb.
Qed.

(** The default configuration and one with a tie. *)
Example enabled_sources_example :
  let src n e p := SourceConfig.mk n e p 200 None 24 "normal" in
  SourceConfig.name <$>
    GameConfig.enabled_sources
      (GameConfig.mk [src "c" true 3%Z; src "a" true 1%Z; src "x" false 0%Z;
                      src "b" true 1%Z; src "d" true 2%Z]
                     (ScrapeConfig.mk "all" None true false))
  = ["a"; "b"; "d"; "c"].
Proof. vm_compute. reflexivity. Qed.

(** ** config.py and adapters.py: validation and the registry *)

Lemma length_remove_dups (l : list string) :
  (length (remove_dups l) ≤ length l)%nat
  ∧ (length (remove_dups l) = length l ↔ NoDup l).
Proof.
  induction l as [|x l [IHle IHiff]]; cbn.
  - split; [lia|]. split; [constructor|done].
  - destruct (decide_rel elem_of x l) as [Hin|Hnot]; cbn.
    + split; [lia|]. split; [lia|]. intros [? _]%NoDup_cons. done.
    + split; [lia|]. rewrite NoDup_cons. split.
      * intros H. split; [done|]. apply IHiff. lia.
      * intros [_ H]. f_equal. by apply IHiff.
Qed.

(** The registry answers for exactly the names [known_adapters] lists. *)
Lemma known_adapter_registered (game name : string) :
  name ∈ known_adapters game ↔ ∃ qualified, get_adapter_class game name = inr qualified.
Proof.
  unfold known_adapters, get_adapter_class.
  destruct (dict_lookup game _ADAPTER_REGISTRY) as [game_adapters|].
  - change (default [] (Some game_adapters)) with game_adapters.
    rewrite elem_of_list_to_set, <- dict_lookup_is_Some.
    destruct (dict_lookup name game_adapters) as [q|].
    + split; [by eexists|by eexists].
    + split; [by intros [? ?]|by intros [? ?]].
  - change (default [] None) with (@nil (string * string)).
    rewrite elem_of_list_to_set. split; [by intros ?%elem_of_nil|by intros [? ?]].
Qed.

Lemma find_none_iff {A} (f : A → bool) (l : list A) :
  List.find f l = None ↔ ∀ x, x ∈ l → f x = false.
Proof.
  split.
  - intros H x Hx. apply (find_none f l H). by apply list_elem_of_In.
  - intros H. destruct (List.find f l) as [x|] eqn:Hf; [|done].
    apply find_some in Hf as [Hin Hx]. rewrite H in Hx; [done|by apply list_elem_of_In].
Qed.

Lemma enabled_sources_nonempty (gc : GameConfig.t) :
  GameConfig.enabled_sources gc ≠ []
  ↔ ∃ src, src ∈ GameConfig.sources gc ∧ SourceConfig.enabled src = true.
Proof.
  unfold GameConfig.enabled_sources. split.
  - intros Hne.
    destruct (GameConfig.sorted_by_priority _) as [|src rest] eqn:Hs; [done|].
    assert (src ∈ GameConfig.sorted_by_priority
                    (List.filter SourceConfig.enabled (GameConfig.sources gc))) as Hin
      by (rewrite Hs; apply list_elem_of_here).
    rewrite sorted_by_priority_perm in Hin.
    apply list_elem_of_In, filter_In in Hin as [Hin Hen].
    exists src. split; [by apply list_elem_of_In|done].
  - intros (src & Hin & Hen) Hnil.
    assert (src ∈ GameConfig.sorted_by_priority
                    (List.filter SourceConfig.enabled (GameConfig.sources gc))) as Hs.
    { rewrite sorted_by_priority_perm. apply list_elem_of_In, filter_In.
      split; [by apply list_elem_of_In|done]. }
    rewrite Hnil in Hs. by apply elem_of_nil in Hs.
Qed.

Lemma validate_config_accepts (config : Config.t) :
  _validate_config config = None
  ↔ ∃ game_cfg,
      dict_lookup (Config.game config) (Config.games config) = Some game_cfg
      ∧ GameConfig.sources game_cfg ≠ []
      ∧ NoDup (SourceConfig.name <$> GameConfig.sources game_cfg)
      ∧ (∀ src, src ∈ GameConfig.sources game_cfg →
                SourceConfig.name src ∈ known_adapters (Config.game config))
      ∧ ∃ src, src ∈ GameConfig.sources game_cfg ∧ SourceConfig.enabled src = true.
Proof.
  unfold _validate_config.
  destruct (dict_lookup (Config.game config) (Config.games config)) as [gc|];
    [|split; [done|by intros (? & ? & _)]].
  destruct (GameConfig.sources gc) as [|s0 rest] eqn:Hsrc;
    [split; [done|by intros (? & [= <-] & ? & _)]|].
  rewrite <- Hsrc.
  destruct (length_remove_dups (SourceConfig.name <$> GameConfig.sources gc)) as [_ Hdup].
  destruct (Nat.eqb_spec (length (SourceConfig.name <$> GameConfig.sources gc))
              (length (remove_dups (SourceConfig.name <$> GameConfig.sources gc))))
    as [Hlen|Hlen]; cbn [negb].
  2:{ split; [done|]. intros (? & [= <-] & _ & Hnd & _). destruct Hlen. symmetry.
      by apply Hdup. }
  assert (NoDup (SourceConfig.name <$> GameConfig.sources gc)) as Hnd by by apply Hdup.
  destruct (List.find _ (GameConfig.sources gc)) as [bad|] eqn:Hfind.
  { split; [done|]. intros (? & [= <-] & _ & _ & Hknown & _).
    apply find_some in Hfind as [Hin Hbad].
    apply negb_true_iff, bool_decide_eq_false_1 in Hbad.
    destruct Hbad. apply Hknown. by apply list_elem_of_In. }
  assert (∀ src, src ∈ GameConfig.sources gc
                 → SourceConfig.name src ∈ known_adapters (Config.game config)) as Hknown.
  { intros src Hin. apply (proj1 (find_none_iff _ _) Hfind) in Hin.
    by apply negb_false_iff, bool_decide_eq_true_1 in Hin. }
  pose proof (enabled_sources_nonempty gc) as Hen.
  destruct (GameConfig.enabled_sources gc) as [|e0 erest].
  - split; [done|]. intros (? & [= <-] & _ & _ & _ & Hex). by apply Hen in Hex.
  - split; [|done]. intros _. exists gc. repeat split; try done.
    + by rewrite Hsrc.
    + by apply Hen.
Qed.

(** X23. [_validate_config] accepts a configuration exactly when the
    active game is configured, it has at least one source, the source names
    are pairwise distinct, every source name is a known adapter of the game
    and at least one source is enabled. *)
Theorem validate_config_accepts_iff (config : Config.t) :
  _validate_config config = None
  ↔ ∃ game_cfg,
      dict_lookup (Config.game config) (Config.games config) = Some game_cfg
      ∧ GameConfig.sources game_cfg ≠ []
      ∧ NoDup (SourceConfig.name <$> GameConfig.sources game_cfg)
      ∧ (∀ src, src ∈ GameConfig.sources game_cfg →
                SourceConfig.name src ∈ known_adapters (Config.game config))
      ∧ ∃ src, src ∈ GameConfig.sources game_cfg ∧ SourceConfig.enabled src = true.
Proof. apply validate_config_accepts. Qed.

(** X24. The two views of the registry agree: a name is among the
    known adapters of a game exactly when [get_adapter_class] finds a class
    for that game and name instead of raising. *)
Theorem known_adapters_iff_registered (game name : string) :
  name ∈ known_adapters game ↔ ∃ qualified, get_adapter_class game name = inr qualified.
Proof. apply known_adapter_registered. Qed.

(** X25. In a configuration that validates, the registry has a class for
    every source of the active game, enabled or not, and the game has at
    least one enabled source. *)
Theorem validated_sources_are_registered (config : Config.t) (game_cfg : GameConfig.t) :
  _validate_config config = None →
  dict_lookup (Config.game config) (Config.games config) = Some game_cfg →
  (∀ src, src ∈ GameConfig.sources game_cfg →
          ∃ qualified,
            get_adapter_class (Config.game config) (SourceConfig.name src) = inr qualified)
  ∧ GameConfig.enabled_sources game_cfg ≠ [].
Proof.
  intros Hvalid Hgame.
  apply validate_config_accepts in Hvalid as (gc & Hgc & _ & _ & Hknown & Hen).
  rewrite Hgame in Hgc. injection Hgc as <-. split.
  - intros src Hin. apply known_adapter_registered. by apply Hknown.
  - by apply enabled_sources_nonempty.
Qed.

Lemma validated_sources_are_registered_witness :
  (∀ src, src ∈ GameConfig.sources SampleConfig.mtg →
          ∃ qualified, get_adapter_class "mtg" (SourceConfig.name src) = inr qualified)
  ∧ GameConfig.enabled_sources SampleConfig.mtg ≠ [].
Proof.
  apply (validated_sources_are_registered SampleConfig.config SampleConfig.mtg).
  - vm_compute. reflexivity.
  - reflexivity.
Defined.

(** ** scraper.py: [Scraper.setup] *)

Section SetupFacts.
Variable instantiate : string → SourceConfig.t → result Adapter.t.
Variable game : string.

(** The adapters loaded are those of the sources that load, one for each
    of them, in the order of the sources. *)
Lemma load_adapters_spec (enabled : list SourceConfig.t) :
  Forall2 (λ src adapter, load_adapter instantiate game src = Some adapter)
          (List.filter (λ src, bool_decide (is_Some (load_adapter instantiate game src)))
                       enabled)
          (load_adapters instantiate game enabled).
Proof.
  induction enabled as [|src rest IH]; cbn; [constructor|].
  destruct (load_adapter instantiate game src) as [adapter|] eqn:Hload.
  - rewrite bool_decide_eq_true_2 by (by eexists). by constructor.
  - rewrite bool_decide_eq_false_2 by (by intros [? ?]). done.
Qed.

Lemma load_adapters_nil (enabled : list SourceConfig.t) :
  load_adapters instantiate game enabled = []
  ↔ Forall (λ src, load_adapter instantiate game src = None) enabled.
Proof.
  induction enabled as [|src rest IH]; cbn.
  - split; [constructor|done].
  - rewrite Forall_cons. destruct (load_adapter instantiate game src) as [adapter|].
    + split; [done|by intros [? _]].
    + rewrite IH. naive_solver.
Qed.

Lemma load_adapters_all (enabled : list SourceConfig.t) :
  Forall (λ src, is_Some (load_adapter instantiate game src)) enabled →
  Forall2 (λ src adapter, load_adapter instantiate game src = Some adapter)
          enabled (load_adapters instantiate game enabled).
Proof.
  induction 1 as [|src rest [adapter Hload] _ IH]; cbn; [constructor|].
  rewrite Hload. by constructor.
Qed.
End SetupFacts.

(** X27. [setup] has two outcomes.  It returns a non-empty list of
    adapters, which holds exactly one adapter for each enabled source that
    could be loaded, in priority order: no such source is left out, and a
    source that fails is skipped.  Or it raises the RuntimeError "No
    adapters could be loaded", and then no enabled source could be
    loaded. *)
Theorem setup_outcome (instantiate : string → SourceConfig.t → result Adapter.t)
    (game : string) (game_cfg : GameConfig.t) :
  let enabled := GameConfig.enabled_sources game_cfg in
  let loadable :=
    List.filter (λ src, bool_decide (is_Some (load_adapter instantiate game src))) enabled in
  match setup instantiate game game_cfg with
  | Return adapters =>
      adapters ≠ []
      ∧ Forall2 (λ src adapter, load_adapter instantiate game src = Some adapter)
                loadable adapters
  | Raise e =>
      e = OtherError "No adapters could be loaded"
      ∧ Forall (λ src, load_adapter instantiate game src = None) enabled
  end.
Proof.
  intros enabled loadable. subst loadable. unfold setup. fold enabled.
  pose proof (load_adapters_spec instantiate game enabled) as Hspec.
  pose proof (load_adapters_nil instantiate game enabled) as Hnil.
  destruct (load_adapters instantiate game enabled) as [|adapter adapters].
  - split; [done|]. by apply Hnil.
  - split; [done|]. exact Hspec.
Qed.

(** X26. For a configuration that validates, if instantiating an adapter
    class never raises for an enabled source, [setup] returns exactly one
    adapter per enabled source of the active game, in priority order. *)
Theorem setup_loads_validated_sources
    (instantiate : string → SourceConfig.t → result Adapter.t)
    (config : Config.t) (game_cfg : GameConfig.t) :
  _validate_config config = None →
  dict_lookup (Config.game config) (Config.games config) = Some game_cfg →
  (∀ qualified src, src ∈ GameConfig.enabled_sources game_cfg →
                    ∃ adapter, instantiate qualified src = Return adapter) →
  ∃ adapters,
    setup instantiate (Config.game config) game_cfg = Return adapters
    ∧ Forall2 (λ src adapter,
                 ∃ qualified,
                   get_adapter_class (Config.game config) (SourceConfig.name src) = inr qualified
                   ∧ instantiate qualified src = Return adapter)
              (GameConfig.enabled_sources game_cfg) adapters.
Proof.
  intros Hvalid Hgame Hinst.
  apply validate_config_accepts in Hvalid as (gc & Hgc & _ & _ & Hknown & Hen).
  rewrite Hgame in Hgc. injection Hgc as <-.
  apply enabled_sources_nonempty in Hen.
  assert (∀ src, src ∈ GameConfig.enabled_sources game_cfg →
                 ∃ qualified adapter,
                   get_adapter_class (Config.game config) (SourceConfig.name src) = inr qualified
                   ∧ instantiate qualified src = Return adapter) as Hload.
  { intros src Hin.
    assert (src ∈ GameConfig.sources game_cfg) as Hsrc.
    { unfold GameConfig.enabled_sources in Hin. rewrite sorted_by_priority_perm in Hin.
      apply list_elem_of_In, filter_In in Hin as [Hin _]. by apply list_elem_of_In. }
    apply Hknown, known_adapter_registered in Hsrc as [qualified Hq].
    destruct (Hinst qualified src Hin) as [adapter Ha]. by exists qualified, adapter. }
  assert (Forall2 (λ src adapter,
                 ∃ qualified,
                   get_adapter_class (Config.game config) (SourceConfig.name src) = inr qualified
                   ∧ instantiate qualified src = Return adapter)
              (GameConfig.enabled_sources game_cfg)
              (load_adapters instantiate (Config.game config)
                             (GameConfig.enabled_sources game_cfg))) as Hall.
  { eapply Forall2_impl.
    - apply load_adapters_all. apply Forall_forall. intros src Hin.
      destruct (Hload src Hin) as (qualified & adapter & Hq & Ha).
      exists adapter. unfold load_adapter. by rewrite Hq, Ha.
    - intros src adapter. cbn. unfold load_adapter.
      destruct (get_adapter_class _ _) as [|qualified]; [done|].
      destruct (instantiate qualified src) as [a|] eqn:Ha; [|done].
      intros [= <-]. by exists qualified. }
  unfold setup.
  destruct (load_adapters _ _ _) as [|adapter adapters] eqn:Hl.
  - apply Forall2_nil_inv_r in Hall. done.
  - by eexists.
Qed.

Lemma setup_loads_validated_sources_witness :
  ∃ adapters,
    setup (λ _ src, Return (SampleConfig.adapter_of src)) "mtg" SampleConfig.mtg
    = Return adapters
    ∧ Forall2 (λ src adapter,
                 ∃ qualified,
                   get_adapter_class "mtg" (SourceConfig.name src) = inr qualified
                   ∧ Return (SampleConfig.adapter_of src) = Return adapter)
              (GameConfig.enabled_sources SampleConfig.mtg) adapters.
Proof.
  apply (setup_loads_validated_sources (λ _ src, Return (SampleConfig.adapter_of src))
           SampleConfig.config SampleConfig.mtg).
  - vm_compute. reflexivity.
  - reflexivity.
  - intros qualified src _. by eexists.
Defined.

(** With the sample instantiation, which fails for "mtgjson", the two
    enabled sources are loaded, the bulk source first. *)
Example setup_example :
  Adapter.name <$> default [] (match setup SampleConfig.instantiate "mtg" SampleConfig.mtg with
                               | Return adapters => Some adapters
                               | Raise _ => None
                               end)
  = ["scryfall-bulk"; "scryfall-api"].
Proof. vm_compute. reflexivity. Qed.

(** A game the registry does not know: every lookup raises inside the
    [try], and [setup] ends in the RuntimeError. *)
Example setup_unknown_game :
  setup SampleConfig.instantiate "pokemon" SampleConfig.mtg
  = Raise (OtherError "No adapters could be loaded").
Proof. vm_compute. reflexivity. Qed.

(** ** state.py: the summary *)

Lemma count_length {A} (xs : list A) : count xs = length xs.
Proof. unfold count. induction xs as [|x xs IH]; cbn; [done|]. by rewrite IH. Qed.

Lemma sum_list_fmap_with {A} (f : A → nat) (l : list A) :
  sum_list (f <$> l) = sum_list_with f l.
Proof. induction l as [|x l IH]; cbn; [done|]. by rewrite IH. Qed.

Lemma count_bind {A B} (f : A → list B) (l : list A) :
  count (x ← l; f x) = sum_list_with (λ x, count (f x)) l.
Proof.
  induction l as [|x l IH]; [done|].
  rewrite bind_cons.
  change (sum_list_with (λ x, count (f x)) (x :: l))
    with (count (f x) + sum_list_with (λ x, count (f x)) l).
  rewrite <- IH, !count_length, length_app. done.
Qed.

(** Replacing or adding one value of a dict changes a sum over its values
    by that value's share. *)
Lemma values_insert_sum {V} (f : V → nat) (d : gmap string V) (k : string) (v : V) :
  sum_list_with f (values (<[k := v]> d)) + from_option f 0 (d !! k)
  = sum_list_with f (values d) + f v.
Proof.
  unfold values. destruct (d !! k) as [v0|] eqn:Hk; cbn.
  - assert (map_to_list (<[k := v]> d) ≡ₚ (k, v) :: map_to_list (delete k d)) as Hnew.
    { rewrite <- insert_delete_eq. apply map_to_list_insert, lookup_delete_eq. }
    assert (map_to_list d ≡ₚ (k, v0) :: map_to_list (delete k d)) as Hold.
    { rewrite <- (insert_delete_id d k v0 Hk) at 1.
      apply map_to_list_insert, lookup_delete_eq. }
    rewrite Hnew, Hold. cbn. lia.
  - rewrite map_to_list_insert by done. cbn. lia.
Qed.

Lemma values_fmap_sum {V W} (g : W → nat) (h : V → W) (d : gmap string V) :
  sum_list_with g (values (h <$> d)) = sum_list_with (λ v, g (h v)) (values d).
Proof.
  unfold values. rewrite map_to_list_fmap.
  induction (map_to_list d) as [|[k v] l IH]; cbn; [done|]. by rewrite IH.
Qed.

Lemma count_filter_insert (status : string) (imgs : gmap string CardImageStatus.t)
    (card_id : string) (img : CardImageStatus.t) :
  count (List.filter (has_status status) (values (<[card_id := img]> imgs)))
  + one_if (has_status status) (imgs !! card_id)
  = count (List.filter (has_status status) (values imgs))
    + (if has_status status img then 1 else 0).
Proof.
  assert (∀ l, count (List.filter (has_status status) l)
               = sum_list_with (λ i, if has_status status i then 1 else 0) l) as Hcount.
  { intros l. rewrite count_length. induction l as [|x l IH]; cbn; [done|].
    destruct (has_status status x); cbn; by rewrite IH. }
  rewrite !Hcount.
  rewrite <- (values_insert_sum (λ i, if has_status status i then 1 else 0) imgs card_id img).
  by destruct (imgs !! card_id).
Qed.

(** X28. The totals of a summary are the sums of its per-set entries:
    there is one entry per set of the state, [sets_scraped] is their
    number, and [total_cards], [images_downloaded] and [images_failed] are
    the sums of the entries' [cards], [images_ok] and [images_failed]. *)
Theorem summary_totals_are_sums (st : ScrapeState.t) :
  let s := summary st in
  dom (Summary.sets s) = dom (ScrapeState.sets st)
  ∧ Summary.sets_scraped s = size (Summary.sets s)
  ∧ Summary.total_cards s = sum_list_with SetSummary.cards (values (Summary.sets s))
  ∧ Summary.images_downloaded s = sum_list_with SetSummary.images_ok (values (Summary.sets s))
  ∧ Summary.images_failed s = sum_list_with SetSummary.images_failed (values (Summary.sets s)).
Proof.
  cbn. repeat split.
  - apply dom_fmap_L.
  - by rewrite map_size_fmap.
  - by rewrite values_fmap_sum, sum_list_fmap_with.
  - by rewrite values_fmap_sum, count_bind.
  - by rewrite values_fmap_sum, count_bind.
Qed.

Lemma values_empty {V} : values (∅ : gmap string V) = [].
Proof. unfold values. by rewrite map_to_list_empty. Qed.

(** What storing an entry for a set does to the three sums. *)
Lemma summary_insert (s : ScrapeState.t) (set_id : string) (ss' : SetScrapeState.t) :
  let before := summary s in
  let after := summary (ScrapeState.mk (<[set_id := ss']> (ScrapeState.sets s))) in
  let old := ScrapeState.setdefault s set_id in
  Summary.total_cards after + length (SetScrapeState.card_ids old)
  = Summary.total_cards before + length (SetScrapeState.card_ids ss')
  ∧ ∀ st,
      count (ss ← values (<[set_id := ss']> (ScrapeState.sets s));
             List.filter (has_status st) (values (SetScrapeState.images ss)))
      + count (List.filter (has_status st) (values (SetScrapeState.images old)))
      = count (ss ← values (ScrapeState.sets s);
               List.filter (has_status st) (values (SetScrapeState.images ss)))
        + count (List.filter (has_status st) (values (SetScrapeState.images ss'))).
Proof.
  cbn zeta. unfold summary, ScrapeState.setdefault.
  cbn [Summary.total_cards ScrapeState.sets]. split.
  - rewrite !sum_list_fmap_with.
    rewrite <- (values_insert_sum (λ ss, length (SetScrapeState.card_ids ss))
                  (ScrapeState.sets s) set_id ss').
    by destruct (ScrapeState.sets s !! set_id).
  - intros st. rewrite !count_bind.
    rewrite <- (values_insert_sum
                  (λ ss, count (List.filter (has_status st)
                                            (values (SetScrapeState.images ss))))
                  (ScrapeState.sets s) set_id ss').
    destruct (ScrapeState.sets s !! set_id); [done|].
    cbn [default from_option id SetScrapeState.fresh SetScrapeState.images].
    by rewrite values_empty.
Qed.

Lemma one_if_image_status (st : string) (s : ScrapeState.t) (set_id card_id : string) :
  one_if (has_status st) (image_status s set_id card_id)
  = one_if (has_status st)
      (SetScrapeState.images (ScrapeState.setdefault s set_id) !! card_id).
Proof.
  unfold image_status, ScrapeState.setdefault.
  destruct (ScrapeState.sets s !! set_id); cbn; [done|]. by rewrite lookup_empty.
Qed.

(** X29. The summary follows [mark_image]: recording a status for a
    card's image adds one to the counter of that status (success or
    failed) and takes one from the counter of the status the card had
    before, if it had one; the card total is unchanged and the number of
    sets grows by one exactly when the set had no entry. *)
Theorem summary_tracks_mark_image (s : ScrapeState.t)
    (set_id card_id status : string) (path error : option string) :
  let before := summary s in
  let after := summary (ScrapeState.mark_image s set_id card_id status path error) in
  Summary.images_downloaded after + one_if (has_status "success") (image_status s set_id card_id)
  = Summary.images_downloaded before + (if String.eqb status "success" then 1 else 0)
  ∧ Summary.images_failed after + one_if (has_status "failed") (image_status s set_id card_id)
    = Summary.images_failed before + (if String.eqb status "failed" then 1 else 0)
  ∧ Summary.total_cards after = Summary.total_cards before
  ∧ Summary.sets_scraped after
    = Summary.sets_scraped before
      + match ScrapeState.sets s !! set_id with Some _ => 0 | None => 1 end.
Proof.
  cbn zeta. unfold ScrapeState.mark_image.
  set (old := ScrapeState.setdefault s set_id).
  set (img := CardImageStatus.mk card_id status path error).
  destruct (summary_insert s set_id
              (SetScrapeState.with_images old (<[card_id := img]> (SetScrapeState.images old))))
    as [Hcards Himages].
  cbn zeta in Hcards, Himages. fold old in Hcards, Himages.
  cbn [SetScrapeState.with_images SetScrapeState.images SetScrapeState.card_ids]
    in Hcards, Himages.
  assert (∀ st,
    count (ss ← values (<[set_id := SetScrapeState.with_images old
                                      (<[card_id := img]> (SetScrapeState.images old))]>
                          (ScrapeState.sets s));
           List.filter (has_status st) (values (SetScrapeState.images ss)))
    + one_if (has_status st) (image_status s set_id card_id)
    = count (ss ← values (ScrapeState.sets s);
             List.filter (has_status st) (values (SetScrapeState.images ss)))
      + (if String.eqb status st then 1 else 0)) as Hcount.
  { intros st. specialize (Himages st).
    pose proof (count_filter_insert st (SetScrapeState.images old) card_id img) as Hins.
    change (has_status st img) with (String.eqb status st) in Hins.
    rewrite one_if_image_status. fold old. lia. }
  split; [apply Hcount|]. split; [apply Hcount|]. split; [lia|].
  unfold summary. cbn [Summary.sets_scraped ScrapeState.sets].
  destruct (ScrapeState.sets s !! set_id) as [ss|] eqn:Hset.
  - rewrite map_size_insert_Some by done. lia.
  - rewrite map_size_insert_None by done. lia.
Qed.

(** X30. The summary follows [mark_card_scraped]: the card total grows by
    one exactly when the card was not yet recorded for the set, and the
    image counters do not change. *)
Theorem summary_tracks_mark_card_scraped (s : ScrapeState.t) (set_id card_id : string) :
  let before := summary s in
  let after := summary (ScrapeState.mark_card_scraped s set_id card_id) in
  Summary.total_cards after
  = Summary.total_cards before
    + (if ScrapeState.is_card_scraped s set_id card_id then 0 else 1)
  ∧ Summary.images_downloaded after = Summary.images_downloaded before
  ∧ Summary.images_failed after = Summary.images_failed before.
Proof.
  cbn zeta. unfold ScrapeState.mark_card_scraped.
  set (old := ScrapeState.setdefault s set_id).
  set (ss' := if bool_decide (card_id ∈ SetScrapeState.card_ids old) then old
              else SetScrapeState.with_card_ids old (SetScrapeState.card_ids old ++ [card_id])).
  destruct (summary_insert s set_id ss') as [Hcards Himages].
  cbn zeta in Hcards, Himages. fold old in Hcards, Himages.
  assert (SetScrapeState.images ss' = SetScrapeState.images old) as Himg
    by (subst ss'; by case_bool_decide).
  assert (length (SetScrapeState.card_ids ss')
          = length (SetScrapeState.card_ids old)
            + (if ScrapeState.is_card_scraped s set_id card_id then 0 else 1)) as Hlen.
  { assert (ScrapeState.is_card_scraped s set_id card_id
            = bool_decide (card_id ∈ SetScrapeState.card_ids old)) as ->.
    { subst old. unfold ScrapeState.is_card_scraped, ScrapeState.setdefault.
      destruct (ScrapeState.sets s !! set_id); cbn; [done|].
      symmetry. apply bool_decide_eq_false_2. by intros ?%elem_of_nil. }
    subst ss'. case_bool_decide; cbn; [lia|]. rewrite length_app. cbn. lia. }
  rewrite Himg in Himages.
  pose proof (Himages "success") as Hok. pose proof (Himages "failed") as Hfailed.
  split; [lia|]. unfold summary.
  cbn [Summary.images_downloaded Summary.images_failed ScrapeState.sets].
  split; lia.
Qed.

(** Two sets, three cards, one image of each kind. *)
Example summary_example :
  let st := ScrapeState.mark_image
              (ScrapeState.mark_image
                 (ScrapeState.mark_card_scraped
                    (ScrapeState.mark_card_scraped
                       (ScrapeState.mark_card_scraped ScrapeState.empty "OP01" "OP01-001")
                       "OP01" "OP01-002")
                    "OP02" "OP02-001")
                 "OP01" "OP01-001" "success" (Some "out/OP01/cards/OP01-001.jpg") None)
              "OP02" "OP02-001" "failed" None (Some "HTTP 404") in
  let s := summary st in
  (Summary.sets_scraped s, Summary.total_cards s,
   Summary.images_downloaded s, Summary.images_failed s) = (2, 3, 1, 1)
  ∧ SetSummary.cards <$> Summary.sets s !! "OP01" = Some 2.
Proof. vm_compute. split; reflexivity. Qed.
